(** * Task history store, log reconciliation and task poller

    A shallow embedding of [frontend/src/utils/history.js] (the History
    Store and the log merge it performs) and of [pollLogs] in the Parser
    page, followed by the properties of the specification that concern
    them.

    Conventions of the embedding.
    - A JavaScript object used as a record is a Rocq [Record]; a key that
      may be absent is an [option] field.
    - An instant is a [Z]: the number of milliseconds since the Unix epoch,
      which is what [new Date(s).getTime()] yields for the ISO string [s]
      written by [new Date().toISOString()].  A log event's [timestamp] is
      [None] when the key is missing (or holds a falsy value) and [Some t]
      when it parses to the instant [t]; timestamps that do not parse at
      all (the comparator would see [NaN]) are outside the model.
    - [new Date()] and [uuidv4()] are inputs of the functions that call
      them ([now], [uuid]).
    - A [try { ... } catch] block is a computation in [option] ([None]: an
      exception was thrown) followed by a [match] playing the handler. *)

From stdpp Require Import base option list strings gmap pretty.
From Stdlib Require Import ZArith Sorting.Sorted Strings.Ascii.

Set Warnings "-clear-no-such-hyp,-register-all".

Local Open Scope string_scope.
Local Open Scope Z_scope.
Local Open Scope list_scope.

(** ** Data model *)

(** One log line: [{ message, type, timestamp }]. *)
Record LogEvent := mkLog {
  message : string;
  type : string;
  timestamp : option Z
}.

(** The payload of [GET /api/task/:id/result]: its [allLogs] key may be
    absent, the rest is opaque. *)
Record Result := mkResult {
  res_allLogs : option (list LogEvent);
  res_data : string
}.

(** An entry of the history array.  [task_type] is the entry's [type] key;
    [endTime], [duration] and [updatedAt] only appear through updates.  An
    entry without a [logs] key is read as [logs = []] everywhere
    ([item.logs || []]), so [logs] is a plain list. *)
Record HistoryItem := mkItem {
  id : string;
  taskId : string;
  task_type : string;
  path : option string;
  folderName : option string;
  startTime : Z;
  status : string;
  logs : list LogEvent;
  allLogs : list LogEvent;
  result : option Result;
  error : option string;
  savedAt : Z;
  endTime : option Z;
  duration : option string;
  updatedAt : option Z
}.

(** The argument of [saveToHistory]. *)
Record TaskData := mkTaskData {
  td_taskId : string;
  td_type : option string;
  td_path : option string;
  td_folderName : option string;
  td_startTime : option Z;
  td_status : option string;
  td_logs : option (list LogEvent);
  td_allLogs : option (list LogEvent);
  td_result : option Result;
  td_error : option string
}.

(** The second argument of [updateHistoryItem]: the keys the callers pass. *)
Record Updates := mkUpdates {
  u_logs : option (list LogEvent);
  u_status : option string;
  u_endTime : option Z;
  u_duration : option string;
  u_result : option Result;
  u_error : option string
}.

#[global] Instance LogEvent_eq_dec : EqDecision LogEvent.
Proof. solve_decision. Defined.

(** ** localStorage *)

(** What is stored under [HISTORY_KEY]: nothing ([getItem] returns [null]),
    a text [JSON.parse] rejects, or the serialisation of an array of
    entries (the only thing this module ever writes). *)
Inductive Stored :=
  | Missing
  | Garbled
  | Saved (h : list HistoryItem).

(** [writable = false]: [setItem] throws (quota exceeded, storage
    disabled). *)
Record Storage := mkStorage {
  content : Stored;
  writable : bool
}.

Definition MAX_HISTORY_ITEMS : nat := 100.

(** [JSON.parse(localStorage.getItem(HISTORY_KEY) || '[]')] *)
Definition readHistory (st : Storage) : option (list HistoryItem) :=
  match content st with
  | Missing => Some []
  | Garbled => None
  | Saved h => Some h
  end.

(** [localStorage.setItem(HISTORY_KEY, JSON.stringify(h))] *)
Definition setItem (st : Storage) (h : list HistoryItem) : option Storage :=
  if writable st then Some (mkStorage (Saved h) true) else None.

(** [s || d] on a possibly absent string: the empty string is falsy. *)
Definition str_or (s : option string) (d : string) : string :=
  match s with
  | Some v => if decide (v = "") then d else v
  | None => d
  end.

(** [s || null] *)
Definition str_or_null (s : option string) : option string :=
  match s with
  | Some v => if decide (v = "") then None else Some v
  | None => None
  end.

(** ** History Store *)

Definition historyItem (taskData : TaskData) (uuid : string) (now : Z)
  : HistoryItem :=
  {| id := uuid;
     taskId := td_taskId taskData;
     task_type := str_or (td_type taskData) "unknown";
     path := td_path taskData;
     folderName := td_folderName taskData;
     startTime := default now (td_startTime taskData);
     status := str_or (td_status taskData) "running";
     logs := default [] (td_logs taskData);
     allLogs := default [] (td_allLogs taskData);
     result := td_result taskData;
     error := str_or_null (td_error taskData);
     savedAt := now;
     endTime := None;
     duration := None;
     updatedAt := None |}.

(** [if (newHistory.length > MAX) newHistory.length = MAX] *)
Definition capHistory (newHistory : list HistoryItem) : list HistoryItem :=
  if decide (MAX_HISTORY_ITEMS < length newHistory)%nat
  then take MAX_HISTORY_ITEMS newHistory
  else newHistory.

(** Returns the new storage and the id of the entry, [None] for [null]. *)
Definition saveToHistory (taskData : TaskData) (uuid : string) (now : Z)
    (st : Storage) : Storage * option string :=
  let body :=
    existingHistory ← readHistory st;
    let item := historyItem taskData uuid now in
    let newHistory := capHistory (item :: existingHistory) in
    st' ← setItem st newHistory;
    Some (st', id item) in
  match body with
  | Some (st', i) => (st', Some i)
  | None => (st, None)
  end.

(** [history.findIndex(item => item.taskId === taskId)] *)
Definition findIndex (tid : string) (history : list HistoryItem)
  : option (nat * HistoryItem) :=
  list_find (λ item, taskId item = tid) history.

Definition with_logs (u : Updates) (ls : list LogEvent) : Updates :=
  {| u_logs := Some ls; u_status := u_status u; u_endTime := u_endTime u;
     u_duration := u_duration u; u_result := u_result u;
     u_error := u_error u |}.

(** [{ ...item, ...updates, updatedAt: now }] *)
Definition spread (item : HistoryItem) (updates : Updates) (now : Z)
  : HistoryItem :=
  {| id := id item;
     taskId := taskId item;
     task_type := task_type item;
     path := path item;
     folderName := folderName item;
     startTime := startTime item;
     status := default (status item) (u_status updates);
     logs := default (logs item) (u_logs updates);
     allLogs := allLogs item;
     result := match u_result updates with
               | Some r => Some r
               | None => result item
               end;
     error := match u_error updates with
              | Some e => Some e
              | None => error item
              end;
     savedAt := savedAt item;
     endTime := match u_endTime updates with
                | Some t => Some t
                | None => endTime item
                end;
     duration := match u_duration updates with
                 | Some d => Some d
                 | None => duration item
                 end;
     updatedAt := Some now |}.

(** The block guarded by [updates.logs && updates.logs.length > 0]. *)
Definition mergeUpdateLogs (item : HistoryItem) (updates : Updates)
  : Updates :=
  match u_logs updates with
  | Some ls =>
      if decide (0 < length ls)%nat then
        let existingLogs := logs item in
        let existingMessages : gset string :=
          list_to_set (message <$> existingLogs) in
        let newLogs := filter (λ l, message l ∉ existingMessages) ls in
        with_logs updates (existingLogs ++ newLogs)
      else updates
  | None => updates
  end.

(** Returns the new storage and [itemIndex !== -1]; the handler of the
    [catch] returns [false] and leaves the storage as it was. *)
Definition updateHistoryItem (tid : string) (updates : Updates) (now : Z)
    (st : Storage) : Storage * bool :=
  let body :=
    history ← readHistory st;
    match findIndex tid history with
    | Some (itemIndex, item) =>
        let updates' := mergeUpdateLogs item updates in
        st' ← setItem st (<[itemIndex := spread item updates' now]> history);
        Some (st', true)
    | None => Some (st, false)
    end in
  match body with
  | Some r => r
  | None => (st, false)
  end.

(** *** The merge of [saveCompleteLogsToHistory] *)

(** One turn of [for (const log of allLogs)]. *)
Definition dedupStep (acc : gset string * list LogEvent) (log : LogEvent)
  : gset string * list LogEvent :=
  let '(seenMessages, uniqueLogs) := acc in
  if decide (message log ∈ seenMessages) then acc
  else ({[message log]} ∪ seenMessages, uniqueLogs ++ [log]).

Definition dedupByMessage (allLogs : list LogEvent) : list LogEvent :=
  (foldl dedupStep (∅, []) allLogs).2.

(** [a.timestamp ? new Date(a.timestamp).getTime() : 0] *)
Definition timeOf (a : LogEvent) : Z := default 0 (timestamp a).

(** [uniqueLogs.sort((a, b) => timeA - timeB)]: [Array.prototype.sort] is
    stable, and so is this insertion sort: [a] goes before [b] when
    [timeA - timeB <= 0]. *)
Fixpoint insertByTime (a : LogEvent) (l : list LogEvent) : list LogEvent :=
  match l with
  | [] => [a]
  | b :: l' =>
      if decide (timeOf a - timeOf b ≤ 0) then a :: b :: l'
      else b :: insertByTime a l'
  end.

Definition sortByTime (l : list LogEvent) : list LogEvent :=
  foldr insertByTime [] l.

(** The log sequence [saveCompleteLogsToHistory] computes from the backend
    dump and the entry's logs. *)
Definition mergeLogs (backendLogs existingLogs : list LogEvent)
  : list LogEvent :=
  let allLogs := backendLogs ++ existingLogs in
  sortByTime (dedupByMessage allLogs).

(** [{ ...item, logs: uniqueLogs, allLogs: backendLogs, updatedAt: now }] *)
Definition withCompleteLogs (item : HistoryItem)
    (uniqueLogs backendLogs : list LogEvent) (now : Z) : HistoryItem :=
  {| id := id item;
     taskId := taskId item;
     task_type := task_type item;
     path := path item;
     folderName := folderName item;
     startTime := startTime item;
     status := status item;
     logs := uniqueLogs;
     allLogs := backendLogs;
     result := result item;
     error := error item;
     savedAt := savedAt item;
     endTime := endTime item;
     duration := duration item;
     updatedAt := Some now |}.

(** [backendLogs] is the argument after its default ([= []]) has been
    applied. *)
Definition saveCompleteLogsToHistory (tid : string)
    (backendLogs : list LogEvent) (now : Z) (st : Storage) : Storage * bool :=
  let body :=
    history ← readHistory st;
    match findIndex tid history with
    | Some (itemIndex, item) =>
        let existingLogs := logs item in
        let uniqueLogs := mergeLogs backendLogs existingLogs in
        st' ← setItem st
                (<[itemIndex :=
                     withCompleteLogs item uniqueLogs backendLogs now]> history);
        Some (st', true)
    | None => Some (st, false)
    end in
  match body with
  | Some r => r
  | None => (st, false)
  end.

(** [getHistory] returns the array; the handler turns a throw into [[]]. *)
Definition getHistory (st : Storage) : list HistoryItem :=
  match readHistory st with
  | Some h => h
  | None => []
  end.

(** [localStorage.removeItem(HISTORY_KEY)] *)
Definition clearHistory (st : Storage) : Storage :=
  mkStorage Missing (writable st).

Definition deleteFromHistory (i : string) (st : Storage) : Storage * bool :=
  let body :=
    history ← readHistory st;
    let newHistory := filter (λ item, id item ≠ i) history in
    st' ← setItem st newHistory;
    Some (st', true) in
  match body with
  | Some r => r
  | None => (st, false)
  end.

(** ** Task poller ([pollLogs] of the Parser page) *)

(** What [axios.get(`/api/task/${id}/logs`)] does in one attempt: a
    response with [data.logs] (possibly absent) and [data.status], or a
    thrown error with its [code] and [message]. *)
Inductive FetchOutcome :=
  | Response (dataLogs : option (list LogEvent)) (taskStatus : string)
  | FetchError (code : string) (msg : string).

(** What the result request does, should the attempt reach it: a usable
    [data.result], or a failure (request error or unusable body). *)
Inductive ResultOutcome :=
  | ResultResponse (finalResult : Result)
  | ResultError.

(** The environment of one call of [poll]: both requests and the clock. *)
Record PollEvent := mkEvent {
  fetch : FetchOutcome;
  resultFetch : ResultOutcome;
  clock : Z
}.

(** [attempt] is the counter declared by [pollLogs]; the other fields are
    the component state the poller writes ([setLogs], [setLoading],
    [setError]).  A state updater passed to [setLogs] is run at the call. *)
Record PollerState := mkPoller {
  attempt : nat;
  stateLogs : list LogEvent;
  loading : bool;
  errorText : string
}.

(** What [poll] leaves behind: [Again d] for [setTimeout(poll, d)]. *)
Inductive Next :=
  | Again (delay : Z)
  | Stop.

Definition maxAttempts : nat := 10.

Definition formatDuration (start end_ : Z) : string :=
  let duration := end_ - start in
  let seconds := duration `div` 1000 in
  if decide (seconds < 60) then pretty seconds +:+ " сек"
  else
    let minutes := seconds `div` 60 in
    let remainingSeconds := seconds `rem` 60 in
    pretty minutes +:+ " мин " +:+ pretty remainingSeconds +:+ " сек".

Definition successEvent (now : Z) : LogEvent :=
  mkLog "✅ Парсинг завершен успешно!" "success" (Some now).

Definition noResultEvent (now : Z) : LogEvent :=
  mkLog "✅ Задача завершена (результат не получен)" "info" (Some now).

Definition failedEvent (now : Z) : LogEvent :=
  mkLog "❌ Парсинг завершен с ошибкой" "error" (Some now).

Definition commErrorEvent (msg : string) (now : Z) : LogEvent :=
  mkLog ("❌ Ошибка связи с сервером: " +:+ msg) "error" (Some now).

Definition noUpdates : Updates :=
  {| u_logs := None; u_status := None; u_endTime := None;
     u_duration := None; u_result := None; u_error := None |}.

Section Poll.
(** [pollLogs(id, startTime)], and the [logs] its closure captured from
    the render that started the task. *)
Variables (id_ : string) (startTime_ : Z) (capturedLogs : list LogEvent).

(** The updater given to [setLogs] after a response. *)
Definition mergeResponse (newLogs : list LogEvent) (taskStatus : string)
    (now : Z) (p : PollerState) (st : Storage) : PollerState * Storage :=
  let prev := stateLogs p in
  let existingMessages : gset string := list_to_set (message <$> prev) in
  let filtered := filter (λ l, message l ∉ existingMessages) newLogs in
  let updatedLogs := prev ++ filtered in
  let st' :=
    if decide (0 < length filtered)%nat then
      (updateHistoryItem id_
         {| u_logs := Some updatedLogs; u_status := Some taskStatus;
            u_endTime := None; u_duration := None; u_result := None;
            u_error := None |} now st).1
    else st in
  (mkPoller (attempt p) updatedLogs (loading p) (errorText p), st').

Definition appendLog (e : LogEvent) (p : PollerState) : PollerState :=
  mkPoller (attempt p) (stateLogs p ++ [e]) (loading p) (errorText p).

Definition stopLoading (p : PollerState) : PollerState :=
  mkPoller (attempt p) (stateLogs p) false (errorText p).

(** The branch [taskStatus === 'completed'], with its own try/catch. *)
Definition onCompleted (ev : PollEvent) (p : PollerState) (st : Storage)
  : PollerState * Storage :=
  let now := clock ev in
  match resultFetch ev with
  | ResultResponse finalResult =>
      let backendLogs := default [] (res_allLogs finalResult) in
      let st1 := (saveCompleteLogsToHistory id_ backendLogs now st).1 in
      let finalLogs := capturedLogs ++ [successEvent now] in
      let st2 :=
        (updateHistoryItem id_
           {| u_logs := Some finalLogs; u_status := Some "completed";
              u_endTime := Some now;
              u_duration := Some (formatDuration startTime_ now);
              u_result := Some finalResult; u_error := None |} now st1).1 in
      (stopLoading (appendLog (successEvent now) p), st2)
  | ResultError =>
      let st1 :=
        (updateHistoryItem id_
           {| u_logs := Some (capturedLogs ++ [noResultEvent now]);
              u_status := Some "completed";
              u_endTime := Some now;
              u_duration := Some (formatDuration startTime_ now);
              u_result := None; u_error := None |} now st).1 in
      (stopLoading p, st1)
  end.

(** The branch [taskStatus === 'failed']. *)
Definition onFailed (ev : PollEvent) (p : PollerState) (st : Storage)
  : PollerState * Storage :=
  let now := clock ev in
  let finalLogs := capturedLogs ++ [failedEvent now] in
  let st1 :=
    (updateHistoryItem id_
       {| u_logs := Some finalLogs; u_status := Some "failed";
          u_endTime := Some now;
          u_duration := Some (formatDuration startTime_ now);
          u_result := None; u_error := None |} now st).1 in
  (stopLoading (appendLog (failedEvent now) p), st1).

(** The handler of the outer [catch (err)]. *)
Definition onError (code msg : string) (ev : PollEvent) (p : PollerState)
    (st : Storage) : PollerState * Storage * Next :=
  let now := clock ev in
  if decide (code = "ECONNABORTED" ∧ (attempt p < maxAttempts)%nat) then
    (mkPoller (S (attempt p)) (stateLogs p) (loading p) (errorText p),
     st, Again 2000)
  else
    let errorLogs := capturedLogs ++ [commErrorEvent msg now] in
    let st1 :=
      (updateHistoryItem id_
         {| u_logs := Some errorLogs; u_status := Some "failed";
            u_endTime := Some now;
            u_duration := Some (formatDuration startTime_ now);
            u_result := None; u_error := Some msg |} now st).1 in
    (mkPoller (attempt p) (stateLogs p) false "Ошибка связи с сервером",
     st1, Stop).

(** One call of [poll]. *)
Definition poll (ev : PollEvent) (p : PollerState) (st : Storage)
  : PollerState * Storage * Next :=
  match fetch ev with
  | Response dataLogs taskStatus =>
      let newLogs := default [] dataLogs in
      let '(p1, st1) := mergeResponse newLogs taskStatus (clock ev) p st in
      if decide (taskStatus = "running") then (p1, st1, Again 1500)
      else if decide (taskStatus = "completed") then
        (onCompleted ev p1 st1, Stop)
      else if decide (taskStatus = "failed") then
        (onFailed ev p1 st1, Stop)
      else (p1, st1, Stop)
  | FetchError code msg => onError code msg ev p st
  end.

(** The calls of [poll] over a sequence of environments, for as long as
    each call schedules the next one. *)
Fixpoint pollFrom (trace : list PollEvent) (p : PollerState) (st : Storage)
  : PollerState * Storage * Next :=
  match trace with
  | [] => (p, st, Again 0)
  | ev :: rest =>
      match poll ev p st with
      | (p', st', Again _) => pollFrom rest p' st'
      | stopped => stopped
      end
  end.

(** [pollLogs]: [let attempt = 0], then [poll()]. *)
Definition pollLogs (trace : list PollEvent) (p : PollerState)
    (st : Storage) : PollerState * Storage * Next :=
  pollFrom trace (mkPoller 0 (stateLogs p) (loading p) (errorText p)) st.
End Poll.

(** ** The folder tree and the start of a task (Parser page) *)

(** An entry of [GET /api/folders]; an absent [subfolders] key behaves as
    the empty array in every test the page makes. *)
Inductive Folder := mkFolder {
  folder_name : string;
  folder_path : string;
  files_count : Z;
  subfolders : list Folder
}.

(** [for (const x of xs) { const found = f(x); if (found) return found }
    return null] *)
Definition firstFound {A B : Type} (f : A → option B) : list A → option B :=
  fix loop (xs : list A) : option B :=
    match xs with
    | [] => None
    | x :: rest =>
        match f x with
        | Some found => Some found
        | None => loop rest
        end
    end.

(** One turn of the loop of [findFirstFolderWithFiles]. *)
Fixpoint firstWithFilesAt (folder : Folder) : option Folder :=
  if decide (0 < files_count folder) then Some folder
  else
    match subfolders folder with
    | [] => None
    | sub :: subs => firstFound firstWithFilesAt (sub :: subs)
    end.

Definition findFirstFolderWithFiles (folders : list Folder) : option Folder :=
  firstFound firstWithFilesAt folders.

(** One turn of the loop of [findFolder] (the helper local to
    [getFolderName] and to [getSelectedFolderInfo]). *)
Fixpoint findFolderAt (targetPath : string) (folder : Folder)
  : option Folder :=
  if decide (folder_path folder = targetPath) then Some folder
  else firstFound (findFolderAt targetPath) (subfolders folder).

Definition findFolder (folders : list Folder) (targetPath : string)
  : option Folder :=
  firstFound (findFolderAt targetPath) folders.

(** The separators of [path.split(/[\\/]/)]. *)
Definition isSeparator (c : Ascii.ascii) : bool :=
  bool_decide (c = "/"%char) || bool_decide (c = "\"%char).

(** [path.split(/[\\/]/)], the piece being read in [piece]. *)
Fixpoint splitFrom (piece : string) (rest : string) : list string :=
  match rest with
  | EmptyString => [piece]
  | String c rest' =>
      if isSeparator c then piece :: splitFrom "" rest'
      else splitFrom (piece +:+ String c "") rest'
  end.

Definition splitPath (path_ : string) : list string := splitFrom "" path_.

(** [folder ? folder.name : path.split(/[\\/]/).pop() || path] *)
Definition getFolderName (availableFolders : list Folder) (path_ : string)
  : string :=
  match findFolder availableFolders path_ with
  | Some folder => folder_name folder
  | None =>
      match last (splitPath path_) with
      | Some piece => if decide (piece = "") then path_ else piece
      | None => path_
      end
  end.

(** [collectPaths] of [expandAllFolders], as the list it pushes to. *)
Fixpoint collectPathsAt (folder : Folder) : list string :=
  match subfolders folder with
  | [] => []
  | sub :: subs =>
      folder_path folder :: flat_map collectPathsAt (sub :: subs)
  end.

Definition collectPaths (folders : list Folder) : list string :=
  flat_map collectPathsAt folders.

(** [expandedFolders]: an object from paths to booleans. *)
Definition expandAllFolders (availableFolders : list Folder)
  : gmap string bool :=
  foldl (λ newExpanded path_, <[path_ := true]> newExpanded) ∅
    (collectPaths availableFolders).

Definition collapseAllFolders : gmap string bool := ∅.

(** [expandedFolders[path]] where the page tests it: absent is falsy. *)
Definition isExpanded (expandedFolders : gmap string bool) (path_ : string)
  : bool :=
  default false (expandedFolders !! path_).

(** [{ ...prev, [folderPath]: !prev[folderPath] }] *)
Definition handleToggleFolder (folderPath : string)
    (prev : gmap string bool) : gmap string bool :=
  <[folderPath := negb (isExpanded prev folderPath)]> prev.

(** The state of the page: [view] holds the part the poller writes too
    ([logs], [loading], [error]). *)
Record Page := mkPage {
  selectedFolder : string;
  availableFolders : list Folder;
  taskIdState : option string;
  startTimeState : option Z;
  historyId : option string;
  view : PollerState
}.

(** What [axios.get('/api/folders')] does. *)
Inductive FoldersOutcome :=
  | FoldersResponse (dataFolders : option (list Folder))
  | FoldersError.

(** The test of the filter in [loadFolders]. *)
Definition worthShowing (folder : Folder) : Prop :=
  0 < files_count folder ∨ (0 < length (subfolders folder))%nat.

#[global] Instance worthShowing_dec (folder : Folder) :
  Decision (worthShowing folder).
Proof. unfold worthShowing. apply _. Defined.

Definition withView (pg : Page) (v : PollerState) : Page :=
  mkPage (selectedFolder pg) (availableFolders pg) (taskIdState pg)
    (startTimeState pg) (historyId pg) v.

Definition setError (msg : string) (v : PollerState) : PollerState :=
  mkPoller (attempt v) (stateLogs v) (loading v) msg.

Definition loadFolders (outcome : FoldersOutcome) (pg : Page) : Page :=
  match outcome with
  | FoldersResponse dataFolders =>
      let folders := default [] dataFolders in
      let filteredFolders := filter worthShowing folders in
      let selected :=
        if decide ((0 < length filteredFolders)%nat ∧ selectedFolder pg = "")
        then
          match findFirstFolderWithFiles filteredFolders with
          | Some firstFolder => folder_path firstFolder
          | None => selectedFolder pg
          end
        else selectedFolder pg in
      mkPage selected filteredFolders (taskIdState pg) (startTimeState pg)
        (historyId pg) (view pg)
  | FoldersError =>
      withView pg (setError "Не удалось загрузить список папок" (view pg))
  end.

(** What [axios.post('/api/parse-files')] does: a task id, or an error with
    its [response.data.detail] (possibly absent) and its [message]. *)
Inductive SubmitOutcome :=
  | Submitted (task_id : string)
  | SubmitFailed (detail : option string) (msg : string).

(** [a || b] on strings, [a] possibly absent. *)
Definition orElse (a : option string) (b : string) : string := str_or a b.

Definition launchEvent (folderName_ : string) (now : Z) : LogEvent :=
  mkLog ("🚀 Парсинг запущен. Папка: " +:+ folderName_) "info" (Some now).

Definition launchErrorEvent (detail : option string) (msg : string) (now : Z)
  : LogEvent :=
  mkLog ("❌ Ошибка запуска: " +:+ orElse detail msg) "error" (Some now).

(** What [startParsing] leaves running: the call
    [pollLogs(newTaskId, currentStartTime)], with the [logs] of the render
    in which the button was pressed. *)
Record Polling := mkPolling {
  polledId : string;
  polledStart : Z;
  polledLogs : list LogEvent
}.

(** [startParsing]: [t0] is the clock before the request, [t1] after it,
    [uuid] what [uuidv4()] gives to [saveToHistory].  The data of a failed
    submission also carry [endTime] and [duration], two keys that
    [saveToHistory] does not copy. *)
Definition startParsing (submit : SubmitOutcome) (uuid : string) (t0 t1 : Z)
    (pg : Page) (st : Storage) : Page * Storage * option Polling :=
  if decide (selectedFolder pg = "") then
    (withView pg (setError "Пожалуйста, выберите папку" (view pg)), st, None)
  else
    let currentStartTime := t0 in
    let folderName_ := getFolderName (availableFolders pg) (selectedFolder pg) in
    match submit with
    | Submitted newTaskId =>
        let initialLogs := [launchEvent folderName_ t1] in
        let '(st', historyItemId) :=
          saveToHistory
            {| td_taskId := newTaskId; td_type := Some "parse";
               td_path := Some (selectedFolder pg);
               td_folderName := Some folderName_;
               td_startTime := Some currentStartTime;
               td_status := Some "running"; td_logs := Some initialLogs;
               td_allLogs := None; td_result := None; td_error := None |}
            uuid t1 st in
        (mkPage (selectedFolder pg) (availableFolders pg) (Some newTaskId)
           (Some currentStartTime) historyItemId
           (mkPoller (attempt (view pg)) initialLogs true ""),
         st',
         Some (mkPolling newTaskId currentStartTime (stateLogs (view pg))))
    | SubmitFailed detail msg =>
        let st' :=
          (saveToHistory
             {| td_taskId := "error_" +:+ pretty t1; td_type := Some "parse";
                td_path := Some (selectedFolder pg);
                td_folderName := Some folderName_;
                td_startTime := Some currentStartTime;
                td_status := Some "failed";
                td_logs := Some [launchErrorEvent detail msg t1];
                td_allLogs := None; td_result := None;
                td_error :=
                  Some (orElse (Some (orElse detail msg))
                          "Ошибка запуска парсинга") |}
             uuid t1 st).1 in
        (mkPage (selectedFolder pg) (availableFolders pg) None
           (Some currentStartTime) (historyId pg)
           (mkPoller (attempt (view pg)) [] false
              (orElse (Some (orElse detail msg)) "Ошибка запуска парсинга")),
         st', None)
    end.

(** A task from the click to the end of a sequence of poll environments. *)
Definition runTask (submit : SubmitOutcome) (uuid : string) (t0 t1 : Z)
    (trace : list PollEvent) (pg : Page) (st : Storage)
  : PollerState * Storage * Next :=
  match startParsing submit uuid t0 t1 pg st with
  | (pg', st', Some polling) =>
      pollLogs (polledId polling) (polledStart polling) (polledLogs polling)
        trace (view pg') st'
  | (pg', st', None) => (view pg', st', Stop)
  end.

(** * Notions used in the statements *)

(** The first event of [l] whose message is [m]. *)
Definition lookupMessage (m : string) (l : list LogEvent) : option LogEvent :=
  head (filter (λ e, message e = m) l).

Definition messages (l : list LogEvent) : list string := message <$> l.

(** The loop, written as a recursion over what is left to read. *)
Fixpoint firstSeen (seen : gset string) (l : list LogEvent) : list LogEvent :=
  match l with
  | [] => []
  | log :: l' =>
      if decide (message log ∈ seen) then firstSeen seen l'
      else log :: firstSeen ({[message log]} ∪ seen) l'
  end.

Definition byTime (a b : LogEvent) : Prop := timeOf a ≤ timeOf b.

(** The entry the store operations address by [tid]: the first one whose
    [taskId] is [tid]. *)
Definition recordOf (tid : string) (st : Storage) : option HistoryItem :=
  snd <$> findIndex tid (getHistory st).

(** The task data [startParsing] hands to [saveToHistory], and a store
    holding that one running entry for task [t1]. *)
Definition taskWith (initial : list LogEvent) : TaskData :=
  {| td_taskId := "t1"; td_type := Some "parse"; td_path := Some "/data";
     td_folderName := Some "data"; td_startTime := Some 1000;
     td_status := Some "running"; td_logs := Some initial;
     td_allLogs := None; td_result := None; td_error := None |}.

Definition oneTask (initial : list LogEvent) : Storage :=
  (saveToHistory (taskWith initial) "id-1" 1000 (mkStorage Missing true)).1.

(** The order of the specification's wording: a missing timestamp is below
    every timestamp, whatever its value. *)
Definition spec_byTimestamp (a b : LogEvent) : Prop :=
  match timestamp a, timestamp b with
  | None, _ => True
  | Some _, None => False
  | Some ta, Some tb => ta ≤ tb
  end.

(** A full store: 99 finished entries and, inserted before all of them, the
    entry of task [t-old], still running. *)
Definition doneItem (n : nat) : HistoryItem :=
  {| id := "id-" +:+ pretty n; taskId := "t-" +:+ pretty n;
     task_type := "parse"; path := None; folderName := None;
     startTime := 0; status := "completed"; logs := []; allLogs := [];
     result := None; error := None; savedAt := 0; endTime := Some 1;
     duration := None; updatedAt := None |}.

Definition oldestRunning : HistoryItem :=
  {| id := "id-old"; taskId := "t-old";
     task_type := "parse"; path := None; folderName := None;
     startTime := 0; status := "running"; logs := []; allLogs := [];
     result := None; error := None; savedAt := 0; endTime := None;
     duration := None; updatedAt := None |}.

Definition fullStore : Storage :=
  mkStorage (Saved ((doneItem <$> seq 0 99) ++ [oldestRunning])) true.

Definition timedOut (ev : PollEvent) : Prop :=
  ∃ msg, fetch ev = FetchError "ECONNABORTED" msg.

Definition stillRunning (ev : PollEvent) : Prop :=
  ∃ dataLogs, fetch ev = Response dataLogs "running".

(** The number of timeouts in a sequence of poll environments. *)
Fixpoint countTimeouts (trace : list PollEvent) : nat :=
  match trace with
  | [] => 0
  | ev :: rest =>
      match fetch ev with
      | FetchError "ECONNABORTED" _ => S (countTimeouts rest)
      | _ => countTimeouts rest
      end
  end.

(** The counter of the specification's wording: the timeouts in a row at
    the end of what happened so far (a response starts the count anew). *)
Definition spec_consecutiveTimeouts (past : list PollEvent) : nat :=
  foldl (λ n ev, match fetch ev with
                 | FetchError "ECONNABORTED" _ => S n
                 | _ => 0%nat
                 end) 0%nat past.

Definition timeoutEvent (now : Z) : PollEvent :=
  mkEvent (FetchError "ECONNABORTED" "timeout of 15000ms exceeded")
    ResultError now.

Definition networkErrorEvent (now : Z) : PollEvent :=
  mkEvent (FetchError "ERR_NETWORK" "Network Error") ResultError now.

Definition runningEvent (newLogs : list LogEvent) (now : Z) : PollEvent :=
  mkEvent (Response (Some newLogs) "running") ResultError now.

Definition completedNoResultEvent (newLogs : list LogEvent) (now : Z)
  : PollEvent :=
  mkEvent (Response (Some newLogs) "completed") ResultError now.

Definition freshPoller : PollerState := mkPoller 0 [] true "".

(** Two histories that differ at most in entries of task [tid]: entry by
    entry the same [id] and [taskId], and the same entry altogether unless
    it belongs to [tid]. *)
Definition sameElsewhere (tid : string) (h h' : list HistoryItem) : Prop :=
  Forall2 (λ x y, id x = id y ∧ taskId x = taskId y
                  ∧ (taskId x ≠ tid → x = y)) h h'.

(** The operations of the store, to speak of sequences of calls. *)
Inductive StoreOp :=
  | OpSave (taskData : TaskData) (uuid : string) (now : Z)
  | OpUpdate (tid : string) (updates : Updates) (now : Z)
  | OpComplete (tid : string) (backendLogs : list LogEvent) (now : Z)
  | OpDelete (i : string)
  | OpClear.

Definition applyOp (st : Storage) (op : StoreOp) : Storage :=
  match op with
  | OpSave taskData uuid now => (saveToHistory taskData uuid now st).1
  | OpUpdate tid updates now => (updateHistoryItem tid updates now st).1
  | OpComplete tid backendLogs now =>
      (saveCompleteLogsToHistory tid backendLogs now st).1
  | OpDelete i => (deleteFromHistory i st).1
  | OpClear => clearHistory st
  end.

Definition applyOps (ops : list StoreOp) (st : Storage) : Storage :=
  foldl applyOp st ops.

(** The id a sequence of calls hands to [uuidv4], where it does. *)
Definition uuidOf (op : StoreOp) : list string :=
  match op with
  | OpSave _ uuid _ => [uuid]
  | _ => []
  end.

(** The folders of a tree, parents before children, in the order of the
    arrays. *)
Fixpoint flattenFolder (folder : Folder) : list Folder :=
  folder :: flat_map flattenFolder (subfolders folder).

Definition flattenFolders (folders : list Folder) : list Folder :=
  flat_map flattenFolder folders.

(** Induction over a folder with its subfolders. *)
Fixpoint Folder_nested_ind (P : Folder → Prop)
    (step : ∀ folder, Forall P (subfolders folder) → P folder)
    (folder : Folder) : P folder :=
  step folder
    ((fix all (l : list Folder) : Forall P l :=
        match l with
        | [] => @List.Forall_nil Folder P
        | x :: l' =>
            @List.Forall_cons Folder P x l' (Folder_nested_ind P step x)
              (all l')
        end) (subfolders folder)).

(** Whether a text holds one of the separators. *)
Fixpoint hasSeparator (s : string) : bool :=
  match s with
  | EmptyString => false
  | String c s' => isSeparator c || hasSeparator s'
  end.

Definition otherTask : TaskData :=
  {| td_taskId := "t2"; td_type := None; td_path := None;
     td_folderName := None; td_startTime := None; td_status := None;
     td_logs := None; td_allLogs := None; td_result := None;
     td_error := None |}.

(** An entry later in its life: the same entry as to what identifies it,
    with every message it held still in its logs. *)
Definition keepsRecord (item item' : HistoryItem) : Prop :=
  id item' = id item ∧ taskId item' = taskId item
  ∧ task_type item' = task_type item ∧ path item' = path item
  ∧ folderName item' = folderName item ∧ startTime item' = startTime item
  ∧ savedAt item' = savedAt item
  ∧ (∀ m, m ∈ messages (logs item) → m ∈ messages (logs item')).

(** What holds between the screen and the entry: every message shown is in
    the entry. *)
Definition shownInRecord (p : PollerState) (item : HistoryItem) : Prop :=
  ∀ m, m ∈ messages (stateLogs p) → m ∈ messages (logs item).

Definition completedEvent (newLogs : list LogEvent) (finalResult : Result)
    (now : Z) : PollEvent :=
  mkEvent (Response (Some newLogs) "completed") (ResultResponse finalResult)
    now.

Definition somePage (shown : list LogEvent) : Page :=
  mkPage "/data/in" [] None None None (mkPoller 0 shown false "").

Definition sampleTree : list Folder :=
  [mkFolder "docs" "/docs" 0
     [mkFolder "empty" "/docs/empty" 0 [];
      mkFolder "2024" "/docs/2024" 3 []];
   mkFolder "inbox" "/inbox" 7 []].

Definition emptyPage : Page := mkPage "" [] None None None freshPoller.

(** * Properties *)

(** ** The deduplication loop *)

Lemma foldl_dedupStep (l : list LogEvent) :
  ∀ seen uniqueLogs,
    (foldl dedupStep (seen, uniqueLogs) l).2 = uniqueLogs ++ firstSeen seen l.
Proof.
  induction l as [|log l IH]; intros seen uniqueLogs; simpl.
  - by rewrite app_nil_r.
  - destruct (decide (message log ∈ seen)) as [Hin|Hnin]; rewrite IH.
    + done.
    + by rewrite <- app_assoc.
Qed.

Lemma dedupByMessage_firstSeen (l : list LogEvent) :
  dedupByMessage l = firstSeen ∅ l.
Proof. unfold dedupByMessage. by rewrite foldl_dedupStep. Qed.

Lemma firstSeen_messages (l : list LogEvent) :
  ∀ seen m, m ∈ messages (firstSeen seen l) ↔ m ∈ messages l ∧ m ∉ seen.
Proof.
  unfold messages.
  induction l as [|log l IH]; intros seen m; simpl.
  - set_solver.
  - destruct (decide (message log ∈ seen)) as [Hin|Hnin].
    + rewrite IH. clear IH. set_solver.
    + rewrite fmap_cons, !elem_of_cons, IH. clear IH.
      rewrite not_elem_of_union, not_elem_of_singleton.
      split.
      * intros [->|[Hm [Hne Hs]]]; [by split; [left|]|by split; [right|]].
      * intros [[->|Hm] Hs]; [by left|].
        destruct (decide (m = message log)) as [->|Hne]; [by left|by right].
Qed.

Lemma firstSeen_NoDup (l : list LogEvent) :
  ∀ seen, NoDup (messages (firstSeen seen l)).
Proof.
  induction l as [|log l IH]; intros seen; simpl.
  - constructor.
  - destruct (decide (message log ∈ seen)) as [Hin|Hnin]; [apply IH|].
    unfold messages. rewrite fmap_cons. constructor; [|apply IH].
    intros Hm. apply firstSeen_messages in Hm. set_solver.
Qed.

Lemma firstSeen_lookup (l : list LogEvent) :
  ∀ seen m, m ∉ seen →
    lookupMessage m (firstSeen seen l) = lookupMessage m l.
Proof.
  unfold lookupMessage.
  induction l as [|log l IH]; intros seen m Hm; simpl; [done|].
  destruct (decide (message log ∈ seen)) as [Hin|Hnin].
  - rewrite filter_cons_False by (intros Heq; apply Hm; by rewrite <- Heq).
    by apply IH.
  - destruct (decide (message log = m)) as [Heq|Hne].
    + by rewrite !filter_cons_True.
    + rewrite !filter_cons_False by done. apply IH. set_solver.
Qed.

Lemma firstSeen_covered (l : list LogEvent) :
  ∀ seen, (∀ m, m ∈ messages l → m ∈ seen) → firstSeen seen l = [].
Proof.
  unfold messages.
  induction l as [|log l IH]; intros seen Hcov; simpl; [done|].
  rewrite decide_True by (apply Hcov; set_solver).
  apply IH. intros m Hm. apply Hcov. set_solver.
Qed.

Lemma firstSeen_app (l1 l2 : list LogEvent) :
  ∀ seen,
    firstSeen seen (l1 ++ l2)
    = firstSeen seen l1 ++ firstSeen (list_to_set (messages l1) ∪ seen) l2.
Proof.
  unfold messages.
  induction l1 as [|log l1 IH]; intros seen; simpl.
  - f_equal. set_solver.
  - destruct (decide (message log ∈ seen)) as [Hin|Hnin]; rewrite IH.
    + f_equal. f_equal. set_solver.
    + simpl. f_equal. f_equal. f_equal. set_solver.
Qed.

Lemma firstSeen_twice (l : list LogEvent) (seen : gset string) :
  firstSeen seen (l ++ l) = firstSeen seen l.
Proof.
  rewrite firstSeen_app,
    (firstSeen_covered l (list_to_set (messages l) ∪ seen)).
  - apply app_nil_r.
  - intros m Hm. set_solver.
Qed.

Lemma firstSeen_NoDup_id (l : list LogEvent) :
  ∀ seen, NoDup (messages l) → (∀ m, m ∈ messages l → m ∉ seen) →
    firstSeen seen l = l.
Proof.
  unfold messages.
  induction l as [|log l IH]; intros seen Hnd Hfresh; simpl; [done|].
  cbn in Hnd. apply NoDup_cons in Hnd as [Hnotin Hnd].
  rewrite decide_False by (apply Hfresh; set_solver).
  f_equal. apply IH; [done|].
  intros m Hm. specialize (Hfresh m). set_solver.
Qed.

(** ** The sort *)

Lemma insertByTime_perm (a : LogEvent) (l : list LogEvent) :
  insertByTime a l ≡ₚ a :: l.
Proof.
  induction l as [|b l IH]; simpl; [done|].
  destruct (decide (timeOf a - timeOf b ≤ 0)); [done|].
  rewrite IH. apply Permutation_swap.
Qed.

Lemma sortByTime_perm (l : list LogEvent) : sortByTime l ≡ₚ l.
Proof.
  induction l as [|a l IH]; simpl; [done|].
  rewrite insertByTime_perm. by constructor.
Qed.

Lemma insertByTime_sorted (a : LogEvent) (l : list LogEvent) :
  StronglySorted byTime l → StronglySorted byTime (insertByTime a l).
Proof.
  induction 1 as [|b l Hs IH Hall]; simpl.
  - repeat constructor.
  - destruct (decide (timeOf a - timeOf b ≤ 0)) as [Hle|Hgt].
    + constructor; [by constructor|].
      constructor; [unfold byTime; lia|].
      eapply Forall_impl; [exact Hall|]. unfold byTime. intros c Hc. lia.
    + constructor; [done|].
      rewrite insertByTime_perm. constructor; [unfold byTime; lia|done].
Qed.

Lemma sortByTime_sorted (l : list LogEvent) :
  StronglySorted byTime (sortByTime l).
Proof.
  induction l as [|a l IH]; simpl; [constructor|].
  by apply insertByTime_sorted.
Qed.

(** A sequence that is already in order is left as it is. *)
Lemma sortByTime_id (l : list LogEvent) :
  StronglySorted byTime l → sortByTime l = l.
Proof.
  induction 1 as [|a l Hs IH Hall]; simpl; [done|].
  rewrite IH. destruct l as [|b l]; simpl; [done|].
  apply Forall_cons in Hall as [Hab _].
  rewrite decide_True; [done|]. unfold byTime in Hab. lia.
Qed.

(** ** Looking a message up in a duplicate-free sequence *)

Lemma filter_message_short (m : string) (l : list LogEvent) :
  NoDup (messages l) → (length (filter (λ e, message e = m) l) ≤ 1)%nat.
Proof.
  unfold messages.
  induction l as [|a l IH]; simpl; intros Hnd; [lia|].
  cbn in Hnd. apply NoDup_cons in Hnd as [Hnotin Hnd].
  destruct (decide (message a = m)) as [Heq|Hne].
  - rewrite filter_cons_True by done. simpl.
    assert (filter (λ e, message e = m) l = []) as ->; [|simpl; lia].
    destruct (filter (λ e, message e = m) l) as [|e f] eqn:E; [done|].
    assert (e ∈ filter (λ e, message e = m) l) as He
      by (rewrite E; apply list_elem_of_here).
    apply list_elem_of_filter in He as [Hm He].
    destruct Hnotin. rewrite Heq, <- Hm. by apply list_elem_of_fmap_2.
  - rewrite filter_cons_False by done. by apply IH.
Qed.

Lemma lookupMessage_perm (m : string) (l1 l2 : list LogEvent) :
  NoDup (messages l1) → l1 ≡ₚ l2 → lookupMessage m l1 = lookupMessage m l2.
Proof.
  intros Hnd Hperm. unfold lookupMessage.
  assert (filter (λ e, message e = m) l1 ≡ₚ filter (λ e, message e = m) l2)
    as Hf by (by rewrite Hperm).
  pose proof (filter_message_short m l1 Hnd) as Hlen.
  destruct (filter (λ e, message e = m) l1) as [|a [|b f1]] eqn:E1.
  - apply Permutation_nil_l in Hf. by rewrite Hf.
  - apply Permutation_singleton_l in Hf. by rewrite Hf.
  - simpl in Hlen. lia.
Qed.

(** ** What [mergeLogs] returns *)

Lemma mergeLogs_perm (backendLogs existingLogs : list LogEvent) :
  mergeLogs backendLogs existingLogs
  ≡ₚ firstSeen ∅ (backendLogs ++ existingLogs).
Proof.
  unfold mergeLogs. rewrite dedupByMessage_firstSeen. apply sortByTime_perm.
Qed.

Lemma mergeLogs_NoDup (backendLogs existingLogs : list LogEvent) :
  NoDup (messages (mergeLogs backendLogs existingLogs)).
Proof.
  unfold messages. rewrite mergeLogs_perm. apply firstSeen_NoDup.
Qed.

Lemma mergeLogs_lookup (m : string) (backendLogs existingLogs : list LogEvent) :
  lookupMessage m (mergeLogs backendLogs existingLogs)
  = lookupMessage m (backendLogs ++ existingLogs).
Proof.
  rewrite <- (firstSeen_lookup (backendLogs ++ existingLogs) ∅ m)
    by set_solver.
  symmetry. apply lookupMessage_perm; [apply firstSeen_NoDup|].
  symmetry. apply mergeLogs_perm.
Qed.

Lemma mergeLogs_sorted (backendLogs existingLogs : list LogEvent) :
  StronglySorted byTime (mergeLogs backendLogs existingLogs).
Proof. apply sortByTime_sorted. Qed.

(** ** The store: entries and what each operation does to them *)

Lemma findIndex_replace (tid : string) (history : list HistoryItem)
    (i : nat) (item item' : HistoryItem) :
  findIndex tid history = Some (i, item) → taskId item' = taskId item →
  findIndex tid (<[i := item']> history) = Some (i, item').
Proof.
  unfold findIndex. intros Hfind Htid.
  apply list_find_Some in Hfind as (Hi & Hp & Hleast).
  apply list_find_Some. split_and!.
  - apply list_lookup_insert_eq. by eapply lookup_lt_Some.
  - by rewrite Htid.
  - intros j y Hj Hlt. apply (Hleast j); [|done].
    by rewrite list_lookup_insert_ne in Hj by lia.
Qed.

Lemma recordOf_Some (tid : string) (st : Storage) (item : HistoryItem) :
  recordOf tid st = Some item →
  ∃ history i, readHistory st = Some history
               ∧ findIndex tid history = Some (i, item).
Proof.
  unfold recordOf, getHistory. intros H.
  destruct (readHistory st) as [history|]; [|done].
  destruct (findIndex tid history) as [[i x]|] eqn:E; [|done].
  simpl in H. injection H as ->. by exists history, i.
Qed.

Lemma recordOf_taskId (tid : string) (st : Storage) (item : HistoryItem) :
  recordOf tid st = Some item → taskId item = tid.
Proof.
  intros (history & i & _ & Hf)%recordOf_Some.
  by apply list_find_Some in Hf as (_ & Hp & _).
Qed.

(** An update of an entry that is there, in a store that takes writes. *)
Lemma updateHistoryItem_found (tid : string) (updates : Updates) (now : Z)
    (st : Storage) (item : HistoryItem) :
  recordOf tid st = Some item → writable st = true →
  ∃ st', updateHistoryItem tid updates now st = (st', true)
         ∧ writable st' = true
         ∧ recordOf tid st'
           = Some (spread item (mergeUpdateLogs item updates) now).
Proof.
  intros (history & i & Hread & Hfind)%recordOf_Some Hw.
  unfold updateHistoryItem, setItem. rewrite Hread. simpl.
  rewrite Hfind, Hw. simpl. eexists. split_and!; [done..|].
  unfold recordOf, getHistory, readHistory. simpl.
  by erewrite findIndex_replace.
Qed.

(** A call that returns [true] found the entry and stored the update. *)
Lemma updateHistoryItem_true (tid : string) (updates : Updates) (now : Z)
    (st st' : Storage) :
  updateHistoryItem tid updates now st = (st', true) →
  ∃ item, recordOf tid st = Some item ∧ writable st = true
          ∧ recordOf tid st'
            = Some (spread item (mergeUpdateLogs item updates) now).
Proof.
  intros Hup.
  assert (∃ item, recordOf tid st = Some item ∧ writable st = true)
    as (item & Hrec & Hw).
  { unfold updateHistoryItem, setItem, recordOf, getHistory in *.
    destruct (readHistory st) as [history|]; simpl in *; [|done].
    destruct (findIndex tid history) as [[i item]|]; simpl in *; [|done].
    destruct (writable st); simpl in *; [|done]. by exists item. }
  destruct (updateHistoryItem_found tid updates now st item Hrec Hw)
    as (st'' & Heq & _ & Hrec').
  rewrite Heq in Hup. injection Hup as <-. by exists item.
Qed.

Lemma saveCompleteLogsToHistory_found (tid : string)
    (backendLogs : list LogEvent) (now : Z) (st : Storage)
    (item : HistoryItem) :
  recordOf tid st = Some item → writable st = true →
  ∃ st', saveCompleteLogsToHistory tid backendLogs now st = (st', true)
         ∧ writable st' = true
         ∧ recordOf tid st'
           = Some (withCompleteLogs item
                     (mergeLogs backendLogs (logs item)) backendLogs now).
Proof.
  intros (history & i & Hread & Hfind)%recordOf_Some Hw.
  unfold saveCompleteLogsToHistory, setItem. rewrite Hread. simpl.
  rewrite Hfind, Hw. simpl. eexists. split_and!; [done..|].
  unfold recordOf, getHistory, readHistory. simpl.
  by erewrite findIndex_replace.
Qed.

Lemma saveCompleteLogsToHistory_true (tid : string)
    (backendLogs : list LogEvent) (now : Z) (st st' : Storage) :
  saveCompleteLogsToHistory tid backendLogs now st = (st', true) →
  ∃ item, recordOf tid st = Some item ∧ writable st = true
          ∧ recordOf tid st'
            = Some (withCompleteLogs item
                      (mergeLogs backendLogs (logs item)) backendLogs now).
Proof.
  intros Hup.
  assert (∃ item, recordOf tid st = Some item ∧ writable st = true)
    as (item & Hrec & Hw).
  { unfold saveCompleteLogsToHistory, setItem, recordOf, getHistory in *.
    destruct (readHistory st) as [history|]; simpl in *; [|done].
    destruct (findIndex tid history) as [[i item]|]; simpl in *; [|done].
    destruct (writable st); simpl in *; [|done]. by exists item. }
  destruct (saveCompleteLogsToHistory_found tid backendLogs now st item
              Hrec Hw) as (st'' & Heq & _ & Hrec').
  rewrite Heq in Hup. injection Hup as <-. by exists item.
Qed.

(** An insert that returns an id stored the capped array. *)
Lemma saveToHistory_Some (taskData : TaskData) (uuid : string) (now : Z)
    (st st' : Storage) (i : string) :
  saveToHistory taskData uuid now st = (st', Some i) →
  ∃ existingHistory,
    readHistory st = Some existingHistory ∧ i = uuid
    ∧ getHistory st'
      = capHistory (historyItem taskData uuid now :: existingHistory).
Proof.
  unfold saveToHistory, setItem. intros Hsave.
  destruct (readHistory st) as [existingHistory|]; simpl in *; [|done].
  destruct (writable st); simpl in *; [|done].
  injection Hsave as <- <-. by exists existingHistory.
Qed.

(** A failed call leaves the store as it was. *)
Lemma saveToHistory_None (taskData : TaskData) (uuid : string) (now : Z)
    (st st' : Storage) :
  saveToHistory taskData uuid now st = (st', None) → st' = st.
Proof.
  unfold saveToHistory, setItem. intros Hsave.
  destruct (readHistory st) as [existingHistory|]; simpl in *;
    [|by injection Hsave].
  destruct (writable st); simpl in *; [done|by injection Hsave].
Qed.

Lemma capHistory_length (h : list HistoryItem) :
  (length (capHistory h) ≤ MAX_HISTORY_ITEMS)%nat.
Proof.
  unfold capHistory. case_decide; [|lia].
  rewrite length_take. lia.
Qed.

Lemma capHistory_take (h : list HistoryItem) :
  capHistory h = take MAX_HISTORY_ITEMS h.
Proof.
  unfold capHistory. case_decide; [done|].
  symmetry. apply take_ge. lia.
Qed.

Lemma lookupMessage_app (m : string) (l1 l2 : list LogEvent) :
  lookupMessage m (l1 ++ l2)
  = match lookupMessage m l1 with
    | Some e => Some e
    | None => lookupMessage m l2
    end.
Proof. unfold lookupMessage. by rewrite filter_app, head_app. Qed.

Lemma lookupMessage_Some (m : string) (l : list LogEvent) (e : LogEvent) :
  lookupMessage m l = Some e → e ∈ l ∧ message e = m.
Proof.
  unfold lookupMessage. intros Hh.
  assert (e ∈ filter (λ e, message e = m) l) as He.
  { destruct (filter (λ e, message e = m) l); simplify_eq/=.
    apply list_elem_of_here. }
  apply list_elem_of_filter in He. tauto.
Qed.

(** The messages an update with a non-empty payload leaves in an entry. *)
Lemma update_logs_nonempty (item : HistoryItem) (updates : Updates)
    (ls : list LogEvent) (now : Z) :
  u_logs updates = Some ls → ls ≠ [] →
  logs (spread item (mergeUpdateLogs item updates) now)
  = logs item
    ++ filter (λ l, message l ∉ (list_to_set (messages (logs item))
                                  : gset string)) ls.
Proof.
  intros Hls Hne. unfold mergeUpdateLogs. rewrite Hls.
  rewrite decide_True by (destruct ls; [done|simpl; lia]). done.
Qed.

(** ** Claims about the reconciliation in [saveCompleteLogsToHistory] *)

(** C8.  The merge is idempotent.  With [E] as the only input (on either
    side) or as both inputs the merge returns the same sequence; that
    sequence holds exactly the messages of [E], each with the fields of its
    first occurrence in [E]; and merging the result once more changes
    nothing. *)
Theorem C8_merge_idempotent (E : list LogEvent) :
  mergeLogs E E = mergeLogs [] E
  ∧ mergeLogs E E = mergeLogs E []
  ∧ (∀ m, m ∈ messages (mergeLogs E E) ↔ m ∈ messages E)
  ∧ (∀ m, lookupMessage m (mergeLogs E E) = lookupMessage m E)
  ∧ mergeLogs [] (mergeLogs [] E) = mergeLogs [] E.
Proof.
  assert (mergeLogs E E = mergeLogs [] E) as Hl.
  { unfold mergeLogs. rewrite !dedupByMessage_firstSeen.
    by rewrite firstSeen_twice. }
  split_and!.
  - done.
  - rewrite Hl. unfold mergeLogs. by rewrite app_nil_r.
  - intros m. unfold messages. rewrite mergeLogs_perm.
    fold (messages (firstSeen ∅ (E ++ E))).
    rewrite firstSeen_twice, firstSeen_messages. set_solver.
  - intros m. rewrite mergeLogs_lookup, lookupMessage_app.
    by destruct (lookupMessage m E).
  - unfold mergeLogs at 1. simpl. rewrite dedupByMessage_firstSeen.
    rewrite firstSeen_NoDup_id.
    + apply sortByTime_id, mergeLogs_sorted.
    + apply mergeLogs_NoDup.
    + set_solver.
Qed.

(** C1, as the code has it.  The final reconciliation puts the backend's
    dump first and the entry's own events after it, keeps the first event
    of every message in that order and sorts by time: for every message
    the stored event is the first one carrying it in [backendLogs ++
    existing], so a dump event wins over a same-message event of the
    entry. *)
Theorem C1_dump_first (tid : string) (backendLogs : list LogEvent) (now : Z)
    (st st' : Storage) :
  saveCompleteLogsToHistory tid backendLogs now st = (st', true) →
  ∃ item item',
    recordOf tid st = Some item ∧ recordOf tid st' = Some item'
    ∧ logs item' = sortByTime (dedupByMessage (backendLogs ++ logs item))
    ∧ NoDup (messages (logs item'))
    ∧ (∀ m, lookupMessage m (logs item')
            = lookupMessage m (backendLogs ++ logs item))
    ∧ (∀ m e, lookupMessage m backendLogs = Some e →
              lookupMessage m (logs item') = Some e).
Proof.
  intros (item & Hrec & _ & Hrec')%saveCompleteLogsToHistory_true.
  eexists item, _. split_and!; [done|done|done|..]; simpl.
  - apply mergeLogs_NoDup.
  - intros m. apply mergeLogs_lookup.
  - intros m e He. by rewrite mergeLogs_lookup, lookupMessage_app, He.
Qed.

Lemma C1_dump_first_witness :
  ∃ item item',
    recordOf "t1" (oneTask [mkLog "a" "info" None]) = Some item
    ∧ recordOf "t1"
        (saveCompleteLogsToHistory "t1" [mkLog "a" "error" None] 2000
           (oneTask [mkLog "a" "info" None])).1 = Some item'
    ∧ logs item'
      = sortByTime (dedupByMessage ([mkLog "a" "error" None] ++ logs item))
    ∧ NoDup (messages (logs item'))
    ∧ (∀ m, lookupMessage m (logs item')
            = lookupMessage m ([mkLog "a" "error" None] ++ logs item))
    ∧ (∀ m e, lookupMessage m [mkLog "a" "error" None] = Some e →
              lookupMessage m (logs item') = Some e).
Proof.
  apply (C1_dump_first "t1" [mkLog "a" "error" None] 2000
           (oneTask [mkLog "a" "info" None])).
  vm_compute. reflexivity.
Defined.

(** C1, as stated, fails on its own example: the entry holds
    [{message:"a", type:"info"}], the dump brings
    [{message:"a", type:"error"}], and the one event kept is the dump's. *)
Lemma C1_counterexample :
  let existing := [mkLog "a" "info" None] in
  let incoming := [mkLog "a" "error" None] in
  mergeLogs incoming existing = [mkLog "a" "error" None]
  ∧ (logs <$> recordOf "t1"
       (saveCompleteLogsToHistory "t1" incoming 2000 (oneTask existing)).1)
    = Some [mkLog "a" "error" None]
  ∧ ¬ (type <$> mergeLogs incoming existing) = ["info"].
Proof. vm_compute. split_and!; [done|done|]. intros H. discriminate H. Qed.

(** C2, as the code has it.  After the final reconciliation the entry's
    logs are in ascending order of time, an event without a timestamp
    counting as time 0 (the epoch).  An update does not sort: with a
    non-empty payload it keeps the entry's events in place and appends the
    incoming events whose message is new, in the order of the payload. *)
Theorem C2_sorted_after_final_merge :
  (∀ tid backendLogs now st st',
     saveCompleteLogsToHistory tid backendLogs now st = (st', true) →
     ∃ item', recordOf tid st' = Some item'
              ∧ StronglySorted byTime (logs item'))
  ∧ (∀ tid updates ls now st st',
       updateHistoryItem tid updates now st = (st', true) →
       u_logs updates = Some ls → ls ≠ [] →
       ∃ item item',
         recordOf tid st = Some item ∧ recordOf tid st' = Some item'
         ∧ logs item'
           = logs item
             ++ filter (λ l, message l ∉ (list_to_set (messages (logs item))
                                           : gset string)) ls).
Proof.
  split.
  - intros tid backendLogs now st st'
      (item & _ & _ & Hrec')%saveCompleteLogsToHistory_true.
    eexists. split; [done|]. apply mergeLogs_sorted.
  - intros tid updates ls now st st'
      (item & Hrec & _ & Hrec')%updateHistoryItem_true Hls Hne.
    eexists item, _. split_and!; [done|done|].
    by apply update_logs_nonempty.
Qed.

Lemma C2_sorted_after_final_merge_witness :
  (∃ item',
     recordOf "t1"
       (saveCompleteLogsToHistory "t1"
          [mkLog "b" "info" (Some 20); mkLog "a" "info" (Some 10)] 2000
          (oneTask [mkLog "c" "info" None])).1 = Some item'
     ∧ StronglySorted byTime (logs item'))
  ∧ (∃ item item',
       recordOf "t1" (oneTask [mkLog "x" "info" (Some 5)]) = Some item
       ∧ recordOf "t1"
           (updateHistoryItem "t1"
              (with_logs noUpdates [mkLog "y" "info" (Some 1)]) 2000
              (oneTask [mkLog "x" "info" (Some 5)])).1 = Some item'
       ∧ logs item'
         = logs item
           ++ filter (λ l, message l ∉ (list_to_set (messages (logs item))
                                         : gset string))
                [mkLog "y" "info" (Some 1)]).
Proof.
  split.
  - apply (proj1 C2_sorted_after_final_merge "t1"
             [mkLog "b" "info" (Some 20); mkLog "a" "info" (Some 10)] 2000
             (oneTask [mkLog "c" "info" None])).
    vm_compute. reflexivity.
  - apply (proj2 C2_sorted_after_final_merge "t1"
             (with_logs noUpdates [mkLog "y" "info" (Some 1)])
             [mkLog "y" "info" (Some 1)] 2000
             (oneTask [mkLog "x" "info" (Some 5)])).
    + vm_compute. reflexivity.
    + reflexivity.
    + discriminate.
Defined.

(** C2, as stated, fails twice.  An update leaves the entry's logs out of
    order (an event of time 1 after one of time 5); and the final
    reconciliation puts an event without timestamp after an event dated
    before the epoch. *)
Lemma C2_counterexample :
  (logs <$> recordOf "t1"
     (updateHistoryItem "t1"
        (with_logs noUpdates [mkLog "y" "info" (Some 1)]) 2000
        (oneTask [mkLog "x" "info" (Some 5)])).1)
  = Some [mkLog "x" "info" (Some 5); mkLog "y" "info" (Some 1)]
  ∧ ¬ StronglySorted spec_byTimestamp
        [mkLog "x" "info" (Some 5); mkLog "y" "info" (Some 1)]
  ∧ (logs <$> recordOf "t1"
       (saveCompleteLogsToHistory "t1" [mkLog "y" "info" None] 2000
          (oneTask [mkLog "x" "info" (Some (-5))])).1)
    = Some [mkLog "x" "info" (Some (-5)); mkLog "y" "info" None]
  ∧ ¬ StronglySorted spec_byTimestamp
        [mkLog "x" "info" (Some (-5)); mkLog "y" "info" None].
Proof.
  split_and!.
  - vm_compute. reflexivity.
  - intros Hs. apply StronglySorted_inv in Hs as [_ Hall].
    apply Forall_cons in Hall as [Hxy _].
    unfold spec_byTimestamp in Hxy. simpl in Hxy. lia.
  - vm_compute. reflexivity.
  - intros Hs. apply StronglySorted_inv in Hs as [_ Hall].
    apply Forall_cons in Hall as [Hxy _]. exact Hxy.
Qed.

(** ** Claims about the entries of the store *)

Lemma update_logs_NoDup (item : HistoryItem) (updates : Updates) (now : Z) :
  NoDup (messages (logs item)) →
  (∀ ls, u_logs updates = Some ls → NoDup (messages ls)) →
  NoDup (messages (logs (spread item (mergeUpdateLogs item updates) now))).
Proof.
  intros Hold Hnew. unfold mergeUpdateLogs.
  destruct (u_logs updates) as [ls|] eqn:Hls; simpl; [|by rewrite Hls].
  specialize (Hnew ls eq_refl).
  case_decide; simpl; [|by rewrite Hls].
  unfold messages in *. rewrite fmap_app. apply NoDup_app. split_and!.
  - done.
  - intros m Hm (e & -> & He)%list_elem_of_fmap.
    apply list_elem_of_filter in He as [Hfresh _].
    apply Hfresh. by apply elem_of_list_to_set.
  - eapply sublist_NoDup; [exact Hnew|].
    apply fmap_sublist, sublist_filter.
Qed.

(** C3, as the code has it.  An insert stores the initial logs as they are
    given.  An update never adds an event whose message the entry already
    holds: when the entry's logs and the incoming batch are each free of
    repeated messages, so are the logs after the update.  The final
    reconciliation always leaves logs free of repeated messages. *)
Theorem C3_no_duplicate_messages :
  (∀ taskData uuid now st st' i,
     saveToHistory taskData uuid now st = (st', Some i) →
     ∃ item rest, getHistory st' = item :: rest
                  ∧ logs item = default [] (td_logs taskData))
  ∧ (∀ tid updates now st st',
       updateHistoryItem tid updates now st = (st', true) →
       ∃ item item',
         recordOf tid st = Some item ∧ recordOf tid st' = Some item'
         ∧ (NoDup (messages (logs item)) →
            (∀ ls, u_logs updates = Some ls → NoDup (messages ls)) →
            NoDup (messages (logs item'))))
  ∧ (∀ tid backendLogs now st st',
       saveCompleteLogsToHistory tid backendLogs now st = (st', true) →
       ∃ item', recordOf tid st' = Some item'
                ∧ NoDup (messages (logs item'))).
Proof.
  split_and!.
  - intros taskData uuid now st st' i
      (existing & _ & _ & Hh)%saveToHistory_Some.
    rewrite capHistory_take in Hh. simpl in Hh. by eexists _, _.
  - intros tid updates now st st'
      (item & Hrec & _ & Hrec')%updateHistoryItem_true.
    eexists item, _. split_and!; [done|done|]. apply update_logs_NoDup.
  - intros tid backendLogs now st st'
      (item & _ & _ & Hrec')%saveCompleteLogsToHistory_true.
    eexists. split; [done|]. apply mergeLogs_NoDup.
Qed.

Lemma C3_no_duplicate_messages_witness :
  (∃ item rest,
     getHistory (saveToHistory (taskWith [mkLog "a" "info" None]) "id-1" 1000
                   (mkStorage Missing true)).1 = item :: rest
     ∧ logs item = default [] (td_logs (taskWith [mkLog "a" "info" None])))
  ∧ (∃ item item',
       recordOf "t1" (oneTask [mkLog "a" "info" None]) = Some item
       ∧ recordOf "t1"
           (updateHistoryItem "t1"
              (with_logs noUpdates
                 [mkLog "a" "error" None; mkLog "b" "info" None]) 2000
              (oneTask [mkLog "a" "info" None])).1 = Some item'
       ∧ NoDup (messages (logs item')))
  ∧ (∃ item',
       recordOf "t1"
         (saveCompleteLogsToHistory "t1"
            [mkLog "a" "error" None; mkLog "a" "info" None] 2000
            (oneTask [mkLog "a" "info" None])).1 = Some item'
       ∧ NoDup (messages (logs item'))).
Proof.
  destruct C3_no_duplicate_messages as (Hinsert & Hupdate & Hfinal).
  split_and!.
  - apply (Hinsert (taskWith [mkLog "a" "info" None]) "id-1" 1000
             (mkStorage Missing true) _ "id-1").
    vm_compute. reflexivity.
  - destruct (Hupdate "t1"
                (with_logs noUpdates
                   [mkLog "a" "error" None; mkLog "b" "info" None]) 2000
                (oneTask [mkLog "a" "info" None]) _ eq_refl)
      as (item & item' & Hrec & Hrec' & Hnd).
    exists item, item'. split_and!; [done|done|]. apply Hnd.
    + vm_compute in Hrec. injection Hrec as <-. vm_compute.
      apply NoDup_singleton.
    + intros ls Hls. vm_compute in Hls. injection Hls as <-. vm_compute.
      apply NoDup_cons. split; [|apply NoDup_singleton].
      intros Hin. apply list_elem_of_singleton in Hin. discriminate Hin.
  - apply (Hfinal "t1" [mkLog "a" "error" None; mkLog "a" "info" None] 2000
             (oneTask [mkLog "a" "info" None])).
    vm_compute. reflexivity.
Defined.

(** C3, as stated, fails: an insert whose initial logs repeat a message
    stores both events, and so does an update whose batch repeats a message
    the entry does not hold yet. *)
Lemma C3_counterexample :
  (logs <$> recordOf "t1"
     (oneTask [mkLog "a" "info" None; mkLog "a" "error" None]))
  = Some [mkLog "a" "info" None; mkLog "a" "error" None]
  ∧ (logs <$> recordOf "t1"
       (updateHistoryItem "t1"
          (with_logs noUpdates [mkLog "b" "info" None; mkLog "b" "info" None])
          2000 (oneTask [mkLog "a" "info" None])).1)
    = Some [mkLog "a" "info" None; mkLog "b" "info" None;
            mkLog "b" "info" None]
  ∧ ¬ NoDup (messages [mkLog "a" "info" None; mkLog "a" "error" None])
  ∧ ¬ NoDup (messages [mkLog "a" "info" None; mkLog "b" "info" None;
                       mkLog "b" "info" None]).
Proof.
  split_and!.
  - vm_compute. reflexivity.
  - vm_compute. reflexivity.
  - intros Hnd. apply NoDup_cons in Hnd as [Hnotin _].
    apply Hnotin. apply list_elem_of_here.
  - intros Hnd. apply NoDup_cons in Hnd as [_ Hnd].
    apply NoDup_cons in Hnd as [Hnotin _].
    apply Hnotin. apply list_elem_of_here.
Qed.

(** C4, as the code has it.  After an insert that succeeded the store holds
    the new entry followed by the previous ones, cut to the first 100; an
    insert, successful or not, never takes the store from at most 100
    entries to more.  Inserting into a store of exactly 100 entries leaves
    exactly 100: the new one and the previous ones without the last (the
    oldest inserted), whatever the status of that last entry. *)
Theorem C4_capacity_eviction (taskData : TaskData) (uuid : string) (now : Z)
    (st st' : Storage) (r : option string) :
  saveToHistory taskData uuid now st = (st', r) →
  (is_Some r →
   getHistory st'
   = take MAX_HISTORY_ITEMS (historyItem taskData uuid now :: getHistory st)
   ∧ (length (getHistory st') ≤ 100)%nat)
  ∧ ((length (getHistory st) ≤ 100)%nat → (length (getHistory st') ≤ 100)%nat)
  ∧ (is_Some r →
     ∀ front oldest,
       getHistory st = front ++ [oldest] → length front = 99%nat →
       getHistory st' = historyItem taskData uuid now :: front
       ∧ length (getHistory st') = 100%nat).
Proof.
  intros Hsave.
  assert (is_Some r →
          getHistory st'
          = take MAX_HISTORY_ITEMS
              (historyItem taskData uuid now :: getHistory st)) as Htake.
  { intros [i ->].
    apply saveToHistory_Some in Hsave as (existing & Hread & _ & Hh).
    rewrite Hh, capHistory_take. unfold getHistory. by rewrite Hread. }
  split_and!.
  - intros Hr. split; [by apply Htake|].
    rewrite (Htake Hr), length_take. unfold MAX_HISTORY_ITEMS. lia.
  - intros Hlen. destruct r as [i|].
    + rewrite Htake by done. rewrite length_take.
      unfold MAX_HISTORY_ITEMS. lia.
    + apply saveToHistory_None in Hsave as ->. done.
  - intros Hr front oldest Hh Hfront. rewrite (Htake Hr), Hh.
    assert (take MAX_HISTORY_ITEMS
              (historyItem taskData uuid now :: front ++ [oldest])
            = historyItem taskData uuid now :: front) as ->.
    { change (historyItem taskData uuid now :: front ++ [oldest])
        with ((historyItem taskData uuid now :: front) ++ [oldest]).
      apply take_app_length'. simpl. unfold MAX_HISTORY_ITEMS. lia. }
    split; [done|]. simpl. lia.
Qed.

Lemma C4_capacity_eviction_witness :
  let st' := (saveToHistory (taskWith []) "id-new" 5000 fullStore).1 in
  getHistory st'
  = take MAX_HISTORY_ITEMS
      (historyItem (taskWith []) "id-new" 5000 :: getHistory fullStore)
  ∧ (length (getHistory st') ≤ 100)%nat
  ∧ getHistory st'
    = historyItem (taskWith []) "id-new" 5000 :: (doneItem <$> seq 0 99)
  ∧ length (getHistory st') = 100%nat.
Proof.
  destruct (C4_capacity_eviction (taskWith []) "id-new" 5000 fullStore
              (saveToHistory (taskWith []) "id-new" 5000 fullStore).1
              (Some "id-new"))
    as (Hcut & Hinv & Hfull); [vm_compute; reflexivity|].
  destruct (Hcut (mk_is_Some _ _ eq_refl)) as [Htake _].
  destruct (Hfull (mk_is_Some _ _ eq_refl) (doneItem <$> seq 0 99)
              oldestRunning eq_refl eq_refl) as [Hfront Hlen].
  split_and!.
  - exact Htake.
  - apply Hinv. vm_compute. lia.
  - exact Hfront.
  - exact Hlen.
Defined.

(** C4, as stated, fails in its last part: the store is full, its oldest
    entry belongs to a task that is still running, and the insert evicts
    it; the poller's next update for that task finds nothing. *)
Lemma C4_counterexample :
  let st' := (saveToHistory (taskWith []) "id-new" 5000 fullStore).1 in
  length (getHistory fullStore) = 100%nat
  ∧ (status <$> recordOf "t-old" fullStore) = Some "running"
  ∧ length (getHistory st') = 100%nat
  ∧ recordOf "t-old" st' = None
  ∧ (updateHistoryItem "t-old"
       (with_logs noUpdates [mkLog "still working" "info" (Some 6000)])
       6000 st').2 = false.
Proof. vm_compute. done. Qed.

(** C7, at the input where the code departs from it: the entry holds one
    event, the update brings an empty [logs] list, and afterwards the entry
    holds no event at all. *)
Theorem C7_empty_payload_truncates :
  let st := oneTask [mkLog "a" "info" (Some 1000)] in
  let st' := (updateHistoryItem "t1" (with_logs noUpdates []) 2000 st).1 in
  (logs <$> recordOf "t1" st) = Some [mkLog "a" "info" (Some 1000)]
  ∧ (updateHistoryItem "t1" (with_logs noUpdates []) 2000 st).2 = true
  ∧ (logs <$> recordOf "t1" st') = Some [].
Proof. vm_compute. done. Qed.

(** With a payload that is not empty every event of the entry stays, in
    place. *)
Lemma updateHistoryItem_keeps_logs (tid : string) (updates : Updates)
    (ls : list LogEvent) (now : Z) (st st' : Storage) :
  updateHistoryItem tid updates now st = (st', true) →
  u_logs updates = Some ls → ls ≠ [] →
  ∃ item item',
    recordOf tid st = Some item ∧ recordOf tid st' = Some item'
    ∧ logs item `prefix_of` logs item'.
Proof.
  intros (item & Hrec & _ & Hrec')%updateHistoryItem_true Hls Hne.
  eexists item, _. split_and!; [done|done|].
  erewrite update_logs_nonempty by done. by apply prefix_app_r.
Qed.

(** C9.  Reading the history never fails: when nothing is stored, and
    when what is stored cannot be parsed (the body of the [try] throws),
    [getHistory] returns the empty list; otherwise it returns the stored
    array. *)
Theorem C9_getHistory_total (st : Storage) :
  (content st = Missing → getHistory st = [])
  ∧ (readHistory st = None → getHistory st = [])
  ∧ (∀ h, content st = Saved h → getHistory st = h).
Proof.
  unfold getHistory, readHistory.
  split_and!.
  - by intros ->.
  - by destruct (content st).
  - by intros h ->.
Qed.

Lemma C9_getHistory_total_witness :
  getHistory (mkStorage Garbled true) = []
  ∧ getHistory (mkStorage Missing false) = [].
Proof.
  split.
  - apply (proj1 (proj2 (C9_getHistory_total (mkStorage Garbled true)))).
    reflexivity.
  - apply (proj1 (C9_getHistory_total (mkStorage Missing false))).
    reflexivity.
Defined.

(** C10.  After a final reconciliation that succeeded the entry carries
    the merged, deduplicated sequence in [logs] and, next to it, the
    backend's dump in [allLogs], exactly as it was passed in; an update
    that follows leaves [allLogs] as it is. *)
Theorem C10_allLogs_verbatim (tid : string) (backendLogs : list LogEvent)
    (now : Z) (st st' : Storage) :
  saveCompleteLogsToHistory tid backendLogs now st = (st', true) →
  ∃ item item',
    recordOf tid st = Some item ∧ recordOf tid st' = Some item'
    ∧ allLogs item' = backendLogs
    ∧ logs item' = mergeLogs backendLogs (logs item)
    ∧ NoDup (messages (logs item'))
    ∧ (∀ updates now' st'',
         updateHistoryItem tid updates now' st' = (st'', true) →
         allLogs <$> recordOf tid st'' = Some backendLogs).
Proof.
  intros (item & Hrec & _ & Hrec')%saveCompleteLogsToHistory_true.
  eexists item, _. split_and!; [done|done|done|done|..].
  - apply mergeLogs_NoDup.
  - intros updates now' st''
      (item1 & Hrec1 & _ & Hrec2)%updateHistoryItem_true.
    rewrite Hrec' in Hrec1. injection Hrec1 as <-. by rewrite Hrec2.
Qed.

Lemma C10_allLogs_verbatim_witness :
  ∃ item item',
    recordOf "t1" (oneTask [mkLog "a" "info" (Some 1)]) = Some item
    ∧ recordOf "t1"
        (saveCompleteLogsToHistory "t1"
           [mkLog "b" "info" (Some 9); mkLog "a" "info" (Some 2);
            mkLog "b" "info" (Some 3)] 2000
           (oneTask [mkLog "a" "info" (Some 1)])).1 = Some item'
    ∧ allLogs item' = [mkLog "b" "info" (Some 9); mkLog "a" "info" (Some 2);
                       mkLog "b" "info" (Some 3)]
    ∧ logs item'
      = mergeLogs [mkLog "b" "info" (Some 9); mkLog "a" "info" (Some 2);
                   mkLog "b" "info" (Some 3)] (logs item)
    ∧ NoDup (messages (logs item'))
    ∧ (∀ updates now' st'',
         updateHistoryItem "t1" updates now'
           (saveCompleteLogsToHistory "t1"
              [mkLog "b" "info" (Some 9); mkLog "a" "info" (Some 2);
               mkLog "b" "info" (Some 3)] 2000
              (oneTask [mkLog "a" "info" (Some 1)])).1 = (st'', true) →
         allLogs <$> recordOf "t1" st''
         = Some [mkLog "b" "info" (Some 9); mkLog "a" "info" (Some 2);
                 mkLog "b" "info" (Some 3)]).
Proof.
  apply (C10_allLogs_verbatim "t1"
           [mkLog "b" "info" (Some 9); mkLog "a" "info" (Some 2);
            mkLog "b" "info" (Some 3)] 2000
           (oneTask [mkLog "a" "info" (Some 1)])).
  vm_compute. reflexivity.
Defined.

(** ** The poller *)

(** Apart from [logs], an update leaves in the entry what the payload
    names, and otherwise what was there. *)
Lemma spread_fields (item : HistoryItem) (updates : Updates) (now : Z) :
  let item' := spread item (mergeUpdateLogs item updates) now in
  status item' = default (status item) (u_status updates)
  ∧ result item' = from_option Some (result item) (u_result updates)
  ∧ error item' = from_option Some (error item) (u_error updates)
  ∧ endTime item' = from_option Some (endTime item) (u_endTime updates)
  ∧ allLogs item' = allLogs item.
Proof.
  unfold mergeUpdateLogs.
  destruct (u_logs updates) as [ls|]; [case_decide|]; simpl;
    repeat split; by destruct updates as [? ? [?|] ? [?|] [?|]].
Qed.

Section PollFacts.
Variables (id_ : string) (startTime_ : Z) (capturedLogs : list LogEvent).

Lemma mergeResponse_spec (newLogs : list LogEvent) (taskStatus : string)
    (now : Z) (p : PollerState) (st : Storage) (item : HistoryItem) :
  recordOf id_ st = Some item → writable st = true →
  ∃ p1 st1 item1,
    mergeResponse id_ newLogs taskStatus now p st = (p1, st1)
    ∧ attempt p1 = attempt p ∧ loading p1 = loading p
    ∧ errorText p1 = errorText p
    ∧ writable st1 = true
    ∧ recordOf id_ st1 = Some item1
    ∧ result item1 = result item ∧ error item1 = error item
    ∧ endTime item1 = endTime item
    ∧ logs item `prefix_of` logs item1
    ∧ (∀ m, m ∈ messages (logs item1) →
            m ∈ messages (logs item) ∨ m ∈ messages (stateLogs p)
            ∨ m ∈ messages newLogs).
Proof.
  intros Hrec Hw. unfold mergeResponse.
  set (fresh := filter _ newLogs).
  destruct (decide (0 < length fresh)%nat) as [Hlen|Hlen].
  - set (u := mkUpdates _ _ _ _ _ _).
    destruct (updateHistoryItem_found id_ u now st item Hrec Hw)
      as (st1 & Hup & Hw1 & Hrec1).
    rewrite Hup. eexists _, st1, _.
    destruct (spread_fields item u now) as (_ & Hres & Herr & Hend & _).
    split_and!; [done|done|done|done|done|exact Hrec1|done|done|done|..].
    + erewrite update_logs_nonempty; [by apply prefix_app_r|done|].
      destruct fresh; [simpl in Hlen; lia|]. by destruct (stateLogs p).
    + erewrite update_logs_nonempty; [|done|];
        [|destruct fresh; [simpl in Hlen; lia|]; by destruct (stateLogs p)].
      intros m. unfold messages. rewrite fmap_app, elem_of_app.
      intros [Hm|Hm]; [by left|right].
      apply list_elem_of_fmap in Hm as (e & -> & He).
      apply list_elem_of_filter in He as [_ He].
      apply elem_of_app in He as [He|He].
      * left. by apply list_elem_of_fmap_2.
      * right. apply list_elem_of_filter in He as [_ He].
        by apply list_elem_of_fmap_2.
  - eexists _, st, item.
    split_and!; [done|done|done|done|done|done|done|done|done|done|].
    intros m Hm. by left.
Qed.

(** What the final update of a branch does to the entry: the payload
    always ends with the branch's own event. *)
Lemma final_update_logs (item : HistoryItem) (updates : Updates)
    (e : LogEvent) (now : Z) :
  u_logs updates = Some (capturedLogs ++ [e]) →
  let item' := spread item (mergeUpdateLogs item updates) now in
  logs item `prefix_of` logs item'
  ∧ message e ∈ messages (logs item')
  ∧ (message e ∉ messages (logs item) → last (logs item') = Some e).
Proof.
  intros Hls. cbv zeta.
  erewrite update_logs_nonempty; [|exact Hls|by destruct capturedLogs].
  rewrite filter_app. split_and!.
  - by apply prefix_app_r.
  - unfold messages. rewrite !fmap_app, !elem_of_app.
    destruct (decide (message e ∈ message <$> logs item)) as [Hin|Hnin];
      [by left|right; right].
    rewrite filter_cons_True by (by rewrite elem_of_list_to_set).
    simpl. apply list_elem_of_here.
  - intros Hnin.
    rewrite filter_cons_True by (by rewrite elem_of_list_to_set).
    rewrite filter_nil, !app_assoc. apply last_snoc.
Qed.

Lemma poll_timeout_retry (ev : PollEvent) (p : PollerState) (st : Storage)
    (msg : string) :
  fetch ev = FetchError "ECONNABORTED" msg → (attempt p < 10)%nat →
  poll id_ startTime_ capturedLogs ev p st
  = (mkPoller (S (attempt p)) (stateLogs p) (loading p) (errorText p),
     st, Again 2000).
Proof.
  intros Hf Hlt. unfold poll, onError. rewrite Hf.
  by rewrite decide_True by (unfold maxAttempts; split; [done|lia]).
Qed.

Lemma poll_abort (ev : PollEvent) (p : PollerState) (st : Storage)
    (item : HistoryItem) (code msg : string) :
  fetch ev = FetchError code msg →
  code ≠ "ECONNABORTED" ∨ (10 ≤ attempt p)%nat →
  recordOf id_ st = Some item → writable st = true →
  ∃ p' st' item',
    poll id_ startTime_ capturedLogs ev p st = (p', st', Stop)
    ∧ recordOf id_ st' = Some item'
    ∧ status item' = "failed"
    ∧ error item' = Some msg
    ∧ result item' = result item
    ∧ endTime item' = Some (clock ev)
    ∧ message (commErrorEvent msg (clock ev)) ∈ messages (logs item').
Proof.
  intros Hf Hwhy Hrec Hw. unfold poll, onError. rewrite Hf.
  rewrite decide_False
    by (unfold maxAttempts; intros [Hc Ha]; destruct Hwhy; [done|lia]).
  set (u := mkUpdates _ _ _ _ _ _).
  destruct (updateHistoryItem_found id_ u (clock ev) st item Hrec Hw)
    as (st1 & Hup & Hw1 & Hrec1).
  rewrite Hup. eexists _, st1, _.
  destruct (spread_fields item u (clock ev))
    as (Hstatus & Hres & Herr & Hend & _).
  split_and!; [done|exact Hrec1|done|done|done|done|].
  by apply (final_update_logs item u (commErrorEvent msg (clock ev))).
Qed.

Lemma poll_running (ev : PollEvent) (p : PollerState) (st : Storage)
    (item : HistoryItem) (dataLogs : option (list LogEvent)) :
  fetch ev = Response dataLogs "running" →
  recordOf id_ st = Some item → writable st = true →
  ∃ p' st' item',
    poll id_ startTime_ capturedLogs ev p st = (p', st', Again 1500)
    ∧ attempt p' = attempt p
    ∧ writable st' = true
    ∧ recordOf id_ st' = Some item'
    ∧ result item' = result item.
Proof.
  intros Hf Hrec Hw. unfold poll. rewrite Hf.
  destruct (mergeResponse_spec (default [] dataLogs) "running" (clock ev)
              p st item Hrec Hw)
    as (p1 & st1 & item1 & -> & Hatt & _ & _ & Hw1 & Hrec1 & Hres & _).
  rewrite decide_True by done. by eexists p1, st1, item1.
Qed.

(** Timeouts and running responses: as long as no more than ten timeouts
    have been counted the poller goes on, its counter the number of
    timeouts so far, the entry still there with the result it had. *)
Lemma pollFrom_within_budget (trace : list PollEvent) :
  ∀ (p : PollerState) (st : Storage) (item : HistoryItem),
    Forall (λ ev, timedOut ev ∨ stillRunning ev) trace →
    (attempt p + countTimeouts trace ≤ 10)%nat →
    recordOf id_ st = Some item → writable st = true →
    ∃ p' st' item' d,
      pollFrom id_ startTime_ capturedLogs trace p st = (p', st', Again d)
      ∧ attempt p' = (attempt p + countTimeouts trace)%nat
      ∧ writable st' = true
      ∧ recordOf id_ st' = Some item'
      ∧ result item' = result item.
Proof.
  induction trace as [|ev rest IH]; intros p st item Hall Hbudget Hrec Hw.
  - simpl. eexists p, st, item, 0. split_and!; [done|lia|done|done|done].
  - apply Forall_cons in Hall as [[[msg Hf]|[dataLogs Hf]] Hall].
    + simpl in Hbudget. rewrite Hf in Hbudget. simpl.
      rewrite (poll_timeout_retry ev p st msg Hf) by lia.
      destruct (IH (mkPoller (S (attempt p)) (stateLogs p) (loading p)
                      (errorText p)) st item Hall) as
          (p' & st' & item' & d & Hrun & Hatt & Hw' & Hrec' & Hres);
        [simpl; lia|done|done|].
      exists p', st', item', d. rewrite Hf.
      split_and!; [done|simpl in Hatt; lia|done|done|done].
    + simpl in Hbudget. rewrite Hf in Hbudget. simpl.
      destruct (poll_running ev p st item dataLogs Hf Hrec Hw)
        as (p1 & st1 & item1 & -> & Hatt1 & Hw1 & Hrec1 & Hres1).
      destruct (IH p1 st1 item1 Hall) as
          (p' & st' & item' & d & Hrun & Hatt & Hw' & Hrec' & Hres);
        [lia|done|done|].
      exists p', st', item', d. rewrite Hf.
      split_and!; [done|lia|done|done|congruence].
Qed.

Lemma pollFrom_app (trace : list PollEvent) (ev : PollEvent) :
  ∀ (p p' : PollerState) (st st' : Storage) (d : Z),
    pollFrom id_ startTime_ capturedLogs trace p st = (p', st', Again d) →
    pollFrom id_ startTime_ capturedLogs (trace ++ [ev]) p st
    = match poll id_ startTime_ capturedLogs ev p' st' with
      | (p'', st'', Again _) => (p'', st'', Again 0)
      | stopped => stopped
      end.
Proof.
  induction trace as [|e rest IH]; intros p p' st st' d Hrun; simpl in *.
  - by injection Hrun as <- <- _.
  - destruct (poll id_ startTime_ capturedLogs e p st) as [[p1 st1] [d1|]].
    + by eapply IH.
    + discriminate Hrun.
Qed.
End PollFacts.

(** C5, as the code has it.  A fetch failure with code [ECONNABORTED] is
    retried after 2000 ms, the store untouched, as long as the timeouts
    counted since the poller started are fewer than 10.  Any other error,
    or a timeout once 10 have been counted, stops the poller: the entry
    gets status [failed], the error's message as [error], an end time and
    the communication-error event, and its result is left as it was.  The
    count is never reset: whatever running responses come in between, the
    timeout that follows ten counted ones stops the poller; eleven timeouts
    in a row are one such run. *)
Theorem C5_timeouts_counted_in_total (id_ : string) (startTime_ : Z)
    (capturedLogs : list LogEvent) :
  (∀ ev p st msg,
     fetch ev = FetchError "ECONNABORTED" msg → (attempt p < 10)%nat →
     poll id_ startTime_ capturedLogs ev p st
     = (mkPoller (S (attempt p)) (stateLogs p) (loading p) (errorText p),
        st, Again 2000))
  ∧ (∀ ev p st item code msg,
       fetch ev = FetchError code msg →
       code ≠ "ECONNABORTED" ∨ (10 ≤ attempt p)%nat →
       recordOf id_ st = Some item → writable st = true →
       ∃ p' st' item',
         poll id_ startTime_ capturedLogs ev p st = (p', st', Stop)
         ∧ recordOf id_ st' = Some item'
         ∧ status item' = "failed"
         ∧ error item' = Some msg
         ∧ result item' = result item
         ∧ endTime item' = Some (clock ev)
         ∧ message (commErrorEvent msg (clock ev)) ∈ messages (logs item'))
  ∧ (∀ trace ev p st item msg,
       Forall (λ e, timedOut e ∨ stillRunning e) trace →
       countTimeouts trace = 10%nat →
       fetch ev = FetchError "ECONNABORTED" msg →
       recordOf id_ st = Some item → writable st = true →
       ∃ p' st' item',
         pollLogs id_ startTime_ capturedLogs (trace ++ [ev]) p st
         = (p', st', Stop)
         ∧ recordOf id_ st' = Some item'
         ∧ status item' = "failed"
         ∧ error item' = Some msg
         ∧ result item' = result item
         ∧ message (commErrorEvent msg (clock ev)) ∈ messages (logs item')).
Proof.
  split_and!.
  - intros ev p st msg. apply poll_timeout_retry.
  - intros ev p st item code msg. apply poll_abort.
  - intros trace ev p st item msg Hall Hcount Hf Hrec Hw. unfold pollLogs.
    destruct (pollFrom_within_budget id_ startTime_ capturedLogs trace
                (mkPoller 0 (stateLogs p) (loading p) (errorText p))
                st item Hall) as
        (p1 & st1 & item1 & d & Hrun & Hatt & Hw1 & Hrec1 & Hres1);
      [simpl; lia|done|done|].
    rewrite (pollFrom_app _ _ _ _ _ _ _ _ _ _ Hrun).
    destruct (poll_abort id_ startTime_ capturedLogs ev p1 st1 item1
                "ECONNABORTED" msg Hf) as
        (p' & st' & item' & -> & Hrec' & Hst & Herr & Hres & _ & Hlog);
      [right; simpl in Hatt; lia|done|done|].
    exists p', st', item'. split_and!; [done|done|done|done|congruence|done].
Qed.

Lemma C5_timeouts_counted_in_total_witness :
  poll "t1" 1000 [] (timeoutEvent 3000) freshPoller (oneTask [])
  = (mkPoller 1 [] true "", oneTask [], Again 2000)
  ∧ (∃ p' st' item',
       poll "t1" 1000 [] (networkErrorEvent 3000) freshPoller (oneTask [])
       = (p', st', Stop)
       ∧ recordOf "t1" st' = Some item'
       ∧ status item' = "failed"
       ∧ error item' = Some "Network Error"
       ∧ result item' = None
       ∧ endTime item' = Some 3000
       ∧ message (commErrorEvent "Network Error" 3000)
         ∈ messages (logs item'))
  ∧ (∃ p' st' item',
       pollLogs "t1" 1000 []
         (replicate 10 (timeoutEvent 3000) ++ [timeoutEvent 4000])
         freshPoller (oneTask []) = (p', st', Stop)
       ∧ recordOf "t1" st' = Some item'
       ∧ status item' = "failed"
       ∧ error item' = Some "timeout of 15000ms exceeded"
       ∧ result item' = None
       ∧ message (commErrorEvent "timeout of 15000ms exceeded" 4000)
         ∈ messages (logs item')).
Proof.
  destruct (C5_timeouts_counted_in_total "t1" 1000 [])
    as (Hretry & Habort & Hrun).
  split_and!.
  - apply (Hretry (timeoutEvent 3000) freshPoller (oneTask [])
             "timeout of 15000ms exceeded"); [reflexivity|simpl; lia].
  - apply (Habort (networkErrorEvent 3000) freshPoller (oneTask [])
             (historyItem (taskWith []) "id-1" 1000)
             "ERR_NETWORK" "Network Error");
      [reflexivity|left; discriminate|vm_compute; reflexivity|reflexivity].
  - apply (Hrun (replicate 10 (timeoutEvent 3000)) (timeoutEvent 4000)
             freshPoller (oneTask [])
             (historyItem (taskWith []) "id-1" 1000)
             "timeout of 15000ms exceeded");
      [|reflexivity|reflexivity|vm_compute; reflexivity|reflexivity].
    apply Forall_forall. intros e He.
    apply elem_of_replicate in He as [-> _]. left. by eexists.
Defined.

(** C5, as stated, fails: ten timeouts, then a response (the task is
    running), then one more timeout.  The timeouts in a row before the last
    one are none, below the bound, and yet the poller stops and the entry
    ends as failed. *)
Lemma C5_counterexample :
  let past := replicate 10 (timeoutEvent 3000) ++ [runningEvent [] 4000] in
  let run := pollLogs "t1" 1000 [] (past ++ [timeoutEvent 5000])
               freshPoller (oneTask []) in
  spec_consecutiveTimeouts past = 0%nat
  ∧ run.2 = Stop
  ∧ (status <$> recordOf "t1" run.1.2) = Some "failed"
  ∧ attempt run.1.1 = 10%nat.
Proof. vm_compute. done. Qed.

(** C6.  The status request reports [completed] and the result request
    fails: the call of [poll] ends normally and schedules nothing more, the
    entry gets status [completed] and an end time, its result and error
    are left as they were, and its logs, all still there, hold the info
    event noting the missing result, as the last event when no event with
    that text was there before.  Nothing is reported on the page. *)
Theorem C6_result_fetch_failure (id_ : string) (startTime_ : Z)
    (capturedLogs : list LogEvent) (ev : PollEvent) (p : PollerState)
    (st : Storage) (item : HistoryItem) (dataLogs : option (list LogEvent)) :
  recordOf id_ st = Some item → writable st = true →
  fetch ev = Response dataLogs "completed" →
  resultFetch ev = ResultError →
  ∃ p' st' item',
    poll id_ startTime_ capturedLogs ev p st = (p', st', Stop)
    ∧ recordOf id_ st' = Some item'
    ∧ status item' = "completed"
    ∧ endTime item' = Some (clock ev)
    ∧ result item' = result item
    ∧ error item' = error item
    ∧ logs item `prefix_of` logs item'
    ∧ type (noResultEvent (clock ev)) = "info"
    ∧ message (noResultEvent (clock ev)) ∈ messages (logs item')
    ∧ (message (noResultEvent (clock ev))
         ∉ messages (logs item) ++ messages (stateLogs p)
           ++ messages (default [] dataLogs) →
       last (logs item') = Some (noResultEvent (clock ev)))
    ∧ loading p' = false
    ∧ errorText p' = errorText p.
Proof.
  intros Hrec Hw Hf Hr. unfold poll. rewrite Hf.
  destruct (mergeResponse_spec id_ (default [] dataLogs) "completed"
              (clock ev) p st item Hrec Hw)
    as (p1 & st1 & item1 & -> & _ & _ & Herrtext & Hw1 & Hrec1 & Hres1
        & Herr1 & _ & Hpre1 & Hmsgs1).
  rewrite decide_False by discriminate. rewrite decide_True by done.
  unfold onCompleted. rewrite Hr.
  set (u := mkUpdates _ _ _ _ _ _).
  destruct (updateHistoryItem_found id_ u (clock ev) st1 item1 Hrec1 Hw1)
    as (st2 & Hup & Hw2 & Hrec2).
  rewrite Hup. eexists _, st2, _.
  destruct (spread_fields item1 u (clock ev))
    as (Hstatus & Hres & Herr & Hend & _).
  destruct (final_update_logs capturedLogs item1 u (noResultEvent (clock ev))
              (clock ev) eq_refl) as (Hpre & Hin & Hlast).
  split_and!; [done|exact Hrec2|done|done|..|done|done].
  - by rewrite Hres.
  - by rewrite Herr.
  - by etrans.
  - done.
  - done.
  - intros Hfresh. apply Hlast. intros Hm. apply Hfresh.
    rewrite !elem_of_app. by apply Hmsgs1.
Qed.

Lemma C6_result_fetch_failure_witness :
  ∃ p' st' item',
    poll "t1" 1000 []
      (completedNoResultEvent [mkLog "done" "info" (Some 2500)] 3000)
      freshPoller (oneTask [mkLog "start" "info" (Some 1000)])
    = (p', st', Stop)
    ∧ recordOf "t1" st' = Some item'
    ∧ status item' = "completed"
    ∧ endTime item' = Some 3000
    ∧ result item' = None
    ∧ error item' = None
    ∧ [mkLog "start" "info" (Some 1000)] `prefix_of` logs item'
    ∧ type (noResultEvent 3000) = "info"
    ∧ message (noResultEvent 3000) ∈ messages (logs item')
    ∧ last (logs item') = Some (noResultEvent 3000)
    ∧ loading p' = false
    ∧ errorText p' = "".
Proof.
  destruct (C6_result_fetch_failure "t1" 1000 []
              (completedNoResultEvent [mkLog "done" "info" (Some 2500)] 3000)
              freshPoller (oneTask [mkLog "start" "info" (Some 1000)])
              (historyItem (taskWith [mkLog "start" "info" (Some 1000)])
                 "id-1" 1000)
              (Some [mkLog "done" "info" (Some 2500)]))
    as (p' & st' & item' & Hpoll & Hrec & Hst & Hend & Hres & Herr & Hpre
        & Hty & Hin & Hlast & Hload & Htext);
    [vm_compute; reflexivity|reflexivity|reflexivity|reflexivity|].
  exists p', st', item'.
  split_and!; [done|done|done|done|done|done|done|done|done| |done|done].
  apply Hlast. vm_compute. intros Hm.
  repeat (apply elem_of_cons in Hm as [Hm|Hm]; [discriminate Hm|]).
  by apply elem_of_nil in Hm.
Defined.

(** * Further properties of the store *)

(** ** What a call does, case by case *)

Lemma findIndex_recordOf (tid : string) (st : Storage) :
  recordOf tid st = None ↔ findIndex tid (getHistory st) = None.
Proof.
  unfold recordOf. destruct (findIndex tid (getHistory st)); naive_solver.
Qed.

Lemma updateHistoryItem_cases (tid : string) (updates : Updates) (now : Z)
    (st : Storage) :
  (updateHistoryItem tid updates now st = (st, false)
   ∧ (recordOf tid st = None ∨ writable st = false))
  ∨ (∃ i item,
       findIndex tid (getHistory st) = Some (i, item) ∧ writable st = true
       ∧ updateHistoryItem tid updates now st
         = (mkStorage
              (Saved (<[i := spread item (mergeUpdateLogs item updates) now]>
                        (getHistory st))) true, true)).
Proof.
  unfold updateHistoryItem, setItem, recordOf, getHistory.
  destruct (readHistory st) as [history|]; simpl; [|left; auto].
  destruct (findIndex tid history) as [[i item]|]; simpl; [|left; auto].
  destruct (writable st); simpl; [|left; auto].
  right. by exists i, item.
Qed.

Lemma saveCompleteLogsToHistory_cases (tid : string)
    (backendLogs : list LogEvent) (now : Z) (st : Storage) :
  (saveCompleteLogsToHistory tid backendLogs now st = (st, false)
   ∧ (recordOf tid st = None ∨ writable st = false))
  ∨ (∃ i item,
       findIndex tid (getHistory st) = Some (i, item) ∧ writable st = true
       ∧ saveCompleteLogsToHistory tid backendLogs now st
         = (mkStorage
              (Saved (<[i := withCompleteLogs item
                               (mergeLogs backendLogs (logs item))
                               backendLogs now]> (getHistory st))) true,
            true)).
Proof.
  unfold saveCompleteLogsToHistory, setItem, recordOf, getHistory.
  destruct (readHistory st) as [history|]; simpl; [|left; auto].
  destruct (findIndex tid history) as [[i item]|]; simpl; [|left; auto].
  destruct (writable st); simpl; [|left; auto].
  right. by exists i, item.
Qed.

Lemma sameElsewhere_refl (tid : string) (h : list HistoryItem) :
  sameElsewhere tid h h.
Proof. apply Forall_Forall2_diag, Forall_forall. naive_solver. Qed.

Lemma sameElsewhere_trans (tid : string) (h1 h2 h3 : list HistoryItem) :
  sameElsewhere tid h1 h2 → sameElsewhere tid h2 h3 → sameElsewhere tid h1 h3.
Proof.
  unfold sameElsewhere. intros H12. revert h3.
  induction H12 as [|x y h1 h2 (Hid & Htid & Hsame) _ IH]; intros h3 H23.
  - by inv H23.
  - inv H23. destruct H1 as (Hid' & Htid' & Hsame').
    constructor; [|by apply IH].
    split_and!; [congruence|congruence|].
    intros Hne. rewrite (Hsame Hne). apply Hsame'. by rewrite <- Htid.
Qed.

Lemma sameElsewhere_insert (tid : string) (h : list HistoryItem) (i : nat)
    (item item' : HistoryItem) :
  findIndex tid h = Some (i, item) →
  id item' = id item → taskId item' = taskId item →
  sameElsewhere tid h (<[i := item']> h).
Proof.
  intros Hfind Hid Htid.
  apply list_find_Some in Hfind as (Hi & Hp & _).
  rewrite <- (list_insert_id h i item Hi) at 1.
  apply Forall2_insert; [apply sameElsewhere_refl|].
  split_and!; [done|done|]. intros Hne. by destruct Hne.
Qed.

Lemma sameElsewhere_lookup (tid : string) (h h' : list HistoryItem) :
  sameElsewhere tid h h' →
  length h' = length h
  ∧ id <$> h' = id <$> h
  ∧ taskId <$> h' = taskId <$> h
  ∧ (∀ j x, h !! j = Some x → taskId x ≠ tid → h' !! j = Some x).
Proof.
  induction 1 as [|x y h h' (Hid & Htid & Hsame) _ (IHl & IHid & IHtid & IH)].
  - done.
  - split_and!; simpl.
    + by rewrite IHl.
    + change (id y :: (id <$> h') = id x :: (id <$> h)). by rewrite IHid, Hid.
    + change (taskId y :: (taskId <$> h') = taskId x :: (taskId <$> h)).
      by rewrite IHtid, Htid.
    + intros [|j] z Hz Hne; simpl in *; [|by apply IH].
      injection Hz as <-. by rewrite <- Hsame.
Qed.

Lemma updateHistoryItem_sameElsewhere (tid : string) (updates : Updates)
    (now : Z) (st : Storage) :
  sameElsewhere tid (getHistory st)
    (getHistory (updateHistoryItem tid updates now st).1).
Proof.
  destruct (updateHistoryItem_cases tid updates now st)
    as [[-> _]|(i & item & Hfind & Hw & ->)]; simpl.
  - apply sameElsewhere_refl.
  - unfold getHistory at 2. simpl. by eapply sameElsewhere_insert.
Qed.

Lemma saveCompleteLogsToHistory_sameElsewhere (tid : string)
    (backendLogs : list LogEvent) (now : Z) (st : Storage) :
  sameElsewhere tid (getHistory st)
    (getHistory (saveCompleteLogsToHistory tid backendLogs now st).1).
Proof.
  destruct (saveCompleteLogsToHistory_cases tid backendLogs now st)
    as [[-> _]|(i & item & Hfind & Hw & ->)]; simpl.
  - apply sameElsewhere_refl.
  - unfold getHistory at 2. simpl. by eapply sameElsewhere_insert.
Qed.

(** Every message of a non-empty payload is in the entry afterwards. *)
Lemma update_logs_covers (item : HistoryItem) (updates : Updates)
    (ls : list LogEvent) (now : Z) :
  u_logs updates = Some ls → ls ≠ [] →
  ∀ e, e ∈ ls →
       message e
       ∈ messages (logs (spread item (mergeUpdateLogs item updates) now)).
Proof.
  intros Hls Hne e He. erewrite update_logs_nonempty by done.
  unfold messages. rewrite fmap_app, elem_of_app.
  destruct (decide (message e ∈ message <$> logs item)) as [Hin|Hnin];
    [by left|right].
  apply list_elem_of_fmap_2, list_elem_of_filter. split; [|done].
  by rewrite elem_of_list_to_set.
Qed.

(** ** Inserting *)

(** X1.  What is inserted is what is found: after an insert that succeeded
    the id returned is the fresh one, the new entry is the first of the
    history, and it is the entry the store addresses by the task's id, even
    when older entries carry the same task id. *)
Theorem saveToHistory_then_found (taskData : TaskData) (uuid : string)
    (now : Z) (st st' : Storage) (i : string) :
  saveToHistory taskData uuid now st = (st', Some i) →
  i = uuid
  ∧ head (getHistory st') = Some (historyItem taskData uuid now)
  ∧ recordOf (td_taskId taskData) st' = Some (historyItem taskData uuid now)
  ∧ writable st' = true.
Proof.
  intros Hsave.
  assert (writable st' = true) as Hw.
  { unfold saveToHistory, setItem in Hsave.
    destruct (readHistory st); simpl in *; [|done].
    destruct (writable st); simpl in *; [|done]. by injection Hsave as <- _. }
  apply saveToHistory_Some in Hsave as (existing & _ & -> & Hh).
  rewrite capHistory_take in Hh. simpl in Hh.
  split_and!; [done|by rewrite Hh| |done].
  unfold recordOf, findIndex. rewrite Hh. simpl.
  by rewrite decide_True.
Qed.

Lemma saveToHistory_then_found_witness :
  let r := saveToHistory (taskWith []) "id-2" 7000
             (oneTask [mkLog "a" "info" None]) in
  r.2 = Some "id-2"
  ∧ head (getHistory r.1) = Some (historyItem (taskWith []) "id-2" 7000)
  ∧ recordOf "t1" r.1 = Some (historyItem (taskWith []) "id-2" 7000)
  ∧ writable r.1 = true.
Proof.
  destruct (saveToHistory_then_found (taskWith []) "id-2" 7000
              (oneTask [mkLog "a" "info" None])
              (saveToHistory (taskWith []) "id-2" 7000
                 (oneTask [mkLog "a" "info" None])).1 "id-2")
    as (_ & Hhead & Hrec & Hw); [vm_compute; reflexivity|].
  split_and!; [reflexivity|exact Hhead|exact Hrec|exact Hw].
Defined.

(** X2.  An insert changes no entry that was there: each moves one place
    down, and all but those from place 99 on are kept; an entry that was
    addressed by another task id at a place below 99 is still the one
    addressed by it. *)
Theorem saveToHistory_keeps_entries (taskData : TaskData) (uuid : string)
    (now : Z) (st st' : Storage) (i : string) :
  saveToHistory taskData uuid now st = (st', Some i) →
  (∀ j x, getHistory st !! j = Some x → (j < 99)%nat →
          getHistory st' !! S j = Some x)
  ∧ (∀ j x, getHistory st' !! S j = Some x → getHistory st !! j = Some x)
  ∧ (∀ tid j x,
       findIndex tid (getHistory st) = Some (j, x) → (j < 99)%nat →
       td_taskId taskData ≠ tid →
       findIndex tid (getHistory st') = Some (S j, x)).
Proof.
  intros (existing & Hread & _ & Hh)%saveToHistory_Some.
  rewrite capHistory_take in Hh. simpl in Hh.
  assert (getHistory st = existing) as -> by (unfold getHistory; by rewrite Hread).
  rewrite Hh. split_and!.
  - intros j x Hj Hlt. simpl. by rewrite lookup_take_lt by lia.
  - intros j x Hj. simpl in Hj.
    apply lookup_take_Some in Hj. tauto.
  - intros tid j x Hfind Hlt Hne. unfold findIndex in *.
    apply list_find_Some in Hfind as (Hj & Hp & Hleast).
    apply list_find_Some. split_and!.
    + simpl. by rewrite lookup_take_lt by lia.
    + done.
    + intros [|k] y Hk Hkj; simpl in Hk.
      * injection Hk as <-. done.
      * apply lookup_take_Some in Hk as [Hk _]. apply (Hleast k y Hk). lia.
Qed.

Lemma saveToHistory_keeps_entries_witness :
  let st := oneTask [mkLog "a" "info" None] in
  let st' := (saveToHistory otherTask "id-2" 7000 st).1 in
  getHistory st' !! 1%nat
  = Some (historyItem (taskWith [mkLog "a" "info" None]) "id-1" 1000)
  ∧ findIndex "t1" (getHistory st')
    = Some (1%nat, historyItem (taskWith [mkLog "a" "info" None]) "id-1" 1000).
Proof.
  cbv zeta.
  destruct (saveToHistory_keeps_entries otherTask "id-2" 7000
              (oneTask [mkLog "a" "info" None])
              (saveToHistory otherTask "id-2" 7000
                 (oneTask [mkLog "a" "info" None])).1 "id-2")
    as (Hdown & _ & Hfind); [vm_compute; reflexivity|].
  split.
  - apply Hdown; [vm_compute; reflexivity|lia].
  - apply Hfind; [vm_compute; reflexivity|lia|discriminate].
Defined.

(** X3.  An insert fails exactly when the stored text cannot be read or
    the storage refuses the write; it then returns no id and leaves the
    storage as it was. *)
Theorem saveToHistory_failure (taskData : TaskData) (uuid : string) (now : Z)
    (st : Storage) :
  ((saveToHistory taskData uuid now st).2 = None
   ↔ readHistory st = None ∨ writable st = false)
  ∧ ((saveToHistory taskData uuid now st).2 = None →
     (saveToHistory taskData uuid now st).1 = st).
Proof.
  unfold saveToHistory, setItem.
  destruct (readHistory st) as [h|]; simpl.
  - destruct (writable st); simpl; naive_solver.
  - naive_solver.
Qed.

Lemma saveToHistory_failure_witness :
  (saveToHistory (taskWith []) "id-1" 1000 (mkStorage Garbled true)).1
  = mkStorage Garbled true
  ∧ (saveToHistory (taskWith []) "id-1" 1000 (mkStorage Missing false)).2
    = None.
Proof.
  split.
  - apply (proj2 (saveToHistory_failure (taskWith []) "id-1" 1000
                    (mkStorage Garbled true))). reflexivity.
  - apply (proj1 (saveToHistory_failure (taskWith []) "id-1" 1000
                    (mkStorage Missing false))). right. reflexivity.
Defined.

(** ** Updating *)

(** X4.  An update, and likewise the final reconciliation, returns [false]
    exactly when no entry carries the task id (which includes a stored text
    that cannot be read) or the storage refuses the write; the storage is
    then left as it was. *)
Theorem update_not_found (tid : string) (st : Storage) :
  (∀ updates now,
     ((updateHistoryItem tid updates now st).2 = false
      ↔ recordOf tid st = None ∨ writable st = false)
     ∧ ((updateHistoryItem tid updates now st).2 = false →
        (updateHistoryItem tid updates now st).1 = st))
  ∧ (∀ backendLogs now,
       ((saveCompleteLogsToHistory tid backendLogs now st).2 = false
        ↔ recordOf tid st = None ∨ writable st = false)
       ∧ ((saveCompleteLogsToHistory tid backendLogs now st).2 = false →
          (saveCompleteLogsToHistory tid backendLogs now st).1 = st)).
Proof.
  split.
  - intros updates now.
    destruct (updateHistoryItem_cases tid updates now st)
      as [[-> Hwhy]|(i & item & Hfind & Hw & ->)]; simpl; [naive_solver|].
    split; [|done]. split; [done|]. intros [Hnone|Hnw]; [|congruence].
    apply findIndex_recordOf in Hnone. congruence.
  - intros backendLogs now.
    destruct (saveCompleteLogsToHistory_cases tid backendLogs now st)
      as [[-> Hwhy]|(i & item & Hfind & Hw & ->)]; simpl; [naive_solver|].
    split; [|done]. split; [done|]. intros [Hnone|Hnw]; [|congruence].
    apply findIndex_recordOf in Hnone. congruence.
Qed.

Lemma update_not_found_witness :
  (updateHistoryItem "t9" (with_logs noUpdates [mkLog "x" "info" None]) 2000
     (oneTask [])).2 = false
  ∧ (updateHistoryItem "t9" (with_logs noUpdates [mkLog "x" "info" None]) 2000
       (oneTask [])).1 = oneTask []
  ∧ (saveCompleteLogsToHistory "t1" [mkLog "x" "info" None] 2000
       (mkStorage Garbled true)).2 = false
  ∧ (saveCompleteLogsToHistory "t1" [mkLog "x" "info" None] 2000
       (mkStorage Garbled true)).1 = mkStorage Garbled true.
Proof.
  destruct (update_not_found "t9" (oneTask [])) as [Hup _].
  destruct (Hup (with_logs noUpdates [mkLog "x" "info" None]) 2000)
    as [Hiff Hsame].
  destruct (update_not_found "t1" (mkStorage Garbled true)) as [_ Hfin].
  destruct (Hfin [mkLog "x" "info" None] 2000) as [Hiff' Hsame'].
  assert ((updateHistoryItem "t9"
             (with_logs noUpdates [mkLog "x" "info" None]) 2000
             (oneTask [])).2 = false) as Hfalse
    by (apply Hiff; left; vm_compute; reflexivity).
  assert ((saveCompleteLogsToHistory "t1" [mkLog "x" "info" None] 2000
             (mkStorage Garbled true)).2 = false) as Hfalse'
    by (apply Hiff'; left; vm_compute; reflexivity).
  split_and!; [exact Hfalse|exact (Hsame Hfalse)|exact Hfalse'
              |exact (Hsame' Hfalse')].
Defined.



(** X6.  An update with a non-empty [logs] payload loses and invents
    nothing: the entry's events stay where they were, every message of the
    payload is in the entry afterwards, and every event of the entry
    afterwards was in the entry or in the payload. *)
Theorem updateHistoryItem_merges_payload (tid : string) (updates : Updates)
    (ls : list LogEvent) (now : Z) (st st' : Storage) :
  updateHistoryItem tid updates now st = (st', true) →
  u_logs updates = Some ls → ls ≠ [] →
  ∃ item item',
    recordOf tid st = Some item ∧ recordOf tid st' = Some item'
    ∧ logs item `prefix_of` logs item'
    ∧ (∀ e, e ∈ ls → message e ∈ messages (logs item'))
    ∧ (∀ e, e ∈ logs item' → e ∈ logs item ∨ e ∈ ls).
Proof.
  intros (item & Hrec & _ & Hrec')%updateHistoryItem_true Hls Hne.
  eexists item, _. split_and!; [done|done|..];
    erewrite update_logs_nonempty by done.
  - by apply prefix_app_r.
  - intros e He. unfold messages. rewrite fmap_app, elem_of_app.
    destruct (decide (message e ∈ message <$> logs item)) as [Hin|Hnin];
      [by left|right].
    apply list_elem_of_fmap_2, list_elem_of_filter. split; [|done].
    by rewrite elem_of_list_to_set.
  - intros e [He|He]%elem_of_app; [by left|right].
    by apply list_elem_of_filter in He as [_ He].
Qed.

Lemma updateHistoryItem_merges_payload_witness :
  ∃ item item',
    recordOf "t1" (oneTask [mkLog "a" "info" None]) = Some item
    ∧ recordOf "t1"
        (updateHistoryItem "t1"
           (with_logs noUpdates [mkLog "a" "error" None; mkLog "b" "info" None])
           2000 (oneTask [mkLog "a" "info" None])).1 = Some item'
    ∧ logs item `prefix_of` logs item'
    ∧ (∀ e, e ∈ [mkLog "a" "error" None; mkLog "b" "info" None] →
            message e ∈ messages (logs item'))
    ∧ (∀ e, e ∈ logs item' →
            e ∈ logs item
            ∨ e ∈ [mkLog "a" "error" None; mkLog "b" "info" None]).
Proof.
  apply (updateHistoryItem_merges_payload "t1"
           (with_logs noUpdates [mkLog "a" "error" None; mkLog "b" "info" None])
           [mkLog "a" "error" None; mkLog "b" "info" None] 2000
           (oneTask [mkLog "a" "info" None]));
    [vm_compute; reflexivity|reflexivity|discriminate].
Defined.

(** X7.  Sending the same non-empty [logs] payload again adds nothing: the
    entry's logs after the second update are those after the first. *)
Theorem updateHistoryItem_same_payload_twice (tid : string)
    (updates : Updates) (ls : list LogEvent) (now now' : Z)
    (st st1 : Storage) :
  updateHistoryItem tid updates now st = (st1, true) →
  u_logs updates = Some ls → ls ≠ [] →
  ∃ st2 item1 item2,
    updateHistoryItem tid updates now' st1 = (st2, true)
    ∧ recordOf tid st1 = Some item1 ∧ recordOf tid st2 = Some item2
    ∧ logs item2 = logs item1.
Proof.
  intros Hup Hls Hne.
  assert (∃ item1, recordOf tid st1 = Some item1
                   ∧ ∀ e, e ∈ ls → message e ∈ messages (logs item1))
    as (item1 & Hrec1 & Hall).
  { pose proof Hup as (item & _ & _ & Hrec1)%updateHistoryItem_true.
    eexists. split; [exact Hrec1|]. by apply update_logs_covers. }
  assert (writable st1 = true) as Hw1.
  { destruct (updateHistoryItem_cases tid updates now st)
      as [[Heq _]|(i & it & _ & _ & Heq)]; rewrite Heq in Hup;
      [done|by injection Hup as <-]. }
  destruct (updateHistoryItem_found tid updates now' st1 item1 Hrec1 Hw1)
    as (st2 & Hup2 & _ & Hrec2).
  eexists st2, item1, _. split_and!; [done|done|done|].
  erewrite update_logs_nonempty by done.
  assert (filter (λ l, message l ∉ (list_to_set (messages (logs item1))
                                     : gset string)) ls = []) as ->;
    [|apply app_nil_r].
  destruct (filter _ ls) as [|e f] eqn:E; [done|].
  assert (e ∈ filter (λ l, message l ∉ (list_to_set (messages (logs item1))
                                         : gset string)) ls) as He
    by (rewrite E; apply list_elem_of_here).
  apply list_elem_of_filter in He as [Hfresh He].
  destruct Hfresh. apply elem_of_list_to_set. by apply Hall.
Qed.

Lemma updateHistoryItem_same_payload_twice_witness :
  let u := with_logs noUpdates [mkLog "a" "error" None; mkLog "b" "info" None] in
  let st1 := (updateHistoryItem "t1" u 2000
                (oneTask [mkLog "a" "info" None])).1 in
  ∃ st2 item1 item2,
    updateHistoryItem "t1" u 3000 st1 = (st2, true)
    ∧ recordOf "t1" st1 = Some item1 ∧ recordOf "t1" st2 = Some item2
    ∧ logs item2 = logs item1.
Proof.
  apply (updateHistoryItem_same_payload_twice "t1"
           (with_logs noUpdates [mkLog "a" "error" None; mkLog "b" "info" None])
           [mkLog "a" "error" None; mkLog "b" "info" None] 2000 3000
           (oneTask [mkLog "a" "info" None]));
    [vm_compute; reflexivity|reflexivity|discriminate].
Defined.

(** ** The final reconciliation *)



Lemma firstSeen_length (l : list LogEvent) :
  ∀ seen, (length (firstSeen seen l) ≤ length l)%nat.
Proof.
  induction l as [|x l IH]; intros seen; simpl; [lia|].
  case_decide; simpl.
  - specialize (IH seen). lia.
  - specialize (IH ({[message x]} ∪ seen)). lia.
Qed.

(** X9.  The merge loses no message and invents no event: its result
    holds exactly the messages of the dump and of the entry, each once;
    every event in it is an event of the dump or of the entry; it is no
    longer than the two together, and empty only when both are. *)
Theorem mergeLogs_content (backendLogs existingLogs : list LogEvent) :
  (∀ m, m ∈ messages (mergeLogs backendLogs existingLogs)
        ↔ m ∈ messages backendLogs ∨ m ∈ messages existingLogs)
  ∧ NoDup (messages (mergeLogs backendLogs existingLogs))
  ∧ (∀ e, e ∈ mergeLogs backendLogs existingLogs →
          e ∈ backendLogs ∨ e ∈ existingLogs)
  ∧ (length (mergeLogs backendLogs existingLogs)
     ≤ length backendLogs + length existingLogs)%nat
  ∧ (mergeLogs backendLogs existingLogs = []
     ↔ backendLogs = [] ∧ existingLogs = []).
Proof.
  assert (∀ m, m ∈ messages (mergeLogs backendLogs existingLogs)
               ↔ m ∈ messages backendLogs ∨ m ∈ messages existingLogs)
    as Hmsgs.
  { intros m. unfold messages at 1. rewrite mergeLogs_perm.
    fold (messages (firstSeen ∅ (backendLogs ++ existingLogs))).
    rewrite firstSeen_messages. unfold messages.
    rewrite fmap_app, elem_of_app. set_solver. }
  assert (∀ e, e ∈ mergeLogs backendLogs existingLogs →
               e ∈ backendLogs ∨ e ∈ existingLogs) as Hev.
  { intros e He.
    assert (lookupMessage (message e) (mergeLogs backendLogs existingLogs)
            = Some e) as Hl.
    { pose proof (mergeLogs_NoDup backendLogs existingLogs) as Hnd.
      pose proof (filter_message_short (message e) _ Hnd) as Hlen.
      assert (e ∈ filter (λ x, message x = message e)
                    (mergeLogs backendLogs existingLogs)) as Hin
        by (by apply list_elem_of_filter).
      unfold lookupMessage.
      destruct (filter _ (mergeLogs backendLogs existingLogs))
        as [|a [|b f]]; simpl in *; [by apply elem_of_nil in Hin| |lia].
      apply list_elem_of_singleton in Hin. by rewrite Hin. }
    rewrite mergeLogs_lookup in Hl.
    apply lookupMessage_Some in Hl as [Hin _].
    by apply elem_of_app in Hin. }
  split_and!; [done|apply mergeLogs_NoDup|done|..].
  - rewrite mergeLogs_perm, <- length_app. apply firstSeen_length.
  - split.
    + intros Hnil.
      assert (∀ m, ¬ (m ∈ messages backendLogs ∨ m ∈ messages existingLogs))
        as Hno.
      { intros m Hm. apply Hmsgs in Hm. rewrite Hnil in Hm.
        by apply elem_of_nil in Hm. }
      split.
      * destruct backendLogs as [|e l]; [done|].
        destruct (Hno (message e)). left. apply list_elem_of_here.
      * destruct existingLogs as [|e l]; [done|].
        destruct (Hno (message e)). right. apply list_elem_of_here.
    + by intros [-> ->].
Qed.

Lemma mergeLogs_content_witness :
  let backendLogs := [mkLog "a" "error" None; mkLog "b" "info" (Some 5)] in
  let existingLogs := [mkLog "a" "info" None] in
  ("b" ∈ messages (mergeLogs backendLogs existingLogs))
  ∧ (mkLog "a" "error" None ∈ backendLogs
     ∨ mkLog "a" "error" None ∈ existingLogs)
  ∧ mergeLogs backendLogs existingLogs ≠ [].
Proof.
  cbv zeta.
  destruct (mergeLogs_content
              [mkLog "a" "error" None; mkLog "b" "info" (Some 5)]
              [mkLog "a" "info" None]) as (Hmsgs & _ & Hev & _ & Hnil).
  split_and!.
  - apply Hmsgs. left. vm_compute. apply list_elem_of_further, list_elem_of_here.
  - apply Hev. vm_compute. apply list_elem_of_here.
  - intros Hempty. apply Hnil in Hempty as [Hb _]. discriminate Hb.
Defined.

(** ** Order of events with equal times *)

Lemma insertByTime_same_time (t : Z) (a : LogEvent) (l : list LogEvent) :
  filter (λ e, timeOf e = t) (insertByTime a l)
  = filter (λ e, timeOf e = t) (a :: l).
Proof.
  induction l as [|b l IH]; simpl; [done|].
  destruct (decide (timeOf a - timeOf b ≤ 0)) as [Hle|Hgt]; [done|].
  rewrite (filter_cons _ b), IH, !(filter_cons _ a), (filter_cons _ b).
  destruct (decide (timeOf a = t)), (decide (timeOf b = t)); try done.
  lia.
Qed.

(** The events of one time come out of the sort in the order they went
    in. *)
Lemma sortByTime_same_time (l : list LogEvent) (t : Z) :
  filter (λ e, timeOf e = t) (sortByTime l) = filter (λ e, timeOf e = t) l.
Proof.
  induction l as [|a l IH]; simpl; [done|].
  by rewrite insertByTime_same_time, !filter_cons, IH.
Qed.

(** Two sequences in order of time that agree time by time are equal. *)
Lemma sorted_by_time_unique (l1 : list LogEvent) :
  ∀ l2, StronglySorted byTime l1 → StronglySorted byTime l2 →
        (∀ t, filter (λ e, timeOf e = t) l1 = filter (λ e, timeOf e = t) l2) →
        l1 = l2.
Proof.
  induction l1 as [|a l1 IH]; intros l2 Hs1 Hs2 Hsame.
  - destruct l2 as [|b l2]; [done|].
    specialize (Hsame (timeOf b)). by rewrite filter_cons_True in Hsame.
  - destruct l2 as [|b l2].
    { specialize (Hsame (timeOf a)). by rewrite filter_cons_True in Hsame. }
    apply StronglySorted_inv in Hs1 as [Hs1 Hall1].
    apply StronglySorted_inv in Hs2 as [Hs2 Hall2].
    assert (timeOf b ≤ timeOf a) as Hba.
    { assert (a ∈ filter (λ e, timeOf e = timeOf a) (b :: l2)) as Ha
        by (rewrite <- Hsame, filter_cons_True by done; apply list_elem_of_here).
      apply list_elem_of_filter in Ha as [_ Ha].
      apply elem_of_cons in Ha as [->|Ha]; [done|].
      rewrite Forall_forall in Hall2. by apply Hall2. }
    assert (timeOf a ≤ timeOf b) as Hab.
    { assert (b ∈ filter (λ e, timeOf e = timeOf b) (a :: l1)) as Hb
        by (rewrite Hsame, filter_cons_True by done; apply list_elem_of_here).
      apply list_elem_of_filter in Hb as [_ Hb].
      apply elem_of_cons in Hb as [->|Hb]; [done|].
      rewrite Forall_forall in Hall1. by apply Hall1. }
    assert (a = b) as <-.
    { specialize (Hsame (timeOf a)).
      rewrite filter_cons_True in Hsame by done.
      rewrite filter_cons_True in Hsame by lia. by injection Hsame. }
    f_equal. apply IH; [done|done|].
    intros t. specialize (Hsame t). rewrite !filter_cons in Hsame.
    destruct (decide (timeOf a = t)); [by injection Hsame|done].
Qed.

(** X10.  The sort is stable, and that settles its result: it returns the
    same events in ascending order of time, the events of any one time
    (those without a timestamp count as time 0) in the order they went in,
    and no other arrangement of the events does both. *)
Theorem sortByTime_stable (l : list LogEvent) :
  sortByTime l ≡ₚ l
  ∧ StronglySorted byTime (sortByTime l)
  ∧ (∀ t, filter (λ e, timeOf e = t) (sortByTime l)
          = filter (λ e, timeOf e = t) l)
  ∧ (∀ l', StronglySorted byTime l' →
           (∀ t, filter (λ e, timeOf e = t) l'
                 = filter (λ e, timeOf e = t) l) →
           l' = sortByTime l).
Proof.
  split_and!.
  - apply sortByTime_perm.
  - apply sortByTime_sorted.
  - apply sortByTime_same_time.
  - intros l' Hsorted Hsame. apply sorted_by_time_unique.
    + done.
    + apply sortByTime_sorted.
    + intros t. by rewrite sortByTime_same_time.
Qed.

Lemma sortByTime_stable_witness :
  [mkLog "b" "info" None; mkLog "a" "info" (Some 0); mkLog "c" "info" (Some 5)]
  = sortByTime [mkLog "c" "info" (Some 5); mkLog "b" "info" None;
                mkLog "a" "info" (Some 0)].
Proof.
  apply (proj2 (proj2 (proj2 (sortByTime_stable
                                [mkLog "c" "info" (Some 5);
                                 mkLog "b" "info" None;
                                 mkLog "a" "info" (Some 0)])))).
  - exact (sortByTime_sorted [mkLog "c" "info" (Some 5); mkLog "b" "info" None;
                              mkLog "a" "info" (Some 0)]).
  - intros t. rewrite !filter_cons. unfold timeOf. simpl.
    repeat case_decide; try done; lia.
Defined.

Lemma filter_agree {A : Type} (P Q : A → Prop)
    `{!∀ x, Decision (P x), !∀ x, Decision (Q x)} (l : list A) :
  Forall (λ x, P x ↔ Q x) l → filter P l = filter Q l.
Proof.
  induction 1 as [|x l Hx _ IH]; [done|].
  rewrite !filter_cons, IH. apply decide_ext. done.
Qed.

Lemma filter_all {A : Type} (P : A → Prop) `{!∀ x, Decision (P x)}
    (l : list A) :
  Forall P l → filter P l = l.
Proof.
  induction 1 as [|x l Hx _ IH]; [done|].
  by rewrite filter_cons_True, IH.
Qed.

Lemma filter_none {A : Type} (P : A → Prop) `{!∀ x, Decision (P x)}
    (l : list A) :
  Forall (λ x, ¬ P x) l → filter P l = [].
Proof.
  induction 1 as [|x l Hx _ IH]; [done|].
  by rewrite filter_cons_False, IH.
Qed.

Lemma filter_swap {A : Type} (P Q : A → Prop)
    `{!∀ x, Decision (P x), !∀ x, Decision (Q x)} (l : list A) :
  filter P (filter Q l) = filter Q (filter P l).
Proof. rewrite !list_filter_filter. apply list_filter_iff. tauto. Qed.

Lemma firstSeen_fresh (l : list LogEvent) (seen : gset string) :
  Forall (λ e, message e ∉ seen) (firstSeen seen l).
Proof.
  apply Forall_forall. intros e He.
  assert (message e ∈ messages (firstSeen seen l)) as Hm
    by (by apply list_elem_of_fmap_2).
  apply firstSeen_messages in Hm. tauto.
Qed.

Lemma firstSeen_filter (l : list LogEvent) :
  ∀ seen, NoDup (messages l) →
          firstSeen seen l = filter (λ e, message e ∉ seen) l.
Proof.
  unfold messages.
  induction l as [|x l IH]; intros seen Hnd; simpl; [done|].
  cbn in Hnd. apply NoDup_cons in Hnd as [Hnotin Hnd].
  rewrite filter_cons. destruct (decide (message x ∈ seen)) as [Hin|Hnin].
  - rewrite decide_False by (intros Hn; by apply Hn). by apply IH.
  - rewrite decide_True by done. f_equal.
    rewrite IH by done. apply filter_agree.
    apply Forall_forall. intros e He.
    rewrite not_elem_of_union, not_elem_of_singleton.
    split; [tauto|]. intros Hs. split; [|done].
    intros Heq. apply Hnotin. rewrite <- Heq. by apply list_elem_of_fmap_2.
Qed.

(** Merging the dump with the result of merging it changes nothing. *)
Lemma mergeLogs_again (backendLogs existingLogs : list LogEvent) :
  mergeLogs backendLogs (mergeLogs backendLogs existingLogs)
  = mergeLogs backendLogs existingLogs.
Proof.
  apply sorted_by_time_unique; [apply mergeLogs_sorted..|].
  intros t. unfold mergeLogs at 1 3.
  rewrite !sortByTime_same_time, !dedupByMessage_firstSeen, !firstSeen_app.
  rewrite !filter_app. f_equal.
  set (seen := list_to_set (messages backendLogs) ∪ (∅ : gset string)).
  rewrite (firstSeen_filter (mergeLogs backendLogs existingLogs))
    by apply mergeLogs_NoDup.
  rewrite filter_swap. unfold mergeLogs.
  rewrite sortByTime_same_time, dedupByMessage_firstSeen, firstSeen_app.
  fold seen. rewrite (filter_swap _ (λ e, timeOf e = t)), filter_app.
  rewrite (filter_none _ (firstSeen ∅ backendLogs)).
  - simpl. f_equal. apply filter_all, firstSeen_fresh.
  - apply Forall_forall. intros e He Hfresh. apply Hfresh.
    unfold seen. apply elem_of_union_l, elem_of_list_to_set.
    apply (firstSeen_messages backendLogs ∅).
    by apply list_elem_of_fmap_2.
Qed.

(** X11.  Running the final reconciliation a second time with the same dump
    finds the entry again and leaves its [logs] and [allLogs] as the first
    run left them. *)
Theorem saveCompleteLogsToHistory_twice (tid : string)
    (backendLogs : list LogEvent) (now now' : Z) (st st1 : Storage) :
  saveCompleteLogsToHistory tid backendLogs now st = (st1, true) →
  ∃ st2 item1 item2,
    saveCompleteLogsToHistory tid backendLogs now' st1 = (st2, true)
    ∧ recordOf tid st1 = Some item1 ∧ recordOf tid st2 = Some item2
    ∧ logs item2 = logs item1 ∧ allLogs item2 = allLogs item1
    ∧ item2 = withCompleteLogs item1 (logs item1) (allLogs item1) now'.
Proof.
  intros Hfirst.
  assert (writable st1 = true) as Hw1.
  { destruct (saveCompleteLogsToHistory_cases tid backendLogs now st)
      as [[Heq _]|(i & it & _ & _ & Heq)]; rewrite Heq in Hfirst;
      [done|by injection Hfirst as <-]. }
  apply saveCompleteLogsToHistory_true in Hfirst as (item & _ & _ & Hrec1).
  destruct (saveCompleteLogsToHistory_found tid backendLogs now' st1 _
              Hrec1 Hw1) as (st2 & Hsecond & _ & Hrec2).
  eexists st2, _, _. split_and!; [done|done|done|..]; simpl.
  - apply mergeLogs_again.
  - done.
  - by rewrite mergeLogs_again.
Qed.

Lemma saveCompleteLogsToHistory_twice_witness :
  let dump := [mkLog "b" "info" (Some 7); mkLog "a" "error" (Some 7)] in
  let st1 := (saveCompleteLogsToHistory "t1" dump 2000
                (oneTask [mkLog "a" "info" (Some 1); mkLog "c" "info" None])).1 in
  ∃ st2 item1 item2,
    saveCompleteLogsToHistory "t1" dump 3000 st1 = (st2, true)
    ∧ recordOf "t1" st1 = Some item1 ∧ recordOf "t1" st2 = Some item2
    ∧ logs item2 = logs item1 ∧ allLogs item2 = allLogs item1
    ∧ item2 = withCompleteLogs item1 (logs item1) (allLogs item1) 3000.
Proof.
  apply (saveCompleteLogsToHistory_twice "t1"
           [mkLog "b" "info" (Some 7); mkLog "a" "error" (Some 7)] 2000 3000
           (oneTask [mkLog "a" "info" (Some 1); mkLog "c" "info" None])).
  vm_compute. reflexivity.
Defined.

(** ** Deleting and clearing *)

Lemma deleteFromHistory_cases (i : string) (st : Storage) :
  (deleteFromHistory i st = (st, false)
   ∧ (readHistory st = None ∨ writable st = false))
  ∨ (is_Some (readHistory st) ∧ writable st = true
     ∧ deleteFromHistory i st
       = (mkStorage (Saved (filter (λ item, id item ≠ i) (getHistory st)))
            true, true)).
Proof.
  unfold deleteFromHistory, setItem, getHistory.
  destruct (readHistory st) as [h|]; simpl; [|left; auto].
  destruct (writable st); simpl; [|left; auto].
  right. eauto.
Qed.

Lemma list_find_filter_keep {A : Type} (P Q : A → Prop)
    `{!∀ x, Decision (P x), !∀ x, Decision (Q x)} (l : list A) (x : A) :
  snd <$> list_find P l = Some x → Q x →
  snd <$> list_find P (filter Q l) = Some x.
Proof.
  induction l as [|y l IH]; intros Hfind Hq; [done|].
  simpl in Hfind. rewrite filter_cons.
  destruct (decide (P y)) as [Hp|Hnp]; simpl in Hfind.
  - injection Hfind as ->. rewrite decide_True by done.
    simpl. by rewrite decide_True.
  - assert (snd <$> list_find P l = Some x) as Hrest
      by (by destruct (list_find P l) as [[j z]|]).
    destruct (decide (Q y)); [|by apply IH].
    simpl. rewrite decide_False by done.
    specialize (IH Hrest Hq).
    by destruct (list_find P (filter Q l)) as [[j z]|].
Qed.

Lemma length_filter_one (i : string) (h : list HistoryItem) :
  NoDup (id <$> h) → i ∈ id <$> h →
  S (length (filter (λ item, id item ≠ i) h)) = length h.
Proof.
  induction h as [|x h IH]; intros Hnd Hin; [by apply elem_of_nil in Hin|].
  cbn in Hnd. apply NoDup_cons in Hnd as [Hnotin Hnd].
  rewrite filter_cons. destruct (decide (id x ≠ i)) as [Hne|Heq].
  - simpl. f_equal. apply IH; [done|].
    cbn in Hin. apply elem_of_cons in Hin as [Hin|Hin]; [by destruct Hne|done].
  - assert (id x = i) as Hi by (by destruct (decide (id x = i))).
    simpl. f_equal. rewrite filter_all; [done|].
    apply Forall_forall. intros y Hy Heq'. apply Hnotin.
    rewrite Hi, <- Heq'. by apply list_elem_of_fmap_2.
Qed.

(** X12.  After a deletion that succeeded no entry has the given id, the
    other entries are all there in their order, and an entry that was
    addressed by a task id is still the one addressed by it unless it was
    the one deleted.  The call succeeds whether or not an entry had the id;
    when none had it the history is unchanged, and when ids are distinct
    and one had it the history is shorter by exactly one entry. *)
Theorem deleteFromHistory_removes (i : string) (st st' : Storage) :
  deleteFromHistory i st = (st', true) →
  getHistory st' = filter (λ item, id item ≠ i) (getHistory st)
  ∧ (i ∉ id <$> getHistory st')
  ∧ (∀ x, x ∈ getHistory st → id x ≠ i → x ∈ getHistory st')
  ∧ (∀ tid x, recordOf tid st = Some x → id x ≠ i →
              recordOf tid st' = Some x)
  ∧ (i ∉ id <$> getHistory st → getHistory st' = getHistory st)
  ∧ (NoDup (id <$> getHistory st) → i ∈ id <$> getHistory st →
     S (length (getHistory st')) = length (getHistory st)).
Proof.
  intros Hdel.
  destruct (deleteFromHistory_cases i st) as [[Heq _]|(_ & _ & Heq)];
    rewrite Heq in Hdel; [done|]. injection Hdel as <-.
  change (getHistory {| content := Saved ?h; writable := true |}) with h.
  cbv beta. split_and!.
  - done.
  - intros (x & Hx & Hin)%list_elem_of_fmap.
    apply list_elem_of_filter in Hin as [Hne _]. by apply Hne.
  - intros x Hx Hne. by apply list_elem_of_filter.
  - intros tid x Hrec Hne. unfold recordOf, findIndex in *.
    change (getHistory {| content := Saved ?h; writable := true |}) with h.
    by apply list_find_filter_keep.
  - intros Hnotin. apply filter_all, Forall_forall.
    intros x Hx Heq'. apply Hnotin. rewrite <- Heq'.
    by apply list_elem_of_fmap_2.
  - apply length_filter_one.
Qed.

Lemma deleteFromHistory_removes_witness :
  let st := (saveToHistory otherTask "id-2" 7000
               (oneTask [mkLog "a" "info" None])).1 in
  let st' := (deleteFromHistory "id-2" st).1 in
  ("id-2" ∉ id <$> getHistory st')
  ∧ recordOf "t1" st'
    = Some (historyItem (taskWith [mkLog "a" "info" None]) "id-1" 1000)
  ∧ S (length (getHistory st')) = length (getHistory st)
  ∧ getHistory (deleteFromHistory "id-9" st).1 = getHistory st.
Proof.
  cbv zeta.
  destruct (deleteFromHistory_removes "id-2"
              (saveToHistory otherTask "id-2" 7000
                 (oneTask [mkLog "a" "info" None])).1
              (deleteFromHistory "id-2"
                 (saveToHistory otherTask "id-2" 7000
                    (oneTask [mkLog "a" "info" None])).1).1)
    as (_ & Hgone & _ & Hrec & _ & Hlen); [vm_compute; reflexivity|].
  destruct (deleteFromHistory_removes "id-9"
              (saveToHistory otherTask "id-2" 7000
                 (oneTask [mkLog "a" "info" None])).1
              (deleteFromHistory "id-9"
                 (saveToHistory otherTask "id-2" 7000
                    (oneTask [mkLog "a" "info" None])).1).1)
    as (_ & _ & _ & _ & Hsame & _); [vm_compute; reflexivity|].
  split_and!.
  - exact Hgone.
  - apply Hrec; [vm_compute; reflexivity|discriminate].
  - apply Hlen.
    + vm_compute. apply NoDup_cons. split; [|apply NoDup_singleton].
      intros Hin. apply list_elem_of_singleton in Hin. discriminate Hin.
    + vm_compute. apply list_elem_of_here.
  - apply Hsame. vm_compute. intros Hin.
    repeat (apply elem_of_cons in Hin as [Hin|Hin]; [discriminate Hin|]).
    by apply elem_of_nil in Hin.
Defined.

(** X13.  A stored text that cannot be read is never repaired by the
    store's own writes: every insert, update, final reconciliation and
    deletion fails and leaves it in place, and the history reads as empty.
    Clearing removes it, after which an insert succeeds as soon as the
    storage takes writes. *)
Theorem garbled_until_cleared (st : Storage) :
  content st = Garbled →
  (∀ ops, OpClear ∉ ops →
          applyOps ops st = st ∧ getHistory (applyOps ops st) = [])
  ∧ (∀ taskData uuid now,
       writable st = true →
       getHistory (saveToHistory taskData uuid now (clearHistory st)).1
       = [historyItem taskData uuid now]).
Proof.
  intros Hg.
  assert (readHistory st = None) as Hread
    by (unfold readHistory; by rewrite Hg).
  split.
  - intros ops Hno.
    assert (applyOps ops st = st) as Heq.
    { unfold applyOps. induction ops as [|op ops IH]; simpl; [done|].
      apply not_elem_of_cons in Hno as [Hne Hno].
      assert (applyOp st op = st) as ->; [|by apply IH].
      destruct op; simpl; [| | | |done].
      - unfold saveToHistory. by rewrite Hread.
      - unfold updateHistoryItem. by rewrite Hread.
      - unfold saveCompleteLogsToHistory. by rewrite Hread.
      - unfold deleteFromHistory. by rewrite Hread. }
    split; [done|]. rewrite Heq. unfold getHistory. by rewrite Hread.
  - intros taskData uuid now Hw.
    unfold saveToHistory, clearHistory, setItem, readHistory. simpl.
    rewrite Hw. simpl. done.
Qed.

Lemma garbled_until_cleared_witness :
  applyOps [OpSave (taskWith []) "id-1" 1000;
            OpUpdate "t1" (with_logs noUpdates [mkLog "a" "info" None]) 2000;
            OpDelete "id-1"] (mkStorage Garbled true)
  = mkStorage Garbled true
  ∧ getHistory (saveToHistory (taskWith []) "id-1" 1000
                  (clearHistory (mkStorage Garbled true))).1
    = [historyItem (taskWith []) "id-1" 1000].
Proof.
  destruct (garbled_until_cleared (mkStorage Garbled true) eq_refl)
    as [Hstuck Hrepair].
  split.
  - apply Hstuck. intros Hin.
    repeat (apply elem_of_cons in Hin as [Hin|Hin]; [discriminate Hin|]).
    by apply elem_of_nil in Hin.
  - apply Hrepair. reflexivity.
Defined.

(** ** Sequences of calls *)

(** The ids of the history after a call: those before, in their order,
    possibly fewer, possibly with the fresh id in front. *)
Lemma applyOp_ids (st : Storage) (op : StoreOp) :
  (id <$> getHistory (applyOp st op))
    `sublist_of` (uuidOf op ++ (id <$> getHistory st)).
Proof.
  destruct op as [taskData uuid now|tid updates now|tid backendLogs now|i|];
    simpl.
  - destruct (saveToHistory taskData uuid now st) as [st' [j|]] eqn:Hsave;
      simpl.
    + apply saveToHistory_Some in Hsave as (existing & Hread & _ & ->).
      rewrite capHistory_take.
      assert (getHistory st = existing) as ->
        by (unfold getHistory; by rewrite Hread).
      change (uuid :: (id <$> existing))
        with (id <$> (historyItem taskData uuid now :: existing)).
      apply fmap_sublist, sublist_take.
    + apply saveToHistory_None in Hsave as ->.
      by apply sublist_cons.
  - pose proof (updateHistoryItem_sameElsewhere tid updates now st) as Hsame.
    apply sameElsewhere_lookup in Hsame as (_ & -> & _). done.
  - pose proof (saveCompleteLogsToHistory_sameElsewhere tid backendLogs now
                  st) as Hsame.
    apply sameElsewhere_lookup in Hsame as (_ & -> & _). done.
  - destruct (deleteFromHistory_cases i st) as [[-> _]|(_ & _ & ->)]; simpl;
      [done|].
    change (getHistory {| content := Saved ?h; writable := true |}) with h.
    apply fmap_sublist, sublist_filter.
  - apply sublist_nil_l.
Qed.

Lemma applyOp_capacity (st : Storage) (op : StoreOp) :
  (length (getHistory st) ≤ MAX_HISTORY_ITEMS)%nat →
  (length (getHistory (applyOp st op)) ≤ MAX_HISTORY_ITEMS)%nat.
Proof.
  intros Hlen.
  destruct op as [taskData uuid now|tid updates now|tid backendLogs now|i|];
    simpl.
  - destruct (saveToHistory taskData uuid now st) as [st' [j|]] eqn:Hsave;
      simpl.
    + apply saveToHistory_Some in Hsave as (existing & _ & _ & ->).
      apply capHistory_length.
    + by apply saveToHistory_None in Hsave as ->.
  - pose proof (updateHistoryItem_sameElsewhere tid updates now st) as Hsame.
    apply sameElsewhere_lookup in Hsame as (-> & _). done.
  - pose proof (saveCompleteLogsToHistory_sameElsewhere tid backendLogs now
                  st) as Hsame.
    apply sameElsewhere_lookup in Hsame as (-> & _). done.
  - destruct (deleteFromHistory_cases i st) as [[-> _]|(_ & _ & ->)]; simpl;
      [done|].
    change (getHistory {| content := Saved ?h; writable := true |}) with h.
    pose proof (length_filter (λ item, id item ≠ i) (getHistory st)). lia.
  - unfold MAX_HISTORY_ITEMS. simpl. lia.
Qed.

(** X14.  The store never grows beyond its limit: from a history of at
    most 100 entries, any sequence of inserts, updates, final
    reconciliations, deletions and clearings, failed calls included, leaves
    at most 100 entries; and only inserts add entries, one at a time. *)
Theorem store_capacity_invariant (ops : list StoreOp) (st : Storage) :
  (length (getHistory st) ≤ 100)%nat →
  (length (getHistory (applyOps ops st)) ≤ 100)%nat
  ∧ (length (getHistory (applyOps ops st))
     ≤ length (getHistory st) + length (flat_map uuidOf ops))%nat.
Proof.
  intros Hlen. split.
  - unfold applyOps. revert st Hlen.
    induction ops as [|op ops IH]; intros st Hlen; simpl; [done|].
    apply IH. by apply applyOp_capacity.
  - clear Hlen. unfold applyOps. revert st.
    induction ops as [|op ops IH]; intros st; simpl; [lia|].
    specialize (IH (applyOp st op)).
    pose proof (sublist_length _ _ (applyOp_ids st op)) as Hstep.
    rewrite length_app, !length_fmap in Hstep.
    rewrite length_app. lia.
Qed.

Lemma store_capacity_invariant_witness :
  (length (getHistory
             (applyOps [OpSave (taskWith []) "id-a" 1; OpDelete "id-0";
                        OpSave otherTask "id-b" 2;
                        OpUpdate "t-old" noUpdates 3] fullStore)) ≤ 100)%nat.
Proof.
  apply (store_capacity_invariant
           [OpSave (taskWith []) "id-a" 1; OpDelete "id-0";
            OpSave otherTask "id-b" 2; OpUpdate "t-old" noUpdates 3]
           fullStore).
  vm_compute. lia.
Defined.

(** X15.  Entry ids stay distinct: when the ids in the history are
    distinct and the ids drawn for the inserts are distinct and new, then
    after any sequence of calls the ids in the history are distinct, and
    each is one of those. *)
Theorem store_ids_distinct (ops : list StoreOp) (st : Storage) :
  NoDup (flat_map uuidOf ops ++ (id <$> getHistory st)) →
  NoDup (id <$> getHistory (applyOps ops st))
  ∧ (∀ i, i ∈ id <$> getHistory (applyOps ops st) →
          i ∈ flat_map uuidOf ops ∨ i ∈ id <$> getHistory st).
Proof.
  unfold applyOps. revert st.
  induction ops as [|op ops IH]; intros st Hnd; simpl in *.
  - split; [done|]. intros i Hi. by right.
  - pose proof (applyOp_ids st op) as Hsub.
    assert (NoDup (flat_map uuidOf ops ++ uuidOf op ++ (id <$> getHistory st)))
      as Hnd2.
    { rewrite (Permutation_app_comm (uuidOf op)), <- app_assoc in Hnd.
      done. }
    destruct (IH (applyOp st op)) as [Hnd' Hin'].
    { eapply sublist_NoDup; [exact Hnd2|]. by apply sublist_app. }
    split; [done|].
    intros i Hi. apply Hin' in Hi as [Hi|Hi].
    + left. apply elem_of_app. by right.
    + assert (i ∈ uuidOf op ++ (id <$> getHistory st)) as Hi2
        by (by eapply elem_of_sublist).
      apply elem_of_app in Hi2 as [Hi2|Hi2]; [left|by right].
      apply elem_of_app. by left.
Qed.

Lemma store_ids_distinct_witness :
  NoDup (id <$> getHistory
           (applyOps [OpSave (taskWith []) "id-a" 1; OpDelete "id-1";
                      OpSave otherTask "id-b" 2]
              (oneTask []))).
Proof.
  apply (store_ids_distinct
           [OpSave (taskWith []) "id-a" 1; OpDelete "id-1";
            OpSave otherTask "id-b" 2] (oneTask [])).
  vm_compute.
  repeat (apply NoDup_cons; split;
          [intros Hin;
           repeat (apply elem_of_cons in Hin as [Hin|Hin];
                   [discriminate Hin|]);
           by apply elem_of_nil in Hin|]).
  apply NoDup_nil_2.
Defined.

(** * Further properties of the poller *)

Lemma keepsRecord_refl (item : HistoryItem) : keepsRecord item item.
Proof. unfold keepsRecord. naive_solver. Qed.

Lemma keepsRecord_trans (a b c : HistoryItem) :
  keepsRecord a b → keepsRecord b c → keepsRecord a c.
Proof.
  unfold keepsRecord. intros (? & ? & ? & ? & ? & ? & ? & Hab)
    (? & ? & ? & ? & ? & ? & ? & Hbc).
  split_and!; try congruence. intros m Hm. by apply Hbc, Hab.
Qed.

Lemma spread_other_fields (item : HistoryItem) (updates : Updates) (now : Z) :
  let item' := spread item (mergeUpdateLogs item updates) now in
  duration item' = from_option Some (duration item) (u_duration updates)
  ∧ updatedAt item' = Some now.
Proof.
  unfold mergeUpdateLogs.
  destruct (u_logs updates) as [ls|]; [case_decide|]; simpl;
    split; by destruct updates as [? ? ? [?|] ? ?].
Qed.

(** An update whose payload is not empty, seen on the entry. *)
Lemma spread_payload (item : HistoryItem) (updates : Updates)
    (ls : list LogEvent) (now : Z) :
  u_logs updates = Some ls → ls ≠ [] →
  let item' := spread item (mergeUpdateLogs item updates) now in
  keepsRecord item item'
  ∧ logs item `prefix_of` logs item'
  ∧ (∀ e, e ∈ ls → message e ∈ messages (logs item'))
  ∧ (∀ m, m ∈ messages (logs item') →
          m ∈ messages (logs item) ∨ m ∈ messages ls).
Proof.
  intros Hls Hne. cbv zeta.
  assert (logs (spread item (mergeUpdateLogs item updates) now)
          = logs item
            ++ filter (λ l, message l ∉ (list_to_set (messages (logs item))
                                          : gset string)) ls) as Hlogs
    by (by apply update_logs_nonempty).
  split_and!.
  - unfold keepsRecord. split_and!; [done..|].
    intros m Hm. rewrite Hlogs. unfold messages.
    rewrite fmap_app, elem_of_app. by left.
  - rewrite Hlogs. by apply prefix_app_r.
  - intros e He. rewrite Hlogs. unfold messages.
    rewrite fmap_app, elem_of_app.
    destruct (decide (message e ∈ message <$> logs item)) as [Hin|Hnin];
      [by left|right].
    apply list_elem_of_fmap_2, list_elem_of_filter. split; [|done].
    by rewrite elem_of_list_to_set.
  - intros m. rewrite Hlogs. unfold messages.
    rewrite fmap_app, elem_of_app. intros [Hm|Hm]; [by left|right].
    apply list_elem_of_fmap in Hm as (e & -> & He).
    apply list_elem_of_filter in He as [_ He].
    by apply list_elem_of_fmap_2.
Qed.

(** The final reconciliation, seen on the entry. *)
Lemma withCompleteLogs_grows (item : HistoryItem)
    (backendLogs : list LogEvent) (now : Z) :
  let item' := withCompleteLogs item (mergeLogs backendLogs (logs item))
                 backendLogs now in
  keepsRecord item item'
  ∧ (∀ e, e ∈ backendLogs → message e ∈ messages (logs item'))
  ∧ (∀ m, m ∈ messages (logs item') →
          m ∈ messages backendLogs ∨ m ∈ messages (logs item)).
Proof.
  cbv zeta. simpl.
  assert (∀ m, m ∈ messages (mergeLogs backendLogs (logs item))
               ↔ m ∈ messages backendLogs ∨ m ∈ messages (logs item))
    as Hmsgs.
  { intros m. unfold messages at 1. rewrite mergeLogs_perm.
    fold (messages (firstSeen ∅ (backendLogs ++ logs item))).
    rewrite firstSeen_messages. unfold messages.
    rewrite fmap_app, elem_of_app. set_solver. }
  split_and!.
  - unfold keepsRecord. split_and!; [done..|]. simpl.
    intros m Hm. apply Hmsgs. by right.
  - intros e He. apply Hmsgs. left. by apply list_elem_of_fmap_2.
  - intros m Hm. by apply Hmsgs.
Qed.

Section PollSteps.
Variables (id_ : string) (startTime_ : Z) (capturedLogs : list LogEvent).

(** The update every branch ends with: a payload [capturedLogs ++ [e]]. *)
Lemma final_update (updates : Updates) (e : LogEvent) (now : Z)
    (st : Storage) (item : HistoryItem) :
  u_logs updates = Some (capturedLogs ++ [e]) →
  recordOf id_ st = Some item → writable st = true →
  ∃ st' item',
    updateHistoryItem id_ updates now st = (st', true)
    ∧ writable st' = true ∧ recordOf id_ st' = Some item'
    ∧ item' = spread item (mergeUpdateLogs item updates) now
    ∧ keepsRecord item item'
    ∧ message e ∈ messages (logs item')
    ∧ (∀ c, c ∈ capturedLogs → message c ∈ messages (logs item'))
    ∧ (∀ m, m ∈ messages (logs item') →
            m ∈ messages (logs item) ∨ m ∈ messages capturedLogs
            ∨ m = message e).
Proof.
  intros Hls Hrec Hw.
  destruct (updateHistoryItem_found id_ updates now st item Hrec Hw)
    as (st' & Hup & Hw' & Hrec').
  destruct (spread_payload item updates (capturedLogs ++ [e]) now Hls)
    as (Hkeep & _ & Hall & Hfrom); [by destruct capturedLogs|].
  eexists st', _. split_and!; [done|done|done|done|done|..].
  - apply Hall. apply elem_of_app. right. apply list_elem_of_here.
  - intros c Hc. apply Hall. apply elem_of_app. by left.
  - intros m Hm. apply Hfrom in Hm as [Hm|Hm]; [by left|right].
    unfold messages in Hm. rewrite fmap_app, elem_of_app in Hm.
    destruct Hm as [Hm|Hm]; [by left|right].
    by apply list_elem_of_singleton in Hm.
Qed.

(** A response, as far as the updater of [setLogs] goes. *)
Lemma mergeResponse_record (newLogs : list LogEvent) (taskStatus : string)
    (now : Z) (p : PollerState) (st : Storage) (item : HistoryItem) :
  recordOf id_ st = Some item → writable st = true →
  ∃ p1 st1 item1,
    mergeResponse id_ newLogs taskStatus now p st = (p1, st1)
    ∧ attempt p1 = attempt p ∧ loading p1 = loading p
    ∧ errorText p1 = errorText p
    ∧ stateLogs p `prefix_of` stateLogs p1
    ∧ (∀ e, e ∈ newLogs → message e ∈ messages (stateLogs p1))
    ∧ writable st1 = true ∧ recordOf id_ st1 = Some item1
    ∧ keepsRecord item item1
    ∧ result item1 = result item ∧ error item1 = error item
    ∧ endTime item1 = endTime item ∧ allLogs item1 = allLogs item
    ∧ ((∀ m, m ∈ messages (stateLogs p) → m ∈ messages (logs item)) →
       ∀ m, m ∈ messages (stateLogs p1) → m ∈ messages (logs item1)).
Proof.
  intros Hrec Hw. unfold mergeResponse.
  set (fresh := filter _ newLogs).
  assert (∀ e, e ∈ newLogs → message e ∈ messages (stateLogs p ++ fresh))
    as Hshown.
  { intros e He. unfold messages. rewrite fmap_app, elem_of_app.
    destruct (decide (message e ∈ message <$> stateLogs p)) as [Hin|Hnin];
      [by left|right].
    apply list_elem_of_fmap_2, list_elem_of_filter. split; [|done].
    by rewrite elem_of_list_to_set. }
  destruct (decide (0 < length fresh)%nat) as [Hlen|Hlen].
  - set (u := mkUpdates _ _ _ _ _ _).
    destruct (updateHistoryItem_found id_ u now st item Hrec Hw)
      as (st1 & Hup & Hw1 & Hrec1).
    rewrite Hup. eexists _, st1, _.
    destruct (spread_fields item u now) as (_ & Hres & Herr & Hend & Hall).
    destruct (spread_payload item u (stateLogs p ++ fresh) now eq_refl)
      as (Hkeep & _ & Hpay & _).
    { destruct fresh; [simpl in Hlen; lia|]. by destruct (stateLogs p). }
    split_and!; [done|done|done|done|by apply prefix_app_r|done|done
                |exact Hrec1|done|done|done|done|done|].
    intros _ m (e & -> & He)%list_elem_of_fmap. by apply Hpay.
  - assert (fresh = []) as -> by (destruct fresh; [done|simpl in Hlen; lia]).
    eexists _, st, item.
    split_and!; [done|done|done|done|by apply prefix_app_r|done|done|done
                |apply keepsRecord_refl|done|done|done|done|].
    simpl. rewrite app_nil_r. done.
Qed.
End PollSteps.

Section PollRecord.
Variables (id_ : string) (startTime_ : Z) (capturedLogs : list LogEvent).

Lemma shown_append (p : PollerState) (e : LogEvent) (item item' : HistoryItem) :
  shownInRecord p item → keepsRecord item item' →
  message e ∈ messages (logs item') →
  shownInRecord (stopLoading (appendLog e p)) item'.
Proof.
  intros Hshown (_ & _ & _ & _ & _ & _ & _ & Hkeep) He m. simpl.
  unfold messages at 1. rewrite fmap_app, elem_of_app.
  intros [Hm|Hm]; [by apply Hkeep, Hshown|].
  apply list_elem_of_singleton in Hm. by rewrite Hm.
Qed.

(** One call of [poll] on an entry that is there, whatever the call meets. *)
Lemma poll_record (ev : PollEvent) (p : PollerState) (st : Storage)
    (item : HistoryItem) :
  recordOf id_ st = Some item → writable st = true →
  ∃ p' st' item' next,
    poll id_ startTime_ capturedLogs ev p st = (p', st', next)
    ∧ writable st' = true ∧ recordOf id_ st' = Some item'
    ∧ keepsRecord item item'
    ∧ stateLogs p `prefix_of` stateLogs p'
    ∧ (attempt p ≤ attempt p')%nat
    ∧ ((attempt p ≤ 10)%nat → (attempt p' ≤ 10)%nat)
    ∧ (shownInRecord p item → shownInRecord p' item').
Proof.
  intros Hrec Hw. unfold poll.
  destruct (fetch ev) as [dataLogs taskStatus|code msg] eqn:Hf.
  - destruct (mergeResponse_record id_ (default [] dataLogs) taskStatus
                (clock ev) p st item Hrec Hw)
      as (p1 & st1 & item1 & -> & Hatt & _ & _ & Hpre & _ & Hw1 & Hrec1
          & Hkeep1 & _ & _ & _ & _ & Hshown1).
    destruct (decide (taskStatus = "running")) as [_|_].
    { eexists p1, st1, item1, _.
      split_and!; [done|done|done|done|done|lia|lia|done]. }
    destruct (decide (taskStatus = "completed")) as [_|_].
    { unfold onCompleted.
      destruct (resultFetch ev) as [finalResult|].
      - destruct (saveCompleteLogsToHistory_found id_
                    (default [] (res_allLogs finalResult)) (clock ev) st1
                    item1 Hrec1 Hw1) as (st2 & -> & Hw2 & Hrec2).
        cbn [fst].
        destruct (withCompleteLogs_grows item1
                    (default [] (res_allLogs finalResult)) (clock ev))
          as (Hkeep2 & _).
        set (u := mkUpdates _ _ _ _ _ _).
        destruct (final_update id_ capturedLogs u (successEvent (clock ev))
                    (clock ev) st2 _ eq_refl Hrec2 Hw2)
          as (st3 & item3 & -> & Hw3 & Hrec3 & _ & Hkeep3 & Hin & _).
        eexists _, st3, item3, _.
        split_and!; [done|done|done| | |simpl; lia|simpl; lia|].
        + eapply keepsRecord_trans; [exact Hkeep1|].
          eapply keepsRecord_trans; [exact Hkeep2|exact Hkeep3].
        + simpl. etrans; [exact Hpre|]. by apply prefix_app_r.
        + intros Hshown.
          apply (shown_append p1 _ item1); [exact (Hshown1 Hshown)| |done].
          eapply keepsRecord_trans; [exact Hkeep2|exact Hkeep3].
      - set (u := mkUpdates _ _ _ _ _ _).
        destruct (final_update id_ capturedLogs u (noResultEvent (clock ev))
                    (clock ev) st1 _ eq_refl Hrec1 Hw1)
          as (st2 & item2 & -> & Hw2 & Hrec2 & _ & Hkeep2 & _).
        eexists _, st2, item2, _.
        split_and!; [done|done|done| |done|simpl; lia|simpl; lia|].
        + eapply keepsRecord_trans; [exact Hkeep1|exact Hkeep2].
        + intros Hshown m Hm. simpl in Hm.
          destruct Hkeep2 as (_ & _ & _ & _ & _ & _ & _ & Hk).
          by apply Hk, Hshown1. }
    destruct (decide (taskStatus = "failed")) as [_|_].
    { unfold onFailed.
      set (u := mkUpdates _ _ _ _ _ _).
      destruct (final_update id_ capturedLogs u (failedEvent (clock ev))
                  (clock ev) st1 _ eq_refl Hrec1 Hw1)
        as (st2 & item2 & -> & Hw2 & Hrec2 & _ & Hkeep2 & Hin & _).
      eexists _, st2, item2, _.
      split_and!; [done|done|done| | |simpl; lia|simpl; lia|].
      - eapply keepsRecord_trans; [exact Hkeep1|exact Hkeep2].
      - simpl. etrans; [exact Hpre|]. by apply prefix_app_r.
      - intros Hshown.
        apply (shown_append p1 _ item1); [exact (Hshown1 Hshown)|done|done]. }
    eexists p1, st1, item1, _.
    split_and!; [done|done|done|done|done|lia|lia|done].
  - unfold onError.
    destruct (decide (code = "ECONNABORTED" ∧ (attempt p < maxAttempts)%nat))
      as [[_ Hlt]|_].
    + eexists _, st, item, _.
      split_and!; [done|done|done|apply keepsRecord_refl|done|simpl; lia
                  |unfold maxAttempts in Hlt; simpl; lia|done].
    + set (u := mkUpdates _ _ _ _ _ _).
      destruct (final_update id_ capturedLogs u
                  (commErrorEvent msg (clock ev)) (clock ev) st item eq_refl
                  Hrec Hw)
        as (st2 & item2 & -> & Hw2 & Hrec2 & _ & Hkeep2 & _).
      eexists _, st2, item2, _.
      split_and!; [done|done|done|done|done|simpl; lia|simpl; lia|].
      intros Hshown m Hm. simpl in Hm.
      destruct Hkeep2 as (_ & _ & _ & _ & _ & _ & _ & Hk).
      by apply Hk, Hshown.
Qed.

Lemma pollFrom_record (trace : list PollEvent) :
  ∀ (p : PollerState) (st : Storage) (item : HistoryItem),
    recordOf id_ st = Some item → writable st = true →
    ∃ p' st' item' next,
      pollFrom id_ startTime_ capturedLogs trace p st = (p', st', next)
      ∧ writable st' = true ∧ recordOf id_ st' = Some item'
      ∧ keepsRecord item item'
      ∧ stateLogs p `prefix_of` stateLogs p'
      ∧ (attempt p ≤ attempt p')%nat
      ∧ ((attempt p ≤ 10)%nat → (attempt p' ≤ 10)%nat)
      ∧ (shownInRecord p item → shownInRecord p' item').
Proof.
  induction trace as [|ev rest IH]; intros p st item Hrec Hw; simpl.
  - eexists p, st, item, _.
    split_and!; [done|done|done|apply keepsRecord_refl|done|lia|done|done].
  - destruct (poll_record ev p st item Hrec Hw)
      as (p1 & st1 & item1 & next & -> & Hw1 & Hrec1 & Hkeep1 & Hpre1
          & Hatt1 & Hbound1 & Hshown1).
    destruct next as [d|].
    + destruct (IH p1 st1 item1 Hrec1 Hw1)
        as (p2 & st2 & item2 & next2 & -> & Hw2 & Hrec2 & Hkeep2 & Hpre2
            & Hatt2 & Hbound2 & Hshown2).
      eexists p2, st2, item2, next2.
      split_and!; [done|done|done| | |lia| |].
      * by eapply keepsRecord_trans.
      * by etrans.
      * intros Hle. by apply Hbound2, Hbound1.
      * intros Hs. by apply Hshown2, Hshown1.
    + by eexists p1, st1, item1, Stop.
Qed.

(** A call of [poll] touches entries of its own task only. *)
Lemma poll_sameElsewhere (ev : PollEvent) (p : PollerState) (st : Storage) :
  sameElsewhere id_ (getHistory st)
    (getHistory (poll id_ startTime_ capturedLogs ev p st).1.2).
Proof.
  pose proof (updateHistoryItem_sameElsewhere id_) as Hup.
  pose proof (saveCompleteLogsToHistory_sameElsewhere id_) as Hfin.
  unfold poll.
  destruct (fetch ev) as [dataLogs taskStatus|code msg].
  - assert (sameElsewhere id_ (getHistory st)
              (getHistory (mergeResponse id_ (default [] dataLogs) taskStatus
                             (clock ev) p st).2)) as Hm.
    { unfold mergeResponse. simpl. case_decide; [apply Hup|].
      apply sameElsewhere_refl. }
    destruct (mergeResponse id_ (default [] dataLogs) taskStatus (clock ev)
                p st) as [p1 st1]. simpl in Hm.
    repeat case_decide; simpl; try done.
    + unfold onCompleted. destruct (resultFetch ev); simpl.
      * eapply sameElsewhere_trans; [exact Hm|].
        eapply sameElsewhere_trans; [apply Hfin|apply Hup].
      * eapply sameElsewhere_trans; [exact Hm|apply Hup].
    + unfold onFailed. simpl.
      eapply sameElsewhere_trans; [exact Hm|apply Hup].
  - unfold onError. case_decide; simpl; [apply sameElsewhere_refl|apply Hup].
Qed.

Lemma pollFrom_sameElsewhere (trace : list PollEvent) :
  ∀ (p : PollerState) (st : Storage),
    sameElsewhere id_ (getHistory st)
      (getHistory (pollFrom id_ startTime_ capturedLogs trace p st).1.2).
Proof.
  induction trace as [|ev rest IH]; intros p st; simpl.
  - apply sameElsewhere_refl.
  - pose proof (poll_sameElsewhere ev p st) as Hstep.
    destruct (poll id_ startTime_ capturedLogs ev p st) as [[p1 st1] [d|]];
      simpl in *; [|done].
    eapply sameElsewhere_trans; [exact Hstep|apply IH].
Qed.
End PollRecord.

(** X16.  The task completed and its result arrived: the call of [poll]
    stops the poller, and the entry ends with status [completed], the time
    of the call as end time, the duration since the start, the result
    attached and the backend's dump in [allLogs]; its logs hold every
    message of the dump, every message the entry held, and the success
    event, which is also the last line on the screen. *)
Theorem poll_completed_with_result (id_ : string) (startTime_ : Z)
    (capturedLogs : list LogEvent) (ev : PollEvent) (p : PollerState)
    (st : Storage) (item : HistoryItem) (dataLogs : option (list LogEvent))
    (finalResult : Result) :
  recordOf id_ st = Some item → writable st = true →
  fetch ev = Response dataLogs "completed" →
  resultFetch ev = ResultResponse finalResult →
  ∃ p' st' item',
    poll id_ startTime_ capturedLogs ev p st = (p', st', Stop)
    ∧ recordOf id_ st' = Some item'
    ∧ status item' = "completed"
    ∧ endTime item' = Some (clock ev)
    ∧ duration item' = Some (formatDuration startTime_ (clock ev))
    ∧ result item' = Some finalResult
    ∧ allLogs item' = default [] (res_allLogs finalResult)
    ∧ error item' = error item
    ∧ keepsRecord item item'
    ∧ (∀ e, e ∈ default [] (res_allLogs finalResult) →
            message e ∈ messages (logs item'))
    ∧ message (successEvent (clock ev)) ∈ messages (logs item')
    ∧ last (stateLogs p') = Some (successEvent (clock ev))
    ∧ loading p' = false.
Proof.
  intros Hrec Hw Hf Hr. unfold poll. rewrite Hf.
  destruct (mergeResponse_record id_ (default [] dataLogs) "completed"
              (clock ev) p st item Hrec Hw)
    as (p1 & st1 & item1 & -> & _ & _ & _ & _ & _ & Hw1 & Hrec1
        & Hkeep1 & _ & Herr1 & _ & _ & _).
  rewrite decide_False by discriminate. rewrite decide_True by done.
  unfold onCompleted. rewrite Hr.
  destruct (saveCompleteLogsToHistory_found id_
              (default [] (res_allLogs finalResult)) (clock ev) st1
              item1 Hrec1 Hw1) as (st2 & -> & Hw2 & Hrec2).
  cbn [fst].
  destruct (withCompleteLogs_grows item1
              (default [] (res_allLogs finalResult)) (clock ev))
    as (Hkeep2 & Hdump & _).
  set (u := mkUpdates _ _ _ _ _ _).
  destruct (final_update id_ capturedLogs u (successEvent (clock ev))
              (clock ev) st2 _ eq_refl Hrec2 Hw2)
    as (st3 & item3 & -> & Hw3 & Hrec3 & Heq3 & Hkeep3 & Hin & _).
  eexists _, st3, item3.
  pose proof (spread_fields
                (withCompleteLogs item1
                   (mergeLogs (default [] (res_allLogs finalResult))
                      (logs item1))
                   (default [] (res_allLogs finalResult)) (clock ev))
                u (clock ev)) as (Hstatus & Hres & Herr & Hend & Hall).
  pose proof (spread_other_fields
                (withCompleteLogs item1
                   (mergeLogs (default [] (res_allLogs finalResult))
                      (logs item1))
                   (default [] (res_allLogs finalResult)) (clock ev))
                u (clock ev)) as (Hdur & _).
  rewrite <- Heq3 in Hstatus, Hres, Herr, Hend, Hall, Hdur.
  split_and!; [done|done|done|done|done|done|done| | | |done| |done].
  - rewrite Herr. simpl. done.
  - eapply keepsRecord_trans; [exact Hkeep1|].
    eapply keepsRecord_trans; [exact Hkeep2|exact Hkeep3].
  - intros e He. destruct Hkeep3 as (_ & _ & _ & _ & _ & _ & _ & Hk).
    by apply Hk, Hdump.
  - simpl. apply last_snoc.
Qed.

Lemma poll_completed_with_result_witness :
  let dump := [mkLog "start" "info" (Some 1000); mkLog "done" "info" (Some 2000)] in
  ∃ p' st' item',
    poll "t1" 1000 [] (completedEvent [] (mkResult (Some dump) "42 files") 3000)
      (mkPoller 0 [mkLog "start" "info" (Some 1000)] true "")
      (oneTask [mkLog "start" "info" (Some 1000)]) = (p', st', Stop)
    ∧ recordOf "t1" st' = Some item'
    ∧ status item' = "completed"
    ∧ endTime item' = Some 3000
    ∧ result item' = Some (mkResult (Some dump) "42 files")
    ∧ allLogs item' = dump
    ∧ message (successEvent 3000) ∈ messages (logs item')
    ∧ loading p' = false.
Proof.
  cbv zeta.
  destruct (poll_completed_with_result "t1" 1000 []
              (completedEvent []
                 (mkResult (Some [mkLog "start" "info" (Some 1000);
                                  mkLog "done" "info" (Some 2000)])
                    "42 files") 3000)
              (mkPoller 0 [mkLog "start" "info" (Some 1000)] true "")
              (oneTask [mkLog "start" "info" (Some 1000)])
              (historyItem (taskWith [mkLog "start" "info" (Some 1000)])
                 "id-1" 1000)
              (Some [])
              (mkResult (Some [mkLog "start" "info" (Some 1000);
                               mkLog "done" "info" (Some 2000)]) "42 files"))
    as (p' & st' & item' & Hpoll & Hrec & Hst & Hend & _ & Hres & Hall & _
        & _ & _ & Hin & _ & Hload);
    [vm_compute; reflexivity|reflexivity|reflexivity|reflexivity|].
  by exists p', st', item'.
Defined.

(** X17.  The backend reports the task as failed: the call of [poll] stops
    the poller; the entry ends with status [failed], the time of the call
    as end time and the failure event among its logs; its result and its
    [error] field are left as they were; the failure event is the last
    line on the screen. *)
Theorem poll_failed_status (id_ : string) (startTime_ : Z)
    (capturedLogs : list LogEvent) (ev : PollEvent) (p : PollerState)
    (st : Storage) (item : HistoryItem) (dataLogs : option (list LogEvent)) :
  recordOf id_ st = Some item → writable st = true →
  fetch ev = Response dataLogs "failed" →
  ∃ p' st' item',
    poll id_ startTime_ capturedLogs ev p st = (p', st', Stop)
    ∧ recordOf id_ st' = Some item'
    ∧ status item' = "failed"
    ∧ endTime item' = Some (clock ev)
    ∧ duration item' = Some (formatDuration startTime_ (clock ev))
    ∧ result item' = result item
    ∧ error item' = error item
    ∧ keepsRecord item item'
    ∧ message (failedEvent (clock ev)) ∈ messages (logs item')
    ∧ last (stateLogs p') = Some (failedEvent (clock ev))
    ∧ loading p' = false
    ∧ errorText p' = errorText p.
Proof.
  intros Hrec Hw Hf. unfold poll. rewrite Hf.
  destruct (mergeResponse_record id_ (default [] dataLogs) "failed"
              (clock ev) p st item Hrec Hw)
    as (p1 & st1 & item1 & -> & _ & _ & Htext & _ & _ & Hw1 & Hrec1
        & Hkeep1 & Hres1 & Herr1 & _ & _ & _).
  rewrite !decide_False by discriminate. rewrite decide_True by done.
  unfold onFailed.
  set (u := mkUpdates _ _ _ _ _ _).
  destruct (final_update id_ capturedLogs u (failedEvent (clock ev))
              (clock ev) st1 _ eq_refl Hrec1 Hw1)
    as (st2 & item2 & -> & Hw2 & Hrec2 & Heq2 & Hkeep2 & Hin & _).
  eexists _, st2, item2.
  pose proof (spread_fields item1 u (clock ev))
    as (Hstatus & Hres & Herr & Hend & _).
  pose proof (spread_other_fields item1 u (clock ev)) as (Hdur & _).
  rewrite <- Heq2 in Hstatus, Hres, Herr, Hend, Hdur.
  split_and!; [done|done|done|done|done| | | |done| |done|done].
  - by rewrite Hres.
  - by rewrite Herr.
  - by eapply keepsRecord_trans.
  - simpl. apply last_snoc.
Qed.

Lemma poll_failed_status_witness :
  ∃ p' st' item',
    poll "t1" 1000 []
      (mkEvent (Response None "failed") ResultError 3000)
      freshPoller (oneTask [mkLog "start" "info" (Some 1000)])
    = (p', st', Stop)
    ∧ recordOf "t1" st' = Some item'
    ∧ status item' = "failed"
    ∧ endTime item' = Some 3000
    ∧ result item' = None ∧ error item' = None
    ∧ message (failedEvent 3000) ∈ messages (logs item')
    ∧ loading p' = false.
Proof.
  destruct (poll_failed_status "t1" 1000 []
              (mkEvent (Response None "failed") ResultError 3000)
              freshPoller (oneTask [mkLog "start" "info" (Some 1000)])
              (historyItem (taskWith [mkLog "start" "info" (Some 1000)])
                 "id-1" 1000) None)
    as (p' & st' & item' & Hpoll & Hrec & Hst & Hend & _ & Hres & Herr & _
        & Hin & _ & Hload & _);
    [vm_compute; reflexivity|reflexivity|reflexivity|].
  by exists p', st', item'.
Defined.

(** X18.  A response whose status is none of [running], [completed] and
    [failed] stops the poller without closing the task: nothing is
    scheduled, the page still shows the task as loading if it did, and the
    entry gets no end time; it keeps its result and error. *)
Theorem poll_unknown_status (id_ : string) (startTime_ : Z)
    (capturedLogs : list LogEvent) (ev : PollEvent) (p : PollerState)
    (st : Storage) (item : HistoryItem) (dataLogs : option (list LogEvent))
    (taskStatus : string) :
  recordOf id_ st = Some item → writable st = true →
  fetch ev = Response dataLogs taskStatus →
  taskStatus ≠ "running" → taskStatus ≠ "completed" →
  taskStatus ≠ "failed" →
  ∃ p' st' item',
    poll id_ startTime_ capturedLogs ev p st = (p', st', Stop)
    ∧ recordOf id_ st' = Some item'
    ∧ endTime item' = endTime item
    ∧ result item' = result item ∧ error item' = error item
    ∧ keepsRecord item item'
    ∧ loading p' = loading p ∧ errorText p' = errorText p.
Proof.
  intros Hrec Hw Hf Hn1 Hn2 Hn3. unfold poll. rewrite Hf.
  destruct (mergeResponse_record id_ (default [] dataLogs) taskStatus
              (clock ev) p st item Hrec Hw)
    as (p1 & st1 & item1 & -> & _ & Hload & Htext & _ & _ & Hw1 & Hrec1
        & Hkeep1 & Hres1 & Herr1 & Hend1 & _ & _).
  rewrite !decide_False by done. by eexists p1, st1, item1.
Qed.

Lemma poll_unknown_status_witness :
  ∃ p' st' item',
    poll "t1" 1000 []
      (mkEvent (Response (Some [mkLog "queued" "info" (Some 1500)]) "pending")
         ResultError 3000)
      freshPoller (oneTask [mkLog "start" "info" (Some 1000)])
    = (p', st', Stop)
    ∧ recordOf "t1" st' = Some item'
    ∧ endTime item' = None
    ∧ status item' = "pending"
    ∧ loading p' = true.
Proof.
  destruct (poll_unknown_status "t1" 1000 []
              (mkEvent (Response (Some [mkLog "queued" "info" (Some 1500)])
                          "pending") ResultError 3000)
              freshPoller (oneTask [mkLog "start" "info" (Some 1000)])
              (historyItem (taskWith [mkLog "start" "info" (Some 1000)])
                 "id-1" 1000)
              (Some [mkLog "queued" "info" (Some 1500)]) "pending")
    as (p' & st' & item' & Hpoll & Hrec & Hend & _ & _ & _ & Hload & _);
    [vm_compute; reflexivity|reflexivity|reflexivity|discriminate
    |discriminate|discriminate|].
  exists p', st', item'. split_and!; [done|done|done| |done].
  vm_compute in Hpoll. injection Hpoll as <- <-.
  vm_compute in Hrec. injection Hrec as <-. reflexivity.
Defined.

(** X19.  A poller writes to the entry of its own task only: over any
    sequence of calls of [poll], with any outcomes, the history keeps its
    length, each entry its [id] and [taskId], and every entry of another
    task is left exactly as it was. *)
Theorem pollLogs_other_tasks_untouched (id_ : string) (startTime_ : Z)
    (capturedLogs : list LogEvent) (trace : list PollEvent)
    (p : PollerState) (st : Storage) :
  let st' := (pollLogs id_ startTime_ capturedLogs trace p st).1.2 in
  length (getHistory st') = length (getHistory st)
  ∧ id <$> getHistory st' = id <$> getHistory st
  ∧ taskId <$> getHistory st' = taskId <$> getHistory st
  ∧ (∀ j x, getHistory st !! j = Some x → taskId x ≠ id_ →
            getHistory st' !! j = Some x).
Proof.
  cbv zeta. apply sameElsewhere_lookup. unfold pollLogs.
  apply pollFrom_sameElsewhere.
Qed.

Lemma pollLogs_other_tasks_untouched_witness :
  let st := (saveToHistory otherTask "id-2" 7000
               (oneTask [mkLog "a" "info" None])).1 in
  let st' := (pollLogs "t2" 7000 []
                [runningEvent [mkLog "x" "info" (Some 7100)] 7200;
                 mkEvent (Response None "failed") ResultError 7300]
                freshPoller st).1.2 in
  getHistory st' !! 1%nat
  = Some (historyItem (taskWith [mkLog "a" "info" None]) "id-1" 1000).
Proof.
  cbv zeta.
  apply (pollLogs_other_tasks_untouched "t2" 7000 []
           [runningEvent [mkLog "x" "info" (Some 7100)] 7200;
            mkEvent (Response None "failed") ResultError 7300]
           freshPoller
           (saveToHistory otherTask "id-2" 7000
              (oneTask [mkLog "a" "info" None])).1);
    [vm_compute; reflexivity|discriminate].
Defined.

(** X20.  The poller never loses what the entry holds: over any sequence
    of calls of [poll], an entry that is there in a storage that takes
    writes is still there afterwards, the same entry as to id, task id,
    type, path, folder name, start time and time of saving, and with every
    message it held still among its logs (the poller never sends the
    empty [logs] payload with which an update drops the events). *)
Theorem pollLogs_keeps_record (id_ : string) (startTime_ : Z)
    (capturedLogs : list LogEvent) (trace : list PollEvent)
    (p : PollerState) (st : Storage) (item : HistoryItem) :
  recordOf id_ st = Some item → writable st = true →
  ∃ p' st' item' next,
    pollLogs id_ startTime_ capturedLogs trace p st = (p', st', next)
    ∧ writable st' = true
    ∧ recordOf id_ st' = Some item'
    ∧ keepsRecord item item'.
Proof.
  intros Hrec Hw. unfold pollLogs.
  destruct (pollFrom_record id_ startTime_ capturedLogs trace
              (mkPoller 0 (stateLogs p) (loading p) (errorText p)) st item
              Hrec Hw)
    as (p' & st' & item' & next & Hrun & Hw' & Hrec' & Hkeep & _).
  by exists p', st', item', next.
Qed.

Lemma pollLogs_keeps_record_witness :
  ∃ p' st' item' next,
    pollLogs "t1" 1000 [mkLog "stale" "info" None]
      [timeoutEvent 1500; runningEvent [mkLog "x" "info" (Some 1600)] 1700;
       networkErrorEvent 1800]
      freshPoller (oneTask [mkLog "start" "info" (Some 1000)])
    = (p', st', next)
    ∧ writable st' = true
    ∧ recordOf "t1" st' = Some item'
    ∧ keepsRecord
        (historyItem (taskWith [mkLog "start" "info" (Some 1000)]) "id-1" 1000)
        item'.
Proof.
  apply (pollLogs_keeps_record "t1" 1000 [mkLog "stale" "info" None]
           [timeoutEvent 1500; runningEvent [mkLog "x" "info" (Some 1600)] 1700;
            networkErrorEvent 1800]
           freshPoller (oneTask [mkLog "start" "info" (Some 1000)]));
    [vm_compute; reflexivity|reflexivity].
Defined.

(** X21.  The log on the screen only grows, and stays within the entry:
    over any sequence of calls of [poll] the lines shown before are still
    shown, in place, with new ones after them; if every message shown was
    in the entry before, every message shown is in the entry afterwards;
    and the counter of timeouts, started at 0, never passes 10. *)
Theorem pollLogs_screen (id_ : string) (startTime_ : Z)
    (capturedLogs : list LogEvent) (trace : list PollEvent)
    (p : PollerState) (st : Storage) (item : HistoryItem) :
  recordOf id_ st = Some item → writable st = true →
  ∃ p' st' item' next,
    pollLogs id_ startTime_ capturedLogs trace p st = (p', st', next)
    ∧ recordOf id_ st' = Some item'
    ∧ stateLogs p `prefix_of` stateLogs p'
    ∧ (shownInRecord p item → shownInRecord p' item')
    ∧ (attempt p' ≤ 10)%nat.
Proof.
  intros Hrec Hw. unfold pollLogs.
  destruct (pollFrom_record id_ startTime_ capturedLogs trace
              (mkPoller 0 (stateLogs p) (loading p) (errorText p)) st item
              Hrec Hw)
    as (p' & st' & item' & next & Hrun & _ & Hrec' & _ & Hpre & _ & Hbound
        & Hshown).
  exists p', st', item', next.
  split_and!; [done|done|done|done|]. apply Hbound. simpl. lia.
Qed.

Lemma pollLogs_screen_witness :
  ∃ p' st' item' next,
    pollLogs "t1" 1000 []
      [runningEvent [mkLog "x" "info" (Some 1600)] 1700;
       runningEvent [mkLog "x" "info" (Some 1600);
                     mkLog "y" "info" (Some 1800)] 1900]
      (mkPoller 0 [mkLog "start" "info" (Some 1000)] true "")
      (oneTask [mkLog "start" "info" (Some 1000)])
    = (p', st', next)
    ∧ recordOf "t1" st' = Some item'
    ∧ [mkLog "start" "info" (Some 1000)] `prefix_of` stateLogs p'
    ∧ shownInRecord p' item'
    ∧ (attempt p' ≤ 10)%nat.
Proof.
  destruct (pollLogs_screen "t1" 1000 []
              [runningEvent [mkLog "x" "info" (Some 1600)] 1700;
               runningEvent [mkLog "x" "info" (Some 1600);
                             mkLog "y" "info" (Some 1800)] 1900]
              (mkPoller 0 [mkLog "start" "info" (Some 1000)] true "")
              (oneTask [mkLog "start" "info" (Some 1000)])
              (historyItem (taskWith [mkLog "start" "info" (Some 1000)])
                 "id-1" 1000))
    as (p' & st' & item' & next & Hrun & Hrec & Hpre & Hshown & Hatt);
    [vm_compute; reflexivity|reflexivity|].
  exists p', st', item', next. split_and!; [done|done|done| |done].
  apply Hshown. intros m Hm. exact Hm.
Defined.

(** X22.  The last update of a poller carries the lines that were on the
    screen when the task was started: when a call of [poll] closes the
    task (status [completed] or [failed]) or gives up after an error,
    every message of the [logs] its closure captured is among the logs of
    the entry afterwards, whatever task those lines came from. *)
Theorem closing_update_carries_captured_logs (id_ : string) (startTime_ : Z)
    (capturedLogs : list LogEvent) (ev : PollEvent) (p p' : PollerState)
    (st st' : Storage) (item : HistoryItem) :
  recordOf id_ st = Some item → writable st = true →
  poll id_ startTime_ capturedLogs ev p st = (p', st', Stop) →
  (∃ dataLogs, fetch ev = Response dataLogs "completed")
  ∨ (∃ dataLogs, fetch ev = Response dataLogs "failed")
  ∨ (∃ code msg, fetch ev = FetchError code msg) →
  ∃ item', recordOf id_ st' = Some item'
           ∧ ∀ c, c ∈ capturedLogs → message c ∈ messages (logs item').
Proof.
  intros Hrec Hw Hpoll Hkind. unfold poll in Hpoll.
  destruct Hkind as [[dataLogs Hf]|[[dataLogs Hf]|(code & msg & Hf)]];
    rewrite Hf in Hpoll.
  - destruct (mergeResponse_record id_ (default [] dataLogs) "completed"
                (clock ev) p st item Hrec Hw)
      as (p1 & st1 & item1 & Heq & _ & _ & _ & _ & _ & Hw1 & Hrec1 & _).
    rewrite Heq in Hpoll.
    rewrite decide_False in Hpoll by discriminate.
    rewrite decide_True in Hpoll by done.
    unfold onCompleted in Hpoll.
    destruct (resultFetch ev) as [finalResult|].
    + destruct (saveCompleteLogsToHistory_found id_
                  (default [] (res_allLogs finalResult)) (clock ev) st1
                  item1 Hrec1 Hw1) as (st2 & Hfin & Hw2 & Hrec2).
      rewrite Hfin in Hpoll. cbn [fst] in Hpoll.
      set (u := mkUpdates _ _ _ _ _ _) in Hpoll.
      destruct (final_update id_ capturedLogs u (successEvent (clock ev))
                  (clock ev) st2 _ eq_refl Hrec2 Hw2)
        as (st3 & item3 & Hup & _ & Hrec3 & _ & _ & _ & Hcap & _).
      rewrite Hup in Hpoll. injection Hpoll as _ <-. by exists item3.
    + set (u := mkUpdates _ _ _ _ _ _) in Hpoll.
      destruct (final_update id_ capturedLogs u (noResultEvent (clock ev))
                  (clock ev) st1 _ eq_refl Hrec1 Hw1)
        as (st2 & item2 & Hup & _ & Hrec2 & _ & _ & _ & Hcap & _).
      rewrite Hup in Hpoll. injection Hpoll as _ <-. by exists item2.
  - destruct (mergeResponse_record id_ (default [] dataLogs) "failed"
                (clock ev) p st item Hrec Hw)
      as (p1 & st1 & item1 & Heq & _ & _ & _ & _ & _ & Hw1 & Hrec1 & _).
    rewrite Heq in Hpoll.
    rewrite !decide_False in Hpoll by discriminate.
    rewrite decide_True in Hpoll by done.
    unfold onFailed in Hpoll.
    set (u := mkUpdates _ _ _ _ _ _) in Hpoll.
    destruct (final_update id_ capturedLogs u (failedEvent (clock ev))
                (clock ev) st1 _ eq_refl Hrec1 Hw1)
      as (st2 & item2 & Hup & _ & Hrec2 & _ & _ & _ & Hcap & _).
    rewrite Hup in Hpoll. injection Hpoll as _ <-. by exists item2.
  - unfold onError in Hpoll. case_decide; [done|].
    set (u := mkUpdates _ _ _ _ _ _) in Hpoll.
    destruct (final_update id_ capturedLogs u (commErrorEvent msg (clock ev))
                (clock ev) st item eq_refl Hrec Hw)
      as (st2 & item2 & Hup & _ & Hrec2 & _ & _ & _ & Hcap & _).
    rewrite Hup in Hpoll. injection Hpoll as _ <-. by exists item2.
Qed.

Lemma closing_update_carries_captured_logs_witness :
  ∃ item',
    recordOf "t1"
      (poll "t1" 1000 [mkLog "line of an earlier task" "info" (Some 10)]
         (mkEvent (Response None "failed") ResultError 3000)
         freshPoller (oneTask [mkLog "start" "info" (Some 1000)])).1.2
    = Some item'
    ∧ ∀ c, c ∈ [mkLog "line of an earlier task" "info" (Some 10)] →
           message c ∈ messages (logs item').
Proof.
  apply (closing_update_carries_captured_logs "t1" 1000
           [mkLog "line of an earlier task" "info" (Some 10)]
           (mkEvent (Response None "failed") ResultError 3000)
           freshPoller
           (poll "t1" 1000 [mkLog "line of an earlier task" "info" (Some 10)]
              (mkEvent (Response None "failed") ResultError 3000)
              freshPoller (oneTask [mkLog "start" "info" (Some 1000)])).1.1
           (oneTask [mkLog "start" "info" (Some 1000)]) _
           (historyItem (taskWith [mkLog "start" "info" (Some 1000)])
              "id-1" 1000));
    [vm_compute; reflexivity|reflexivity|vm_compute; reflexivity|].
  right. left. by exists None.
Defined.

(** * The start of a task *)

Lemma orElse_default_nonempty (a : option string) (d : string) :
  d ≠ "" → orElse a d ≠ "".
Proof.
  unfold orElse, str_or. intros Hd.
  destruct a as [v|]; [|done]. by case_decide.
Qed.

Lemma str_or_null_nonempty (v : string) :
  v ≠ "" → str_or_null (Some v) = Some v.
Proof. intros Hv. unfold str_or_null. by rewrite decide_False. Qed.

(** X23.  What [startParsing] records.  With no folder selected it stores
    nothing and starts nothing.  When the task was submitted it inserts a
    running entry for the task, started at the clock read before the
    request, whose only event is the launch line that is also put on the
    screen, and it starts polling that task with the lines that were on
    the screen before; polling starts even when the insert fails.  When the
    submission failed it inserts an entry with status [failed] and a
    non-empty error text, shown on the page too, starts no polling, and
    the entry has no end time. *)
Theorem startParsing_records (uuid : string) (t0 t1 : Z) (pg : Page)
    (st : Storage) :
  (selectedFolder pg = "" →
   ∀ submit, ∃ pg', startParsing submit uuid t0 t1 pg st = (pg', st, None))
  ∧ (selectedFolder pg ≠ "" →
     ∀ tid, ∃ pg' st',
       startParsing (Submitted tid) uuid t0 t1 pg st
       = (pg', st', Some (mkPolling tid t0 (stateLogs (view pg))))
       ∧ taskIdState pg' = Some tid
       ∧ loading (view pg') = true
       ∧ (is_Some (readHistory st) → writable st = true →
          ∃ item,
            recordOf tid st' = Some item ∧ writable st' = true
            ∧ historyId pg' = Some uuid ∧ id item = uuid
            ∧ status item = "running" ∧ startTime item = t0
            ∧ task_type item = "parse"
            ∧ path item = Some (selectedFolder pg)
            ∧ endTime item = None ∧ result item = None ∧ error item = None
            ∧ logs item = stateLogs (view pg')
            ∧ length (logs item) = 1%nat))
  ∧ (selectedFolder pg ≠ "" →
     ∀ detail msg, ∃ pg' st',
       startParsing (SubmitFailed detail msg) uuid t0 t1 pg st
       = (pg', st', None)
       ∧ loading (view pg') = false
       ∧ errorText (view pg') ≠ ""
       ∧ (is_Some (readHistory st) → writable st = true →
          ∃ item,
            recordOf ("error_" +:+ pretty t1) st' = Some item
            ∧ status item = "failed"
            ∧ error item = Some (errorText (view pg'))
            ∧ endTime item = None ∧ duration item = None
            ∧ startTime item = t0)).
Proof.
  split_and!.
  - intros Hsel submit. unfold startParsing. rewrite decide_True by done.
    by eexists.
  - intros Hsel tid. unfold startParsing. rewrite decide_False by done.
    set (td := mkTaskData _ _ _ _ _ _ _ _ _ _).
    destruct (saveToHistory td uuid t1 st) as [st' r] eqn:Hsave.
    eexists _, st'. split_and!; [done|done|done|].
    intros [h Hread] Hw.
    assert (r = Some uuid) as ->.
    { unfold saveToHistory, setItem in Hsave. rewrite Hread, Hw in Hsave.
      simpl in Hsave. by injection Hsave as _ <-. }
    assert (recordOf (td_taskId td) st' = Some (historyItem td uuid t1)
            ∧ writable st' = true) as [Hrec Hw'].
    { unfold saveToHistory, setItem in Hsave. rewrite Hread, Hw in Hsave.
      simpl in Hsave. injection Hsave as <-. split; [|done].
      unfold recordOf, findIndex, getHistory, readHistory. simpl.
      rewrite capHistory_take. simpl. by rewrite decide_True. }
    exists (historyItem td uuid t1). by split_and!.
  - intros Hsel detail msg. unfold startParsing.
    rewrite decide_False by done.
    set (td := mkTaskData _ _ _ _ _ _ _ _ _ _).
    eexists _, _. split_and!; [done|done|by apply orElse_default_nonempty|].
    intros [h Hread] Hw.
    assert (recordOf (td_taskId td) (saveToHistory td uuid t1 st).1
            = Some (historyItem td uuid t1)) as Hrec.
    { unfold saveToHistory, setItem. rewrite Hread, Hw. simpl.
      unfold recordOf, findIndex, getHistory, readHistory. simpl.
      rewrite capHistory_take. simpl. by rewrite decide_True. }
    exists (historyItem td uuid t1). split_and!; [done|done| |done|done|done].
    change (str_or_null
              (Some (orElse (Some (orElse detail msg))
                       "Ошибка запуска парсинга"))
            = Some (orElse (Some (orElse detail msg))
                      "Ошибка запуска парсинга")).
    by apply str_or_null_nonempty, orElse_default_nonempty.
Qed.

Lemma startParsing_records_witness :
  (∃ pg', startParsing (Submitted "t7") "id-7" 100 200
            (mkPage "" [] None None None freshPoller) (oneTask [])
          = (pg', oneTask [], None))
  ∧ (∃ pg' st' item,
       startParsing (Submitted "t7") "id-7" 100 200
         (somePage [mkLog "old" "info" None]) (oneTask [])
       = (pg', st', Some (mkPolling "t7" 100 [mkLog "old" "info" None]))
       ∧ recordOf "t7" st' = Some item
       ∧ status item = "running" ∧ logs item = stateLogs (view pg'))
  ∧ (∃ pg' st' item,
       startParsing (SubmitFailed None "Network Error") "id-7" 100 200
         (somePage []) (oneTask []) = (pg', st', None)
       ∧ recordOf ("error_" +:+ pretty 200) st' = Some item
       ∧ status item = "failed" ∧ error item = Some "Network Error"
       ∧ endTime item = None).
Proof.
  split_and!.
  - apply (proj1 (startParsing_records "id-7" 100 200
                    (mkPage "" [] None None None freshPoller) (oneTask [])));
      reflexivity.
  - destruct (proj1 (proj2 (startParsing_records "id-7" 100 200
                              (somePage [mkLog "old" "info" None])
                              (oneTask [])))
                ltac:(discriminate) "t7")
      as (pg' & st' & Hstart & _ & _ & Hstore).
    destruct Hstore as (item & Hrec & _ & _ & _ & Hst & _ & _ & _ & _ & _ & _
                        & Hlogs & _); [by eexists|reflexivity|].
    by exists pg', st', item.
  - destruct (proj2 (proj2 (startParsing_records "id-7" 100 200
                              (somePage []) (oneTask [])))
                ltac:(discriminate) None "Network Error")
      as (pg' & st' & Hstart & _ & _ & Hstore).
    destruct Hstore as (item & Hrec & Hst & Herr & Hend & _);
      [by eexists|reflexivity|].
    exists pg', st', item. split_and!; [done|done|done| |done].
    rewrite Herr. vm_compute in Hstart. by injection Hstart as <- _.
Defined.

Lemma launch_message_kept (item item' : HistoryItem) (e : LogEvent) :
  logs item = [e] → keepsRecord item item' →
  message e ∈ messages (logs item').
Proof.
  intros Hlogs (_ & _ & _ & _ & _ & _ & _ & Hk). apply Hk.
  rewrite Hlogs. apply list_elem_of_here.
Qed.

(** X24.  A task from the click on: when the task was submitted and its
    entry inserted, then after any sequence of poll outcomes the store
    still addresses, by the task's id, the entry inserted at the start
    (same id, start time, type and path), the launch line is still among
    its logs, every message on the screen is in the entry, and the counter
    of timeouts is at most 10. *)
Theorem runTask_record (tid uuid : string) (t0 t1 : Z)
    (trace : list PollEvent) (pg : Page) (st : Storage) :
  selectedFolder pg ≠ "" → is_Some (readHistory st) → writable st = true →
  ∃ p' st' item' next,
    runTask (Submitted tid) uuid t0 t1 trace pg st = (p', st', next)
    ∧ recordOf tid st' = Some item'
    ∧ id item' = uuid ∧ startTime item' = t0
    ∧ task_type item' = "parse" ∧ path item' = Some (selectedFolder pg)
    ∧ message (launchEvent
                 (getFolderName (availableFolders pg) (selectedFolder pg)) t1)
      ∈ messages (logs item')
    ∧ shownInRecord p' item'
    ∧ (attempt p' ≤ 10)%nat.
Proof.
  intros Hsel [h Hread] Hw. unfold runTask, startParsing.
  rewrite decide_False by done.
  set (td := mkTaskData _ _ _ _ _ _ _ _ _ _).
  assert (saveToHistory td uuid t1 st
          = (mkStorage (Saved (capHistory (historyItem td uuid t1 :: h))) true,
             Some uuid)) as ->.
  { unfold saveToHistory, setItem. by rewrite Hread, Hw. }
  cbn [polledId polledStart polledLogs view].
  set (st0 := mkStorage _ true).
  assert (recordOf tid st0 = Some (historyItem td uuid t1)) as Hrec.
  { unfold recordOf, findIndex, getHistory, readHistory, st0. simpl.
    rewrite capHistory_take. simpl. by rewrite decide_True. }
  unfold pollLogs.
  destruct (pollFrom_record tid t0 (stateLogs (view pg)) trace
              (mkPoller 0
                 [launchEvent
                    (getFolderName (availableFolders pg) (selectedFolder pg))
                    t1] true "")
              st0 _ Hrec eq_refl)
    as (p' & st' & item' & next & Hrun & _ & Hrec' & Hkeep & _ & _ & Hbound
        & Hshown).
  simpl. simpl in Hrun. rewrite Hrun.
  exists p', st', item', next.
  pose proof Hkeep as (Hid & _ & Hty & Hpath & _ & Hstart & _ & _).
  split_and!; [done|done|done|done|done|done| | |].
  - apply (launch_message_kept (historyItem td uuid t1) item'
             (launchEvent
                (getFolderName (availableFolders pg) (selectedFolder pg)) t1));
      done.
  - apply Hshown. intros m Hm. exact Hm.
  - apply Hbound. simpl. lia.
Qed.

Lemma runTask_record_witness :
  let dump := [mkLog "start" "info" (Some 150); mkLog "done" "info" (Some 400)] in
  ∃ p' st' item' next,
    runTask (Submitted "t7") "id-7" 100 200
      [runningEvent [mkLog "start" "info" (Some 150)] 300;
       completedEvent [] (mkResult (Some dump) "ok") 500]
      (somePage []) (oneTask [])
    = (p', st', next)
    ∧ recordOf "t7" st' = Some item'
    ∧ id item' = "id-7" ∧ startTime item' = 100
    ∧ shownInRecord p' item'.
Proof.
  cbv zeta.
  destruct (runTask_record "t7" "id-7" 100 200
              [runningEvent [mkLog "start" "info" (Some 150)] 300;
               completedEvent []
                 (mkResult (Some [mkLog "start" "info" (Some 150);
                                  mkLog "done" "info" (Some 400)]) "ok") 500]
              (somePage []) (oneTask []))
    as (p' & st' & item' & next & Hrun & Hrec & Hid & Hstart & _ & _ & _
        & Hshown & _);
    [discriminate|by eexists|reflexivity|].
  by exists p', st', item', next.
Defined.

(** * The folder tree *)

Lemma firstFound_flat {A B : Type} (g : A → option B) (flat : A → list B)
    (P : B → Prop) `{!∀ x, Decision (P x)} (l : list A) :
  Forall (λ x, g x = head (filter P (flat x))) l →
  firstFound g l = head (filter P (flat_map flat l)).
Proof.
  induction 1 as [|x l Hx _ IH]; simpl; [done|].
  rewrite filter_app, head_app, <- Hx, IH. by destruct (g x).
Qed.

Lemma firstWithFilesAt_flat (folder : Folder) :
  firstWithFilesAt folder
  = head (filter (λ f, 0 < files_count f) (flattenFolder folder)).
Proof.
  induction folder as [folder IH] using Folder_nested_ind.
  destruct folder as [n p c subs]. simpl in *.
  rewrite filter_cons. simpl.
  destruct (decide (0 < c)); [done|].
  rewrite <- (firstFound_flat firstWithFilesAt flattenFolder _ subs IH).
  by destruct subs.
Qed.

Lemma findFolderAt_flat (targetPath : string) (folder : Folder) :
  findFolderAt targetPath folder
  = head (filter (λ f, folder_path f = targetPath) (flattenFolder folder)).
Proof.
  induction folder as [folder IH] using Folder_nested_ind.
  destruct folder as [n p c subs]. simpl in *.
  rewrite filter_cons. simpl.
  destruct (decide (p = targetPath)); [done|].
  by rewrite <- (firstFound_flat (findFolderAt targetPath) flattenFolder _
                   subs IH).
Qed.

Lemma head_filter_None {A : Type} (P : A → Prop) `{!∀ x, Decision (P x)}
    (l : list A) :
  head (filter P l) = None ↔ Forall (λ x, ¬ P x) l.
Proof.
  induction l as [|x l IH]; [by split|].
  rewrite filter_cons, Forall_cons.
  destruct (decide (P x)); simpl; [naive_solver|]. rewrite IH. naive_solver.
Qed.

Lemma head_filter_Some_elem {A : Type} (P : A → Prop)
    `{!∀ x, Decision (P x)} (l : list A) (x : A) :
  head (filter P l) = Some x → P x ∧ x ∈ l.
Proof.
  intros Hh. apply (proj1 (list_elem_of_filter P l x)).
  destruct (filter P l) as [|y f]; simplify_eq/=. apply list_elem_of_here.
Qed.

(** X25.  The two searches of the folder tree return the first match in
    the order the tree is drawn (a folder before its subfolders, these in
    the order of the array): [findFirstFolderWithFiles] the first folder
    that has files, [findFolder] the first folder with the given path.
    Each returns [null] exactly when no folder of the tree, at any depth,
    matches. *)
Theorem folder_searches_find_first (folders : list Folder) :
  findFirstFolderWithFiles folders
  = head (filter (λ f, 0 < files_count f) (flattenFolders folders))
  ∧ (findFirstFolderWithFiles folders = None
     ↔ Forall (λ f, files_count f ≤ 0) (flattenFolders folders))
  ∧ (∀ f, findFirstFolderWithFiles folders = Some f →
          0 < files_count f ∧ f ∈ flattenFolders folders)
  ∧ (∀ targetPath,
       findFolder folders targetPath
       = head (filter (λ f, folder_path f = targetPath)
                 (flattenFolders folders))
       ∧ (findFolder folders targetPath = None
          ↔ targetPath ∉ folder_path <$> flattenFolders folders)
       ∧ (∀ f, findFolder folders targetPath = Some f →
               folder_path f = targetPath ∧ f ∈ flattenFolders folders)).
Proof.
  assert (findFirstFolderWithFiles folders
          = head (filter (λ f, 0 < files_count f) (flattenFolders folders)))
    as Hfirst.
  { apply firstFound_flat, Forall_forall. intros f _.
    apply firstWithFilesAt_flat. }
  assert (∀ targetPath,
            findFolder folders targetPath
            = head (filter (λ f, folder_path f = targetPath)
                      (flattenFolders folders))) as Hfind.
  { intros targetPath. apply firstFound_flat, Forall_forall. intros f _.
    apply findFolderAt_flat. }
  split_and!.
  - done.
  - rewrite Hfirst, head_filter_None. apply Forall_iff. intros f. lia.
  - intros f. rewrite Hfirst.
    apply (head_filter_Some_elem (λ f, 0 < files_count f)).
  - intros targetPath. split_and!.
    + done.
    + rewrite Hfind, head_filter_None, Forall_forall. split.
      * intros Hno (f & -> & Hf)%list_elem_of_fmap. by apply (Hno f).
      * intros Hno f Hf Heq. apply Hno. rewrite <- Heq.
        by apply list_elem_of_fmap_2.
    + intros f. rewrite Hfind.
      apply (head_filter_Some_elem (λ f, folder_path f = targetPath)).
Qed.

Lemma folder_searches_find_first_witness :
  findFirstFolderWithFiles sampleTree = Some (mkFolder "2024" "/docs/2024" 3 [])
  ∧ findFolder sampleTree "/nowhere" = None
  ∧ (∀ f, findFolder sampleTree "/inbox" = Some f → folder_path f = "/inbox").
Proof.
  destruct (folder_searches_find_first sampleTree)
    as (Hfirst & _ & _ & Hfind).
  split_and!.
  - rewrite Hfirst. vm_compute. reflexivity.
  - apply (proj1 (proj2 (Hfind "/nowhere"))). vm_compute. intros Hin.
    repeat (apply elem_of_cons in Hin as [Hin|Hin]; [discriminate Hin|]).
    by apply elem_of_nil in Hin.
  - intros f Hf. by apply (proj2 (proj2 (Hfind "/inbox")) f).
Defined.

(** ** Names from paths *)

Lemma splitFrom_nonempty (rest piece : string) : splitFrom piece rest ≠ [].
Proof.
  revert piece. induction rest as [|c rest IH]; intros piece; simpl; [done|].
  destruct (isSeparator c); [done|apply IH].
Qed.

Lemma string_app_cons (x : Ascii.ascii) (a b : string) :
  String x a +:+ b = String x (a +:+ b).
Proof. reflexivity. Qed.

Lemma string_app_nil_r (s : string) : s +:+ "" = s.
Proof.
  induction s as [|c s IH]; [done|]. by rewrite string_app_cons, IH.
Qed.

Lemma string_app_assoc (a b c : string) :
  (a +:+ b) +:+ c = a +:+ (b +:+ c).
Proof.
  induction a as [|x a IH]; [done|]. by rewrite !string_app_cons, IH.
Qed.

Lemma splitFrom_plain (rest : string) :
  ∀ piece, hasSeparator rest = false →
           splitFrom piece rest = [piece +:+ rest].
Proof.
  induction rest as [|c rest IH]; intros piece Hno; simpl in *.
  - by rewrite string_app_nil_r.
  - apply orb_false_iff in Hno as [Hc Hrest]. rewrite Hc.
    rewrite IH by done. by rewrite string_app_assoc.
Qed.

Lemma last_cons_nonempty {A : Type} (x : A) (l : list A) :
  l ≠ [] → last (x :: l) = last l.
Proof. by destruct l. Qed.

Lemma splitFrom_after_separator (before : string) (c : Ascii.ascii)
    (after : string) :
  ∀ piece, isSeparator c = true →
           last (splitFrom piece (before +:+ String c after))
           = last (splitFrom "" after).
Proof.
  induction before as [|x before IH]; intros piece Hc.
  - change ("" +:+ String c after) with (String c after). simpl.
    rewrite Hc. apply last_cons_nonempty, splitFrom_nonempty.
  - rewrite string_app_cons. simpl.
    destruct (isSeparator x); [|by apply IH].
    rewrite last_cons_nonempty by apply splitFrom_nonempty. by apply IH.
Qed.

Lemma hasSeparator_app (a b : string) :
  hasSeparator (a +:+ b) = hasSeparator a || hasSeparator b.
Proof.
  induction a as [|x a IH]; [done|].
  rewrite string_app_cons. simpl. by rewrite IH, orb_assoc.
Qed.

Lemma splitFrom_pieces (rest : string) :
  ∀ piece, hasSeparator piece = false →
           Forall (λ s, hasSeparator s = false) (splitFrom piece rest).
Proof.
  induction rest as [|c rest IH]; intros piece Hp; simpl.
  - by constructor.
  - destruct (isSeparator c) eqn:Hc.
    + constructor; [done|]. by apply IH.
    + apply IH. rewrite hasSeparator_app. simpl. by rewrite Hp, Hc.
Qed.

(** X26.  The name shown for a path.  A folder of the tree with that path
    gives its name.  Otherwise the name is what follows the last [/] or
    [\] of the path, and the whole path when nothing follows it or when the
    path has neither; so it is empty only for the empty path, and unless it
    is the whole path it holds no separator. *)
Theorem getFolderName_cases (availableFolders_ : list Folder)
    (path_ : string) :
  (∀ folder, findFolder availableFolders_ path_ = Some folder →
             getFolderName availableFolders_ path_ = folder_name folder)
  ∧ (findFolder availableFolders_ path_ = None →
     (hasSeparator path_ = false →
      getFolderName availableFolders_ path_ = path_)
     ∧ (∀ before c after,
          path_ = before +:+ String c after → isSeparator c = true →
          hasSeparator after = false →
          getFolderName availableFolders_ path_
          = if decide (after = "") then path_ else after)
     ∧ (path_ ≠ "" → getFolderName availableFolders_ path_ ≠ "")
     ∧ (getFolderName availableFolders_ path_ = path_
        ∨ hasSeparator (getFolderName availableFolders_ path_) = false)).
Proof.
  unfold getFolderName. split.
  - by intros folder ->.
  - intros ->. split_and!.
    + intros Hno. unfold splitPath. rewrite splitFrom_plain by done. simpl.
      by case_decide.
    + intros before c after -> Hc Hafter. unfold splitPath.
      rewrite splitFrom_after_separator by done.
      rewrite splitFrom_plain by done. simpl. done.
    + intros Hne. destruct (last (splitPath path_)) as [piece|]; [|done].
      by case_decide.
    + destruct (last (splitPath path_)) as [piece|] eqn:Hlast; [|by left].
      case_decide; [by left|right].
      pose proof (splitFrom_pieces path_ "" eq_refl) as Hall.
      rewrite Forall_forall in Hall. apply Hall.
      apply last_Some_elem_of in Hlast. done.
Qed.

Lemma getFolderName_cases_witness :
  getFolderName sampleTree "/inbox" = "inbox"
  ∧ getFolderName sampleTree "scans" = "scans"
  ∧ getFolderName sampleTree "C:\data\scans" = "scans"
  ∧ getFolderName sampleTree "/data/scans/" = "/data/scans/".
Proof.
  destruct (getFolderName_cases sampleTree "/inbox") as [Hfound _].
  destruct (getFolderName_cases sampleTree "scans") as [_ Hplain].
  destruct (getFolderName_cases sampleTree "C:\data\scans") as [_ Hwin].
  destruct (getFolderName_cases sampleTree "/data/scans/") as [_ Hend].
  split_and!.
  - apply (Hfound (mkFolder "inbox" "/inbox" 7 [])). vm_compute. reflexivity.
  - apply Hplain; reflexivity.
  - apply (proj1 (proj2 (Hwin eq_refl)) "C:\data" "\"%char "scans");
      reflexivity.
  - apply (proj1 (proj2 (Hend eq_refl)) "/data/scans" "/"%char "");
      reflexivity.
Defined.

(** ** Expanded folders *)

Lemma mark_expanded (paths : list string) :
  ∀ (m : gmap string bool) (q : string),
    foldl (λ newExpanded path_, <[path_ := true]> newExpanded) m paths !! q
    = if decide (q ∈ paths) then Some true else m !! q.
Proof.
  induction paths as [|x paths IH]; intros m q; cbn [foldl].
  - rewrite decide_False; [done|]. apply not_elem_of_nil.
  - rewrite IH. destruct (decide (q ∈ paths)) as [Hin|Hnin].
    + rewrite decide_True; [done|]. by apply list_elem_of_further.
    + destruct (decide (q = x)) as [->|Hne].
      * rewrite lookup_insert_eq, decide_True; [done|].
        apply list_elem_of_here.
      * rewrite lookup_insert_ne by done. rewrite decide_False; [done|].
        by intros [?|?]%elem_of_cons.
Qed.

Lemma elem_of_flat_map {A B : Type} (f : A → list B) (l : list A) (y : B) :
  y ∈ flat_map f l ↔ ∃ x, x ∈ l ∧ y ∈ f x.
Proof.
  induction l as [|a l IH]; simpl.
  - split; [by intros ?%elem_of_nil|]. by intros (x & ?%elem_of_nil & _).
  - rewrite elem_of_app, IH. split.
    + intros [Hy|(x & Hx & Hy)].
      * exists a. split; [apply list_elem_of_here|done].
      * exists x. split; [by apply list_elem_of_further|done].
    + intros (x & [->|Hx]%elem_of_cons & Hy); [by left|right; eauto].
Qed.

Lemma collectPathsAt_spec (folder : Folder) (q : string) :
  q ∈ collectPathsAt folder
  ↔ ∃ f, f ∈ flattenFolder folder ∧ folder_path f = q ∧ subfolders f ≠ [].
Proof.
  induction folder as [folder IH] using Folder_nested_ind.
  destruct folder as [n p c subs]. simpl in *.
  assert (q ∈ flat_map collectPathsAt subs
          ↔ ∃ f, f ∈ flat_map flattenFolder subs
                 ∧ folder_path f = q ∧ subfolders f ≠ []) as Hsubs.
  { rewrite elem_of_flat_map. rewrite Forall_forall in IH. split.
    - intros (x & Hx & Hq). apply (IH x Hx) in Hq as (f & Hf & Hp & Hs).
      exists f. split; [|done]. apply elem_of_flat_map. eauto.
    - intros (f & Hf & Hp & Hs).
      apply elem_of_flat_map in Hf as (x & Hx & Hf).
      exists x. split; [done|]. apply (IH x Hx). eauto. }
  destruct subs as [|sub subs].
  - split; [by intros ?%elem_of_nil|].
    intros (f & Hf & Hp & Hs). simpl in Hf.
    apply list_elem_of_singleton in Hf as ->. done.
  - rewrite elem_of_cons, Hsubs. split.
    + intros [->|(f & Hf & Hp & Hs)].
      * eexists. split; [apply list_elem_of_here|done].
      * exists f. split; [by apply list_elem_of_further|done].
    + intros (f & [->|Hf]%elem_of_cons & Hp & Hs); [by left|right; eauto].
Qed.

(** X27.  [expandAllFolders] marks as expanded exactly the paths of the
    folders of the tree, at any depth, that have subfolders; it marks
    nothing as collapsed. *)
Theorem expandAllFolders_marks (folders : list Folder) (q : string) :
  (isExpanded (expandAllFolders folders) q = true
   ↔ ∃ f, f ∈ flattenFolders folders ∧ folder_path f = q
          ∧ subfolders f ≠ [])
  ∧ expandAllFolders folders !! q ≠ Some false.
Proof.
  unfold isExpanded, expandAllFolders. rewrite mark_expanded.
  assert (q ∈ collectPaths folders
          ↔ ∃ f, f ∈ flattenFolders folders ∧ folder_path f = q
                 ∧ subfolders f ≠ []) as Hspec.
  { unfold collectPaths, flattenFolders. rewrite elem_of_flat_map. split.
    - intros (x & Hx & Hq). apply collectPathsAt_spec in Hq as (f & Hf & Hrest).
      exists f. split; [|done]. apply elem_of_flat_map. eauto.
    - intros (f & Hf & Hrest).
      apply elem_of_flat_map in Hf as (x & Hx & Hf).
      exists x. split; [done|]. apply collectPathsAt_spec. eauto. }
  destruct (decide (q ∈ collectPaths folders)) as [Hin|Hnin]; simpl.
  - split; [|done]. split; [intros _; by apply Hspec|done].
  - rewrite lookup_empty. simpl. split; [|done].
    split; [done|]. intros Hf. by apply Hspec in Hf.
Qed.

Lemma expandAllFolders_marks_witness :
  isExpanded (expandAllFolders sampleTree) "/docs" = true
  ∧ expandAllFolders sampleTree !! "/inbox" ≠ Some false.
Proof.
  split.
  - apply (proj1 (expandAllFolders_marks sampleTree "/docs")).
    eexists. split; [apply list_elem_of_here|]. split; [reflexivity|].
    discriminate.
  - apply (proj2 (expandAllFolders_marks sampleTree "/inbox")).
Defined.

(** X28.  Toggling a folder flips whether it is shown expanded and leaves
    every other path as it was; toggling it twice shows every path as
    before. *)
Theorem handleToggleFolder_flips (folderPath : string)
    (prev : gmap string bool) :
  isExpanded (handleToggleFolder folderPath prev) folderPath
  = negb (isExpanded prev folderPath)
  ∧ (∀ q, q ≠ folderPath →
          handleToggleFolder folderPath prev !! q = prev !! q)
  ∧ (∀ q, isExpanded
            (handleToggleFolder folderPath
               (handleToggleFolder folderPath prev)) q
          = isExpanded prev q).
Proof.
  assert (∀ m, isExpanded (handleToggleFolder folderPath m) folderPath
               = negb (isExpanded m folderPath)) as Hflip.
  { intros m. unfold handleToggleFolder, isExpanded at 1.
    by rewrite lookup_insert_eq. }
  assert (∀ m q, q ≠ folderPath →
                 handleToggleFolder folderPath m !! q = m !! q) as Hother.
  { intros m q Hne. unfold handleToggleFolder.
    by rewrite lookup_insert_ne. }
  split_and!; [apply Hflip|apply Hother|].
  intros q. destruct (decide (q = folderPath)) as [->|Hne].
  - by rewrite !Hflip, negb_involutive.
  - unfold isExpanded. by rewrite !Hother.
Qed.

Lemma handleToggleFolder_flips_witness :
  handleToggleFolder "/docs" (expandAllFolders sampleTree) !! "/inbox"
  = expandAllFolders sampleTree !! "/inbox"
  ∧ isExpanded (handleToggleFolder "/docs" (expandAllFolders sampleTree))
      "/docs" = false.
Proof.
  destruct (handleToggleFolder_flips "/docs" (expandAllFolders sampleTree))
    as (Hflip & Hother & _).
  split.
  - apply Hother. discriminate.
  - rewrite Hflip. vm_compute. reflexivity.
Defined.

(** X29.  What [loadFolders] leaves on the page.  After a response, the
    folders shown are those of the answer that have files or subfolders, in
    the order of the answer; a folder already selected stays selected; with
    none selected, the first folder with files in the shown trees gets
    selected, and if no shown folder has files at any depth none is.  After
    an error the folders and the selection are as before and the page
    shows an error text. *)
Theorem loadFolders_selects (pg : Page) :
  (∀ dataFolders,
     let pg' := loadFolders (FoldersResponse dataFolders) pg in
     availableFolders pg' = filter worthShowing (default [] dataFolders)
     ∧ Forall worthShowing (availableFolders pg')
     ∧ (selectedFolder pg ≠ "" → selectedFolder pg' = selectedFolder pg)
     ∧ (selectedFolder pg = "" →
        ∀ f, findFirstFolderWithFiles (availableFolders pg') = Some f →
             selectedFolder pg' = folder_path f ∧ 0 < files_count f
             ∧ f ∈ flattenFolders (availableFolders pg'))
     ∧ (selectedFolder pg = "" →
        Forall (λ f, files_count f ≤ 0) (flattenFolders (availableFolders pg'))
        → selectedFolder pg' = "")
     ∧ view pg' = view pg)
  ∧ (let pg' := loadFolders FoldersError pg in
     availableFolders pg' = availableFolders pg
     ∧ selectedFolder pg' = selectedFolder pg
     ∧ errorText (view pg') ≠ "").
Proof.
  split; [|by cbv zeta; simpl].
  intros dataFolders. cbv zeta. simpl.
  set (shown := filter worthShowing (default [] dataFolders)).
  assert (findFirstFolderWithFiles shown
          = head (filter (λ f, 0 < files_count f) (flattenFolders shown)))
    as Hfirst.
  { apply firstFound_flat, Forall_forall. intros f _.
    apply firstWithFilesAt_flat. }
  split_and!; [done| | | | |done].
  - apply Forall_forall. intros f Hf.
    by apply list_elem_of_filter in Hf as [Hf _].
  - intros Hsel. rewrite decide_False; [done|]. by intros [_ ?].
  - intros Hsel f Hf.
    assert (0 < files_count f ∧ f ∈ flattenFolders shown) as [Hfiles Hin]
      by (rewrite Hfirst in Hf;
          by apply (head_filter_Some_elem (λ f, 0 < files_count f))).
    split_and!; [|done|done].
    rewrite decide_True; [by rewrite Hf|].
    split; [|done]. destruct shown; [|simpl; lia].
    by apply elem_of_nil in Hin.
  - intros Hsel Hnone. case_decide; [|done].
    assert (findFirstFolderWithFiles shown = None) as ->; [|done].
    rewrite Hfirst. apply head_filter_None.
    eapply Forall_impl; [exact Hnone|]. intros f. simpl. lia.
Qed.

Lemma loadFolders_selects_witness :
  let pg' := loadFolders
               (FoldersResponse
                  (Some (mkFolder "void" "/void" 0 [] :: sampleTree)))
               emptyPage in
  availableFolders pg' = sampleTree
  ∧ selectedFolder pg' = "/docs/2024"
  ∧ selectedFolder
      (loadFolders (FoldersResponse (Some sampleTree))
         (mkPage "/inbox" [] None None None freshPoller)) = "/inbox".
Proof.
  cbv zeta.
  destruct (loadFolders_selects emptyPage) as [Hok _].
  destruct (Hok (Some (mkFolder "void" "/void" 0 [] :: sampleTree)))
    as (Hshown & _ & _ & Hsel & _).
  destruct (loadFolders_selects
              (mkPage "/inbox" [] None None None freshPoller)) as [Hok' _].
  destruct (Hok' (Some sampleTree)) as (_ & _ & Hkeep & _).
  split_and!.
  - rewrite Hshown. vm_compute. reflexivity.
  - apply (Hsel eq_refl (mkFolder "2024" "/docs/2024" 3 [])).
    vm_compute. reflexivity.
  - apply Hkeep. discriminate.
Defined.

(** * Durations *)

(** X30.  The text of a duration.  Below one minute (and for an end before
    the start) it is the whole seconds elapsed, rounded down, followed by
    the unit.  From one minute on it gives minutes and seconds that
    recompose to the whole seconds elapsed, with at least one minute and
    seconds between 0 and 59. *)
Theorem formatDuration_parts (start end_ : Z) :
  (end_ - start < 60000 →
   formatDuration start end_
   = pretty ((end_ - start) `div` 1000) +:+ " сек"
   ∧ 1000 * ((end_ - start) `div` 1000) ≤ end_ - start
     < 1000 * ((end_ - start) `div` 1000) + 1000)
  ∧ (60000 ≤ end_ - start →
     ∃ minutes seconds,
       formatDuration start end_
       = pretty minutes +:+ " мин " +:+ pretty seconds +:+ " сек"
       ∧ 1 ≤ minutes ∧ 0 ≤ seconds < 60
       ∧ 1000 * (60 * minutes + seconds) ≤ end_ - start
         < 1000 * (60 * minutes + seconds) + 1000).
Proof.
  unfold formatDuration. set (d := end_ - start).
  pose proof (Z.div_mod d 1000 ltac:(lia)) as Hdm.
  pose proof (Z.mod_pos_bound d 1000 ltac:(lia)) as Hmod.
  split.
  - intros Hlt. rewrite decide_True by (apply Z.div_lt_upper_bound; lia).
    split; [done|lia].
  - intros Hge.
    assert (60 ≤ d `div` 1000) as Hs by (apply Z.div_le_lower_bound; lia).
    rewrite decide_False by lia.
    exists ((d `div` 1000) `div` 60), ((d `div` 1000) `rem` 60).
    rewrite Z.rem_mod_nonneg by lia.
    pose proof (Z.div_mod (d `div` 1000) 60 ltac:(lia)) as Hdm'.
    pose proof (Z.mod_pos_bound (d `div` 1000) 60 ltac:(lia)) as Hmod'.
    assert (1 ≤ (d `div` 1000) `div` 60)
      by (apply Z.div_le_lower_bound; lia).
    split_and!; [done|lia|lia|lia|lia|lia].
Qed.

Lemma formatDuration_parts_witness :
  formatDuration 1000 60500 = "59 сек"
  ∧ ∃ minutes seconds,
      formatDuration 1000 126900
      = pretty minutes +:+ " мин " +:+ pretty seconds +:+ " сек"
      ∧ 1 ≤ minutes ∧ 0 ≤ seconds < 60
      ∧ 1000 * (60 * minutes + seconds) ≤ 126900 - 1000
        < 1000 * (60 * minutes + seconds) + 1000.
Proof.
  split.
  - destruct (proj1 (formatDuration_parts 1000 60500)) as [Htext _];
      [lia|]. rewrite Htext. vm_compute. reflexivity.
  - apply (proj2 (formatDuration_parts 1000 126900)). lia.
Defined.
